(** * Encoded features and metadata (CesiumEncodedFeaturesMetadata.cpp)

    A shallow embedding of the encoding pipeline that turns feature ID sets
    and property tables into GPU-friendly descriptors, followed by the
    properties established about it.

    Conventions of the embedding:
    - [FString] is a Rocq [string]; [TArray] is a [list]; a [TMap] that is
      only iterated is an association list in iteration order, a [TMap]
      used as a dictionary is a [gmap].
    - [int32] / [int64] values are [Z] with the wrap-around written out.
    - Heap objects ([LoadedTextureResult]) live in an explicit store; a
      pointer is an index into the store, [None] is [nullptr].
    - [UE_LOG] appends to an explicit log. *)

From Stdlib Require Import ZArith String Ascii List DecimalString DecimalZ Lia Bool.
From stdpp Require Import gmap strings list.

Open Scope Z_scope.

(* ===================================================================== *)
(** ** FString *)
(* ===================================================================== *)

Module FStr.

Definition FString := string.

Definition Len (s : FString) : nat := String.length s.

Definition IsEmpty (s : FString) : bool :=
  match s with EmptyString => true | String _ _ => false end.

(** [FString::FindChar(c, index)]: position of the first occurrence. *)
Fixpoint FindChar (s : FString) (c : ascii) : option nat :=
  match s with
  | EmptyString => None
  | String x rest =>
      if Ascii.eqb x c then Some O
      else match FindChar rest c with
           | Some i => Some (S i)
           | None => None
           end
  end.

(** [s[i] = c], in range. Out of range the string is left as it is. *)
Fixpoint setChar (i : nat) (c : ascii) (s : FString) : FString :=
  match s, i with
  | EmptyString, _ => EmptyString
  | String _ rest, O => String c rest
  | String x rest, S j => String x (setChar j c rest)
  end.

(** [std::to_string] on a signed integer. *)
Definition to_string (z : Z) : FString :=
  NilZero.string_of_int (Z.to_int z).

Fixpoint all_chars (p : ascii -> bool) (s : FString) : bool :=
  match s with
  | EmptyString => true
  | String c rest => p c && all_chars p rest
  end.

Fixpoint map_chars (f : ascii -> ascii) (s : FString) : FString :=
  match s with
  | EmptyString => EmptyString
  | String c rest => String (f c) (map_chars f rest)
  end.

Fixpoint repeat_char (c : ascii) (n : nat) : FString :=
  match n with
  | O => EmptyString
  | S k => String c (repeat_char c k)
  end.

End FStr.
Import FStr.

(* ===================================================================== *)
(** ** createHlslSafeName *)
(* ===================================================================== *)

Definition identifierHeadChar : FString :=
  "abcdefghijklmnopqrstuvwxyzABCDEFGHIJKLMNOPQRSTUVWXYZ_"%string.

Definition identifierTailChar : FString :=
  (identifierHeadChar +:+ "0123456789")%string.

(** The [for (size_t i = 1; i < safeName.Len(); ++i)] loop.  [fuel] bounds
    the number of iterations; [Len safeName] is always enough because the
    body never changes the length. *)
Fixpoint createHlslSafeName_loop (fuel i : nat) (safeName : FString) : FString :=
  match fuel with
  | O => safeName
  | S fuel' =>
      if (i <? Len safeName)%nat then
        let safeName' :=
          match String.get i safeName with
          | Some c =>
              match FindChar identifierTailChar c with
              | Some _ => safeName
              | None => setChar i "_"%char safeName
              end
          | None => safeName
          end in
        createHlslSafeName_loop fuel' (S i) safeName'
      else safeName
  end.

Definition createHlslSafeName (rawName : FString) : FString :=
  let safeName := rawName in
  if (Len safeName =? 0)%nat then "_"%string
  else
    let safeName :=
      match String.get 0 safeName with
      | Some c =>
          match FindChar identifierHeadChar c with
          | Some _ => safeName
          | None => ("_" +:+ safeName)%string
          end
      | None => safeName
      end in
    createHlslSafeName_loop (Len safeName) 1 safeName.

(** Shader-safe identifiers, by character class. *)

Definition in_range (lo hi : nat) (c : ascii) : bool :=
  let n := nat_of_ascii c in ((lo <=? n) && (n <=? hi))%nat.

Definition isHeadChar (c : ascii) : bool :=
  in_range 65 90 c || in_range 97 122 c || Ascii.eqb c "_"%char.

Definition isTailChar (c : ascii) : bool :=
  isHeadChar c || in_range 48 57 c.

Definition isShaderSafe (s : FString) : bool :=
  match s with
  | EmptyString => false
  | String h t => isHeadChar h && all_chars isTailChar t
  end.

(** Space, tab, line feed, vertical tab, form feed, carriage return. *)
Definition isWhitespace (c : ascii) : bool :=
  let n := nat_of_ascii c in
  ((n =? 32) || (n =? 9) || (n =? 10) || (n =? 11) || (n =? 12) || (n =? 13))%nat.

Definition sanitizeTailChar (c : ascii) : ascii :=
  match FindChar identifierTailChar c with
  | Some _ => c
  | None => "_"%char
  end.

(* ===================================================================== *)
(** ** Fixed-width integers *)
(* ===================================================================== *)

Definition wrap32 (z : Z) : Z := (z + 2 ^ 31) mod 2 ^ 32 - 2 ^ 31.
Definition wrap64 (z : Z) : Z := (z + 2 ^ 63) mod 2 ^ 64 - 2 ^ 63.

Definition INT32_MIN : Z := - 2 ^ 31.
Definition INT32_MAX : Z := 2 ^ 31 - 1.
Definition INT64_MAX : Z := 2 ^ 63 - 1.

(* ===================================================================== *)
(** ** Enumerations *)
(* ===================================================================== *)

Module ECesiumFeatureIdSetType.
Inductive t := None | Attribute | Texture | Implicit.
#[global] Instance eq_dec : EqDecision t.
Proof. solve_decision. Defined.
End ECesiumFeatureIdSetType.

Module ECesiumFeatureIdAttributeStatus.
Inductive t := Valid | ErrorInvalidAttribute | ErrorInvalidAccessor.
#[global] Instance eq_dec : EqDecision t.
Proof. solve_decision. Defined.
End ECesiumFeatureIdAttributeStatus.

Module ECesiumFeatureIdTextureStatus.
Inductive t := Valid | ErrorInvalidTexture | ErrorInvalidTextureAccess.
#[global] Instance eq_dec : EqDecision t.
Proof. solve_decision. Defined.
End ECesiumFeatureIdTextureStatus.

Module ECesiumPropertyTablePropertyStatus.
Inductive t := Valid | EmptyPropertyWithDefault | ErrorInvalidProperty
             | ErrorInvalidPropertyData.
#[global] Instance eq_dec : EqDecision t.
Proof. solve_decision. Defined.
End ECesiumPropertyTablePropertyStatus.

Module ECesiumMetadataType.
Inductive t := Invalid | Scalar | Vec2 | Vec3 | Vec4 | Mat2 | Mat3 | Mat4
             | Boolean | Enum | String.
#[global] Instance eq_dec : EqDecision t.
Proof. solve_decision. Defined.
End ECesiumMetadataType.

Module ECesiumMetadataComponentType.
Inductive t := None | Int8 | Uint8 | Int16 | Uint16 | Int32 | Uint32
             | Int64 | Uint64 | Float32 | Float64.
#[global] Instance eq_dec : EqDecision t.
Proof. solve_decision. Defined.
End ECesiumMetadataComponentType.

Module ECesiumEncodedMetadataType.
Inductive t := None | Scalar | Vec2 | Vec3 | Vec4.
#[global] Instance eq_dec : EqDecision t.
Proof. solve_decision. Defined.
End ECesiumEncodedMetadataType.

Module ECesiumEncodedMetadataComponentType.
Inductive t := None | Uint8 | Float.
#[global] Instance eq_dec : EqDecision t.
Proof. solve_decision. Defined.
End ECesiumEncodedMetadataComponentType.

Module ECesiumEncodedMetadataConversion.
Inductive t := None | Coerce | ParseColorFromString.
#[global] Instance eq_dec : EqDecision t.
Proof. solve_decision. Defined.
End ECesiumEncodedMetadataConversion.

Module EPixelFormat.
Inductive t := PF_Unknown | PF_R8_UINT | PF_R8G8B8A8_UINT | PF_R32_FLOAT
             | PF_A32B32G32R32F.
#[global] Instance eq_dec : EqDecision t.
Proof. solve_decision. Defined.
End EPixelFormat.

Module TextureAddress.
Inductive t := TA_Wrap | TA_Clamp | TA_Mirror.
End TextureAddress.

Module TextureFilter.
Inductive t := TF_Nearest | TF_Bilinear | TF_Trilinear | TF_Default.
End TextureFilter.

Module ELogVerbosity.
Inductive t := Error | Warning.
#[global] Instance eq_dec : EqDecision t.
Proof. solve_decision. Defined.
End ELogVerbosity.

(** [UE_LOG(LogCesium, verbosity, text)] *)
Abbreviation Log := (list (ELogVerbosity.t * string)).

(* ===================================================================== *)
(** ** Live glTF data (read-only views handed to the encoder) *)
(* ===================================================================== *)

Record ImageCesium := {
  width : Z;
  height : Z;
  pixelData : list Byte.byte
}.

(** Identity of a [CesiumGltf::ImageCesium] (its address). *)
Abbreviation ImagePtr := nat.

(** [getImage] is the address the cache is keyed on, [image] the pointee. *)
Record FeatureIdTextureView := {
  getImage : ImagePtr;
  image : ImageCesium;
  getChannels : list Z;
  getTexCoordSetIndex : Z
}.

Record FCesiumFeatureIdAttribute := {
  GetFeatureIDAttributeStatus : ECesiumFeatureIdAttributeStatus.t;
  getAttributeIndex : Z
}.

Record FCesiumFeatureIdTexture := {
  GetFeatureIDTextureStatus : ECesiumFeatureIdTextureStatus.t;
  getFeatureIdTextureView : FeatureIdTextureView
}.

(** The payload of a feature ID set: a tagged union over its type. *)
Inductive FeatureID :=
| FeatureID_None
| FeatureID_Attribute (a : FCesiumFeatureIdAttribute)
| FeatureID_Texture (t : FCesiumFeatureIdTexture)
| FeatureID_Implicit.

Record FCesiumFeatureIdSet := {
  GetLabel : FString;
  featureID : FeatureID;
  GetNullFeatureID : Z
}.

Definition GetFeatureIDSetType (s : FCesiumFeatureIdSet) : ECesiumFeatureIdSetType.t :=
  match featureID s with
  | FeatureID_None => ECesiumFeatureIdSetType.None
  | FeatureID_Attribute _ => ECesiumFeatureIdSetType.Attribute
  | FeatureID_Texture _ => ECesiumFeatureIdSetType.Texture
  | FeatureID_Implicit => ECesiumFeatureIdSetType.Implicit
  end.

Definition defaultImage : ImageCesium :=
  {| width := 0; height := 0; pixelData := [] |}.

(** The accessors return a default-constructed (invalid) object when the
    set is of another type. *)
Definition GetAsFeatureIDAttribute (s : FCesiumFeatureIdSet) : FCesiumFeatureIdAttribute :=
  match featureID s with
  | FeatureID_Attribute a => a
  | _ => {| GetFeatureIDAttributeStatus :=
              ECesiumFeatureIdAttributeStatus.ErrorInvalidAttribute;
            getAttributeIndex := -1 |}
  end.

Definition GetAsFeatureIDTexture (s : FCesiumFeatureIdSet) : FCesiumFeatureIdTexture :=
  match featureID s with
  | FeatureID_Texture t => t
  | _ => {| GetFeatureIDTextureStatus :=
              ECesiumFeatureIdTextureStatus.ErrorInvalidTexture;
            getFeatureIdTextureView :=
              {| getImage := O; image := defaultImage;
                 getChannels := []; getTexCoordSetIndex := -1 |} |}
  end.

Record FCesiumPrimitiveFeatures := {
  GetFeatureIDSets : list FCesiumFeatureIdSet
}.

Record FCesiumMetadataValueType := {
  vt_Type : ECesiumMetadataType.t;
  vt_ComponentType : ECesiumMetadataComponentType.t;
  vt_bIsArray : bool
}.

#[global] Instance FCesiumMetadataValueType_eq_dec : EqDecision FCesiumMetadataValueType.
Proof. solve_decision. Defined.

(** Offset, scale, no-data and default values are copied verbatim and never
    inspected by the encoder. *)
Inductive FCesiumMetadataValue :=
| MetadataValue_Empty
| MetadataValue_Components (components : list Z).

Record FCesiumPropertyTableProperty := {
  GetPropertyTablePropertyStatus : ECesiumPropertyTablePropertyStatus.t;
  GetValueType : FCesiumMetadataValueType;
  IsNormalized : bool;
  GetOffset : FCesiumMetadataValue;
  GetScale : FCesiumMetadataValue;
  GetNoDataValue : FCesiumMetadataValue;
  GetDefaultValue : FCesiumMetadataValue
}.

Record FCesiumPropertyTable := {
  GetPropertyTableName : FString;
  getClassName : FString;
  GetPropertyTableCount : Z;
  (** [TMap<FString, FCesiumPropertyTableProperty>], in iteration order *)
  GetProperties : list (FString * FCesiumPropertyTableProperty)
}.

Record FCesiumPropertyTexture := {
  GetPropertyTextureName : FString
}.

Record FCesiumModelMetadata := {
  GetPropertyTables : list FCesiumPropertyTable;
  GetPropertyTextures : list FCesiumPropertyTexture
}.

Record FCesiumPrimitiveMetadata := {
  GetPropertyTextureIndices : list Z
}.

(* ===================================================================== *)
(** ** Descriptions (what the material asks for) *)
(* ===================================================================== *)

Record FCesiumFeatureIdSetDescription := {
  fisd_Name : FString;
  fisd_PropertyTableName : FString
}.

Record FCesiumPrimitiveFeaturesDescription := {
  FeatureIdSets : list FCesiumFeatureIdSetDescription
}.

Record FCesiumMetadataPropertyDetails := {
  pd_Type : ECesiumMetadataType.t;
  pd_ComponentType : ECesiumMetadataComponentType.t;
  pd_bIsArray : bool;
  bIsNormalized : bool;
  bHasOffset : bool;
  bHasScale : bool;
  bHasNoDataValue : bool;
  bHasDefaultValue : bool
}.

Definition PropertyDetails_GetValueType (d : FCesiumMetadataPropertyDetails)
  : FCesiumMetadataValueType :=
  {| vt_Type := pd_Type d; vt_ComponentType := pd_ComponentType d;
     vt_bIsArray := pd_bIsArray d |}.

Record FCesiumMetadataEncodingDetails := {
  ed_Type : ECesiumEncodedMetadataType.t;
  ed_ComponentType : ECesiumEncodedMetadataComponentType.t;
  Conversion : ECesiumEncodedMetadataConversion.t
}.

Record FCesiumPropertyTablePropertyDescription := {
  ptpd_Name : FString;
  PropertyDetails : FCesiumMetadataPropertyDetails;
  EncodingDetails : FCesiumMetadataEncodingDetails
}.

Record FCesiumPropertyTableDescription := {
  ptd_Name : FString;
  ptd_Properties : list FCesiumPropertyTablePropertyDescription
}.

Record FCesiumPropertyTextureDescription := {
  ptxd_Name : FString
}.

Record FCesiumModelMetadataDescription := {
  PropertyTables : list FCesiumPropertyTableDescription;
  PropertyTextures : list FCesiumPropertyTextureDescription
}.


(* ===================================================================== *)
(** ** Textures and the object store *)
(* ===================================================================== *)

Record FTexture2DMipMap := {
  mip_SizeX : Z;
  mip_SizeY : Z;
  BulkData : list Byte.byte
}.

Record FTexturePlatformData := {
  SizeX : Z;
  SizeY : Z;
  PixelFormat : EPixelFormat.t;
  Mips : list FTexture2DMipMap
}.

Inductive TextureSource := NoTextureSource | LegacyTextureSource.

Record LoadedTextureResult := {
  textureSource : TextureSource;
  pTextureData : option FTexturePlatformData;
  addressX : TextureAddress.t;
  addressY : TextureAddress.t;
  textureFilter : TextureFilter.t
}.

Definition newLoadedTextureResult : LoadedTextureResult :=
  {| textureSource := NoTextureSource; pTextureData := None;
     addressX := TextureAddress.TA_Wrap; addressY := TextureAddress.TA_Wrap;
     textureFilter := TextureFilter.TF_Default |}.

Definition set_textureSource (v : TextureSource) (r : LoadedTextureResult) :=
  {| textureSource := v; pTextureData := pTextureData r;
     addressX := addressX r; addressY := addressY r; textureFilter := textureFilter r |}.

Definition set_pTextureData (v : option FTexturePlatformData) (r : LoadedTextureResult) :=
  {| textureSource := textureSource r; pTextureData := v;
     addressX := addressX r; addressY := addressY r; textureFilter := textureFilter r |}.

Definition set_sampler (ax ay : TextureAddress.t) (f : TextureFilter.t)
    (r : LoadedTextureResult) :=
  {| textureSource := textureSource r; pTextureData := pTextureData r;
     addressX := ax; addressY := ay; textureFilter := f |}.

(** [pTextureData->Mips.Add(pMip)] *)
Definition Mips_Add (pMip : FTexture2DMipMap) (r : LoadedTextureResult) :=
  set_pTextureData
    (match pTextureData r with
     | Some d => Some {| SizeX := SizeX d; SizeY := SizeY d;
                         PixelFormat := PixelFormat d;
                         Mips := Mips d ++ [pMip] |}
     | None => None
     end) r.

(** A (possibly null) pointer to a [LoadedTextureResult]. *)
Abbreviation Ptr := (option nat).

(** Every [LoadedTextureResult] ever allocated, by address; [None] marks an
    object whose last owner is gone. *)
Abbreviation Store := (list (option LoadedTextureResult)).

(** [MakeShared<LoadedTextureResult>()] / [MakeUnique<LoadedTextureResult>()] *)
Definition MakeShared (st : Store) : nat * Store :=
  (length st, st ++ [Some newLoadedTextureResult]).

(** A write through a pointer, [p->field = v]. *)
Definition modify (p : nat) (f : LoadedTextureResult -> LoadedTextureResult)
    (st : Store) : Store :=
  alter (fmap f) p st.

(** The last strong reference to [p] goes out of scope. *)
Definition release (p : nat) (st : Store) : Store := <[p := None]> st.

Definition deref (st : Store) (p : Ptr) : option LoadedTextureResult :=
  match p with
  | Some a => match st !! a with Some (Some r) => Some r | _ => None end
  | None => None
  end.

(** [TWeakPtr::Pin()]: a strong pointer while the object is alive, else null. *)
Definition Pin (st : Store) (weak : nat) : Ptr :=
  match st !! weak with
  | Some (Some _) => Some weak
  | _ => None
  end.

(* ===================================================================== *)
(** ** Encoded results *)
(* ===================================================================== *)

Record EncodedFeatureIdTexture := {
  channels : list Z;
  pTexture : Ptr;
  textureCoordinateSetIndex : Z
}.

Record EncodedFeatureIdSet := {
  name : FString;
  index : Z;
  attribute : option Z;
  texture : option EncodedFeatureIdTexture;
  propertyTableName : FString;
  nullFeatureId : Z
}.

Definition newEncodedFeatureIdSet : EncodedFeatureIdSet :=
  {| name := ""%string; index := 0; attribute := None; texture := None;
     propertyTableName := ""%string; nullFeatureId := 0 |}.

Record EncodedPrimitiveFeatures := {
  featureIdSets : list EncodedFeatureIdSet
}.

Record EncodedPropertyTableProperty := {
  eptp_name : FString;
  eptp_pTexture : Ptr;
  eptp_type : ECesiumEncodedMetadataType.t;
  offset : FCesiumMetadataValue;
  scale : FCesiumMetadataValue;
  noData : FCesiumMetadataValue;
  defaultValue : FCesiumMetadataValue
}.

Record EncodedPropertyTable := {
  ept_name : FString;
  ept_properties : list EncodedPropertyTableProperty
}.

Record EncodedPropertyTextureProperty := {
  eptxp_name : FString;
  eptxp_pTexture : Ptr
}.

Record EncodedPropertyTexture := {
  eptx_name : FString;
  eptx_properties : list EncodedPropertyTextureProperty
}.

Record EncodedPrimitiveMetadata := {
  propertyTextureIndices : list Z
}.

Record EncodedModelMetadata := {
  propertyTables : list EncodedPropertyTable;
  propertyTextures : list EncodedPropertyTexture
}.

(* ===================================================================== *)
(** ** Engine services used by the encoder

    These functions are called by the encoder but defined elsewhere.  The
    development is parametric in them. *)
(* ===================================================================== *)

(** Every realization attempted on the game thread so far, with its outcome
    ([true] when [loadTextureGameThreadPart] returned a texture). *)
Abbreviation Realizations := (list (option nat * bool)).

Class Engine := {
  (** [CesiumTextureUtility::createTexturePlatformData]; [None] is [nullptr] *)
  createTexturePlatformData : Z -> Z -> EPixelFormat.t -> option FTexturePlatformData;
  Coerce_canEncode : FCesiumPropertyTablePropertyDescription -> bool;
  (** description, property, the buffer to fill, pixel size; the filled buffer *)
  Coerce_encode : FCesiumPropertyTablePropertyDescription ->
                  FCesiumPropertyTableProperty -> list Byte.byte -> Z -> list Byte.byte;
  ParseColorFromString_canEncode : FCesiumPropertyTablePropertyDescription -> bool;
  ParseColorFromString_encode : FCesiumPropertyTablePropertyDescription ->
                  FCesiumPropertyTableProperty -> list Byte.byte -> Z -> list Byte.byte;
  (** [loadTextureGameThreadPart(p) != nullptr]; the outcome may depend on
      what was realized before *)
  loadTextureGameThreadPart : Realizations -> Ptr -> bool
}.

(** Modelled from the spec: [FString::operator==] is engine code outside this
    repository; the spec describes the description lookup as an exact name
    match. *)
Definition FString_eq (a b : FString) : bool := String.eqb a b.

(** [TArray::FindByPredicate]: the first element satisfying the predicate. *)
Definition FindByPredicate {A} (p : A -> bool) (l : list A) : option A :=
  List.find p l.

(** [TArray::Find(x) != INDEX_NONE] *)
Definition Contains (x : Ptr) (l : list Ptr) : bool :=
  bool_decide (x ∈ l).

(* ===================================================================== *)
(** ** Name resolution *)
(* ===================================================================== *)

(** Returns the name and the new value of [FeatureIdTextureCounter]. *)
Definition getNameForFeatureIDSet (featureIDSet : FCesiumFeatureIdSet)
    (FeatureIdTextureCounter : Z) : FString * Z :=
  let label := GetLabel featureIDSet in
  if negb (IsEmpty label) then (label, FeatureIdTextureCounter)
  else
    let type := GetFeatureIDSetType featureIDSet in
    let attribute := GetAsFeatureIDAttribute featureIDSet in
    if bool_decide (type = ECesiumFeatureIdSetType.Attribute) &&
       bool_decide (GetFeatureIDAttributeStatus attribute =
                    ECesiumFeatureIdAttributeStatus.Valid)
    then (("_FEATURE_ID_" +:+ to_string (getAttributeIndex attribute))%string,
          FeatureIdTextureCounter)
    else if bool_decide (type = ECesiumFeatureIdSetType.Texture)
    then (("_FEATURE_ID_TEXTURE_" +:+ to_string FeatureIdTextureCounter)%string,
          wrap32 (FeatureIdTextureCounter + 1))
    else if bool_decide (type = ECesiumFeatureIdSetType.Implicit)
    then ("_IMPLICIT_FEATURE_ID"%string, FeatureIdTextureCounter)
    else (""%string, FeatureIdTextureCounter).

Definition getNameForPropertyTable (PropertyTable : FCesiumPropertyTable) : FString :=
  let propertyTableName := GetPropertyTableName PropertyTable in
  if IsEmpty propertyTableName then getClassName PropertyTable
  else propertyTableName.

(* ===================================================================== *)
(** ** Feature ID sets, any-thread part *)
(* ===================================================================== *)

Definition encodeFeatureIdAttribute (attribute : FCesiumFeatureIdAttribute)
  : option EncodedFeatureIdSet * Log :=
  let status := GetFeatureIDAttributeStatus attribute in
  if bool_decide (status ≠ ECesiumFeatureIdAttributeStatus.Valid) then
    (None, [(ELogVerbosity.Warning,
             "Can't encode invalid feature ID attribute, skipped."%string)])
  else
    (Some {| name := name newEncodedFeatureIdSet;
             index := index newEncodedFeatureIdSet;
             attribute := Some (getAttributeIndex attribute);
             texture := None;
             propertyTableName := propertyTableName newEncodedFeatureIdSet;
             nullFeatureId := nullFeatureId newEncodedFeatureIdSet |}, []).

Definition withTexture (t : EncodedFeatureIdTexture) : EncodedFeatureIdSet :=
  {| name := name newEncodedFeatureIdSet;
     index := index newEncodedFeatureIdSet;
     attribute := None;
     texture := Some t;
     propertyTableName := propertyTableName newEncodedFeatureIdSet;
     nullFeatureId := nullFeatureId newEncodedFeatureIdSet |}.

(** The cache [featureIdTextureMap] holds weak pointers: addresses in the
    store that own nothing.  The fresh object is owned by [result] alone, so
    it dies with [result] on the early return. *)
Definition encodeFeatureIdTexture `{Engine} (texture : FCesiumFeatureIdTexture)
    (featureIdTextureMap : gmap ImagePtr nat) (store : Store)
  : option EncodedFeatureIdSet * gmap ImagePtr nat * Store * Log :=
  let status := GetFeatureIDTextureStatus texture in
  if bool_decide (status ≠ ECesiumFeatureIdTextureStatus.Valid) then
    (None, featureIdTextureMap, store,
     [(ELogVerbosity.Warning,
       "Can't encode invalid feature ID texture, skipped."%string)])
  else
    let featureIdTextureView := getFeatureIdTextureView texture in
    let pFeatureIdImage := getImage featureIdTextureView in
    let encoded (p : Ptr) :=
      {| channels := getChannels featureIdTextureView;
         pTexture := p;
         textureCoordinateSetIndex := getTexCoordSetIndex featureIdTextureView |} in
    match featureIdTextureMap !! pFeatureIdImage with
    | Some pMappedUnrealImageIt =>
        (Some (withTexture (encoded (Pin store pMappedUnrealImageIt))),
         featureIdTextureMap, store, [])
    | None =>
        let '(p, store) := MakeShared store in
        let store := modify p (set_textureSource LegacyTextureSource) store in
        let featureIdTextureMap := <[pFeatureIdImage := p]> featureIdTextureMap in
        let data :=
          createTexturePlatformData
            (width (image featureIdTextureView))
            (height (image featureIdTextureView))
            EPixelFormat.PF_R8G8B8A8_UINT in
        let store := modify p (set_pTextureData data) store in
        let store :=
          modify p (set_sampler TextureAddress.TA_Clamp TextureAddress.TA_Clamp
                                TextureFilter.TF_Nearest) store in
        match data with
        | None =>
            (None, featureIdTextureMap, release p store,
             [(ELogVerbosity.Error,
               "Error encoding a feature ID texture. Most likely could not allocate enough texture memory."%string)])
        | Some _ =>
            let pMip :=
              {| mip_SizeX := width (image featureIdTextureView);
                 mip_SizeY := height (image featureIdTextureView);
                 BulkData := pixelData (image featureIdTextureView) |} in
            let store := modify p (Mips_Add pMip) store in
            (Some (withTexture (encoded (Some p))), featureIdTextureMap, store, [])
        end
    end.

(** The locals of [encodePrimitiveFeaturesAnyThreadPart] that survive one
    loop iteration, together with the store and the log. *)
Record FeaturesPass := {
  featureIdTextureCounter : Z;
  featureIdTextureMap : gmap ImagePtr nat;
  fp_store : Store;
  fp_result : list EncodedFeatureIdSet;
  fp_log : Log
}.

(** One iteration of [for (int32 i = 0; i < featureIdSets.Num(); i++)]. *)
Definition encodePrimitiveFeatures_body `{Engine}
    (featureIDSetDescriptions : list FCesiumFeatureIdSetDescription)
    (i : nat) (set : FCesiumFeatureIdSet) (s : FeaturesPass) : FeaturesPass :=
  let '(name_, counter) := getNameForFeatureIDSet set (featureIdTextureCounter s) in
  match FindByPredicate (fun existingFeatureIDSet =>
                           FString_eq (fisd_Name existingFeatureIDSet) name_)
                        featureIDSetDescriptions with
  | None =>
      {| featureIdTextureCounter := counter;
         featureIdTextureMap := featureIdTextureMap s;
         fp_store := fp_store s; fp_result := fp_result s; fp_log := fp_log s |}
  | Some pDescription =>
      let type := GetFeatureIDSetType set in
      let '(encodedSet, map, store, log) :=
        match type with
        | ECesiumFeatureIdSetType.Attribute =>
            let '(e, l) := encodeFeatureIdAttribute (GetAsFeatureIDAttribute set) in
            (e, featureIdTextureMap s, fp_store s, l)
        | ECesiumFeatureIdSetType.Texture =>
            encodeFeatureIdTexture (GetAsFeatureIDTexture set)
                                   (featureIdTextureMap s) (fp_store s)
        | ECesiumFeatureIdSetType.Implicit =>
            (Some newEncodedFeatureIdSet, featureIdTextureMap s, fp_store s, [])
        | ECesiumFeatureIdSetType.None =>
            (None, featureIdTextureMap s, fp_store s, [])
        end in
      match encodedSet with
      | None =>
          {| featureIdTextureCounter := counter; featureIdTextureMap := map;
             fp_store := store; fp_result := fp_result s;
             fp_log := fp_log s ++ log |}
      | Some e =>
          let e' :=
            {| name := name_;
               index := Z.of_nat i;
               attribute := attribute e;
               texture := texture e;
               propertyTableName := fisd_PropertyTableName pDescription;
               nullFeatureId := GetNullFeatureID set |} in
          {| featureIdTextureCounter := counter; featureIdTextureMap := map;
             fp_store := store; fp_result := fp_result s ++ [e'];
             fp_log := fp_log s ++ log |}
      end
  end.

Fixpoint encodePrimitiveFeatures_loop `{Engine}
    (featureIDSetDescriptions : list FCesiumFeatureIdSetDescription)
    (i : nat) (featureIdSets : list FCesiumFeatureIdSet) (s : FeaturesPass)
  : FeaturesPass :=
  match featureIdSets with
  | [] => s
  | set :: rest =>
      encodePrimitiveFeatures_loop featureIDSetDescriptions (S i) rest
        (encodePrimitiveFeatures_body featureIDSetDescriptions i set s)
  end.

Definition encodePrimitiveFeatures_pass `{Engine}
    (featuresDescription : FCesiumPrimitiveFeaturesDescription)
    (features : FCesiumPrimitiveFeatures) (store : Store) : FeaturesPass :=
  encodePrimitiveFeatures_loop (FeatureIdSets featuresDescription) O
    (GetFeatureIDSets features)
    {| featureIdTextureCounter := 0; featureIdTextureMap := ∅;
       fp_store := store; fp_result := []; fp_log := [] |}.

(** The encoded features, the store after the call, and what was logged. *)
Definition encodePrimitiveFeaturesAnyThreadPart `{Engine}
    (featuresDescription : FCesiumPrimitiveFeaturesDescription)
    (features : FCesiumPrimitiveFeatures) (store : Store)
  : EncodedPrimitiveFeatures * Store * Log :=
  let s := encodePrimitiveFeatures_pass featuresDescription features store in
  ({| featureIdSets := fp_result s |}, fp_store s, fp_log s).

(* ===================================================================== *)
(** ** Property tables, any-thread part *)
(* ===================================================================== *)

Record EncodedPixelFormat := {
  format : EPixelFormat.t;
  pixelSize : Z
}.

Definition getPixelFormat (encodingDetails : FCesiumMetadataEncodingDetails)
  : EncodedPixelFormat :=
  match ed_ComponentType encodingDetails with
  | ECesiumEncodedMetadataComponentType.Uint8 =>
      match ed_Type encodingDetails with
      | ECesiumEncodedMetadataType.Scalar =>
          {| format := EPixelFormat.PF_R8_UINT; pixelSize := 1 |}
      | ECesiumEncodedMetadataType.Vec2
      | ECesiumEncodedMetadataType.Vec3
      | ECesiumEncodedMetadataType.Vec4 =>
          {| format := EPixelFormat.PF_R8G8B8A8_UINT; pixelSize := 4 |}
      | _ => {| format := EPixelFormat.PF_Unknown; pixelSize := 0 |}
      end
  | ECesiumEncodedMetadataComponentType.Float =>
      match ed_Type encodingDetails with
      | ECesiumEncodedMetadataType.Scalar =>
          {| format := EPixelFormat.PF_R32_FLOAT; pixelSize := 4 |}
      | ECesiumEncodedMetadataType.Vec2
      | ECesiumEncodedMetadataType.Vec3
      | ECesiumEncodedMetadataType.Vec4 =>
          {| format := EPixelFormat.PF_A32B32G32R32F; pixelSize := 16 |}
      | _ => (* falls through to the outer default *)
          {| format := EPixelFormat.PF_Unknown; pixelSize := 0 |}
      end
  | _ => {| format := EPixelFormat.PF_Unknown; pixelSize := 0 |}
  end.

Definition isValidPropertyTablePropertyDescription
    (propertyDescription : FCesiumPropertyTablePropertyDescription)
    (property : FCesiumPropertyTableProperty) : bool * Log :=
  if bool_decide (ed_Type (EncodingDetails propertyDescription) =
                  ECesiumEncodedMetadataType.None) then
    (false, [(ELogVerbosity.Warning,
              "No encoded metadata type was specified for this property table property; skip encoding."%string)])
  else if bool_decide (ed_ComponentType (EncodingDetails propertyDescription) =
                       ECesiumEncodedMetadataComponentType.None) then
    (false, [(ELogVerbosity.Warning,
              "No encoded metadata component type was specified for this property table property; skip encoding."%string)])
  else
    let expectedType := PropertyDetails_GetValueType (PropertyDetails propertyDescription) in
    let valueType := GetValueType property in
    let log1 : Log :=
      if bool_decide (valueType ≠ expectedType) then
        [(ELogVerbosity.Warning,
          ("The value type of the metadata property " +:+ ptpd_Name propertyDescription
           +:+ " does not match the type specified by the metadata description. It will still attempt to be encoded, but may result in empty or unexpected values.")%string)]
      else [] in
    let isNormalized := IsNormalized property in
    if negb (Bool.eqb (bIsNormalized (PropertyDetails propertyDescription)) isNormalized) then
      let error :=
        if bIsNormalized (PropertyDetails propertyDescription)
        then "Description incorrectly marked a property table property as normalized; skip encoding."%string
        else "Description incorrectly marked a property table property as not normalized; skip encoding."%string in
      (false, log1 ++ [(ELogVerbosity.Warning, error)])
    else if isNormalized &&
            bool_decide (vt_ComponentType valueType ≠ ECesiumMetadataComponentType.Uint8) then
      (false, log1 ++ [(ELogVerbosity.Warning,
                        "Only normalization of uint8 properties is currently supported."%string)])
    else (true, log1).

(** [int64 floorSqrtFeatureCount = glm::sqrt(propertyTableCount)].
    [glm::sqrt] is library code outside this repository: on a scalar it is
    [std::sqrt], which converts an integer argument to [double]; the
    [double] result is then converted to [int64] by the initialization.
    The three steps are written out on integers, following IEEE 754
    binary64 arithmetic in the default rounding mode. *)

(** The [double] nearest to a non-negative [int64], ties to even, as the
    integer it denotes: 53 significant bits are kept. *)
Definition int64_to_double (n : Z) : Z :=
  if n <? 2 ^ 53 then n
  else
    let e := Z.log2 n - 52 in
    let q := Z.shiftr n e in
    let r := n - Z.shiftl q e in
    let half := 2 ^ (e - 1) in
    let q' := if (half <? r) || ((r =? half) && Z.odd q) then q + 1 else q in
    Z.shiftl q' e.

(** The correctly rounded square root of the [double] of integer value [x],
    truncated to [int64].  With [2 ^ k <= sqrt x < 2 ^ (k + 1)] the result of
    [std::sqrt] is [m * 2 ^ (- p)], where [p = 52 - k] and [m] is the integer
    nearest to [sqrt x * 2 ^ p] (a tie cannot occur).  The root of a
    negative number is NaN, whose conversion to [int64] the language leaves
    undefined: 0 stands for it here, and no statement is made about negative
    counts. *)
Definition double_sqrt_to_int64 (x : Z) : Z :=
  if x <=? 0 then 0
  else
    let k := Z.log2 (Z.sqrt x) in
    let p := 52 - k in
    let scaled := x * 4 ^ p in
    let q := Z.sqrt scaled in
    let m := if q <? scaled - q * q then q + 1 else q in
    m / 2 ^ p.

Definition glm_sqrt (x : Z) : Z := double_sqrt_to_int64 (int64_to_double x).

(** Lines computing [textureDimension] from [propertyTableCount] (int64). *)
Definition textureDimension (propertyTableCount : Z) : Z :=
  let floorSqrtFeatureCount := glm_sqrt propertyTableCount in
  if wrap64 (floorSqrtFeatureCount * floorSqrtFeatureCount) =? propertyTableCount
  then floorSqrtFeatureCount
  else wrap64 (floorSqrtFeatureCount + 1).

(** [BulkData.Realloc(size)]: a fresh buffer of [size] bytes. *)
Definition Realloc (size : Z) : list Byte.byte :=
  replicate (Z.to_nat size) Byte.x00.

Definition newEncodedPropertyTableProperty : EncodedPropertyTableProperty :=
  {| eptp_name := ""%string; eptp_pTexture := None;
     eptp_type := ECesiumEncodedMetadataType.None;
     offset := MetadataValue_Empty; scale := MetadataValue_Empty;
     noData := MetadataValue_Empty; defaultValue := MetadataValue_Empty |}.

(** The locals of [encodePropertyTableAnyThreadPart] that survive one loop
    iteration, together with the store and the log. *)
Record TablePass := {
  tp_properties : list EncodedPropertyTableProperty;
  tp_store : Store;
  tp_log : Log
}.

Definition tp_warn (s : TablePass) (l : Log) : TablePass :=
  {| tp_properties := tp_properties s; tp_store := tp_store s;
     tp_log := tp_log s ++ l |}.

(** One iteration of [for (const auto& pair : properties)].  The element
    obtained from [Emplace_GetRef] is written through a reference; here it
    is appended to [tp_properties] in the state it has when the iteration
    ends, whichever way it ends. *)
Definition encodePropertyTable_body `{Engine}
    (propertyTableDescription : FCesiumPropertyTableDescription)
    (propertyTableCount : Z)
    (s : TablePass) (pair : FString * FCesiumPropertyTableProperty) : TablePass :=
  let property := pair.2 in
  match FindByPredicate (fun expectedProperty =>
                           FString_eq pair.1 (ptpd_Name expectedProperty))
                        (ptd_Properties propertyTableDescription) with
  | None => s
  | Some pDescription =>
    let encodingDetails := EncodingDetails pDescription in
    if bool_decide (Conversion encodingDetails = ECesiumEncodedMetadataConversion.None)
    then s
    else
    let '(valid, vlog) := isValidPropertyTablePropertyDescription pDescription property in
    if negb valid then tp_warn s vlog
    else
    let s := tp_warn s vlog in
    if bool_decide (Conversion encodingDetails = ECesiumEncodedMetadataConversion.Coerce)
       && negb (Coerce_canEncode pDescription)
    then tp_warn s [(ELogVerbosity.Warning,
                     "Cannot use 'Coerce' with the specified property info; skipped."%string)]
    else
    if bool_decide (Conversion encodingDetails =
                    ECesiumEncodedMetadataConversion.ParseColorFromString)
       && negb (ParseColorFromString_canEncode pDescription)
    then tp_warn s [(ELogVerbosity.Warning,
                     "Cannot use `Parse Color From String` with the specified property info; skipped."%string)]
    else
    let encodedFormat := getPixelFormat encodingDetails in
    if bool_decide (format encodedFormat = EPixelFormat.PF_Unknown)
    then tp_warn s [(ELogVerbosity.Warning,
                     "Unable to determine a suitable GPU format for this property table property; skipped."%string)]
    else
    let encodedProperty (p : Ptr) (withValues : bool) :=
      let details := PropertyDetails pDescription in
      {| eptp_name := createHlslSafeName (ptpd_Name pDescription);
         eptp_pTexture := p;
         eptp_type := ed_Type (EncodingDetails pDescription);
         offset := if withValues && bHasOffset details
                   then GetOffset property else MetadataValue_Empty;
         scale := if withValues && bHasScale details
                  then GetScale property else MetadataValue_Empty;
         noData := if withValues && bHasNoDataValue details
                   then GetNoDataValue property else MetadataValue_Empty;
         defaultValue := if withValues && bHasDefaultValue details
                         then GetDefaultValue property else MetadataValue_Empty |} in
    if bool_decide (GetPropertyTablePropertyStatus property =
                    ECesiumPropertyTablePropertyStatus.Valid)
    then
      let d := textureDimension propertyTableCount in
      let '(p, store) := MakeShared (tp_store s) in
      let store := modify p (set_textureSource LegacyTextureSource) store in
      let data := createTexturePlatformData d d (format encodedFormat) in
      let store := modify p (set_pTextureData data) store in
      let store :=
        modify p (set_sampler TextureAddress.TA_Clamp TextureAddress.TA_Clamp
                              TextureFilter.TF_Nearest) store in
      match data with
      | None =>
          (* [continue]: the emplaced element stays, the values are not read *)
          {| tp_properties := tp_properties s ++ [encodedProperty (Some p) false];
             tp_store := store;
             tp_log := tp_log s ++
               [(ELogVerbosity.Error,
                 "Error encoding a property table property. Most likely could not allocate enough texture memory."%string)] |}
      | Some _ =>
          let pTextureData :=
            Realloc (wrap64 (wrap64 (d * d) * pixelSize encodedFormat)) in
          let bytes :=
            if bool_decide (Conversion encodingDetails =
                            ECesiumEncodedMetadataConversion.ParseColorFromString)
            then ParseColorFromString_encode pDescription property pTextureData
                   (pixelSize encodedFormat)
            else Coerce_encode pDescription property pTextureData
                   (pixelSize encodedFormat) in
          let pMip := {| mip_SizeX := d; mip_SizeY := d; BulkData := bytes |} in
          let store := modify p (Mips_Add pMip) store in
          {| tp_properties := tp_properties s ++ [encodedProperty (Some p) true];
             tp_store := store; tp_log := tp_log s |}
      end
    else
      {| tp_properties := tp_properties s ++ [encodedProperty None true];
         tp_store := tp_store s; tp_log := tp_log s |}
  end.

Definition encodePropertyTable_pass `{Engine}
    (propertyTableDescription : FCesiumPropertyTableDescription)
    (propertyTable : FCesiumPropertyTable) (store : Store) : TablePass :=
  fold_left
    (encodePropertyTable_body propertyTableDescription
       (GetPropertyTableCount propertyTable))
    (GetProperties propertyTable)
    {| tp_properties := []; tp_store := store; tp_log := [] |}.

Definition encodePropertyTableAnyThreadPart `{Engine}
    (propertyTableDescription : FCesiumPropertyTableDescription)
    (propertyTable : FCesiumPropertyTable) (store : Store)
  : EncodedPropertyTable * Store * Log :=
  let s := encodePropertyTable_pass propertyTableDescription propertyTable store in
  ({| ept_name := ""%string; ept_properties := tp_properties s |},
   tp_store s, tp_log s).

(* ===================================================================== *)
(** ** Property textures and model metadata, any-thread part *)
(* ===================================================================== *)

Definition newEncodedPropertyTexture : EncodedPropertyTexture :=
  {| eptx_name := ""%string; eptx_properties := [] |}.

(** The whole body is commented out in the source. *)
Definition encodePropertyTextureAnyThreadPart
    (featureTexturePropertyMap : gmap ImagePtr nat)
    (propertyTextureDescription : FCesiumPropertyTextureDescription)
    (featureTextureName : FString)
    (propertyTexture : FCesiumPropertyTexture)
  : EncodedPropertyTexture * gmap ImagePtr nat :=
  let encodedPropertyTexture := newEncodedPropertyTexture in
  (encodedPropertyTexture, featureTexturePropertyMap).

Definition encodePrimitiveMetadataAnyThreadPart
    (metadataDescription : FCesiumModelMetadataDescription)
    (features : FCesiumPrimitiveFeatures)
    (primitive : FCesiumPrimitiveMetadata) : EncodedPrimitiveMetadata :=
  {| propertyTextureIndices := [] |}.

Record ModelPass := {
  mp_propertyTables : list EncodedPropertyTable;
  mp_store : Store;
  mp_log : Log
}.

(** One iteration of [for (const auto& propertyTable : propertyTables)]. *)
Definition encodeModelMetadata_tableBody `{Engine}
    (metadataDescription : FCesiumModelMetadataDescription)
    (s : ModelPass) (propertyTable : FCesiumPropertyTable) : ModelPass :=
  let propertyTableName := getNameForPropertyTable propertyTable in
  match FindByPredicate (fun expectedPropertyTable =>
                           FString_eq propertyTableName (ptd_Name expectedPropertyTable))
                        (PropertyTables metadataDescription) with
  | Some pExpectedPropertyTable =>
      let '(encodedPropertyTable, store, log) :=
        encodePropertyTableAnyThreadPart pExpectedPropertyTable propertyTable
          (mp_store s) in
      {| mp_propertyTables :=
           mp_propertyTables s ++
             [{| ept_name := propertyTableName;
                 ept_properties := ept_properties encodedPropertyTable |}];
         mp_store := store;
         mp_log := mp_log s ++ log |}
  | None => s
  end.

(** One iteration of [for (const auto& propertyTextureIt : propertyTextures)]:
    the body is commented out in the source. *)
Definition encodeModelMetadata_textureBody
    (acc : list EncodedPropertyTexture) (propertyTextureIt : FCesiumPropertyTexture)
  : list EncodedPropertyTexture := acc.

Definition encodeModelMetadataAnyThreadPart `{Engine}
    (metadataDescription : FCesiumModelMetadataDescription)
    (metadata : FCesiumModelMetadata) (store : Store)
  : EncodedModelMetadata * Store * Log :=
  let s :=
    fold_left (encodeModelMetadata_tableBody metadataDescription)
      (GetPropertyTables metadata)
      {| mp_propertyTables := []; mp_store := store; mp_log := [] |} in
  let textures :=
    fold_left encodeModelMetadata_textureBody (GetPropertyTextures metadata) [] in
  ({| propertyTables := mp_propertyTables s; propertyTextures := textures |},
   mp_store s, mp_log s).

(* ===================================================================== *)
(** ** Game-thread part

    Each function takes the realizations made so far and returns its
    [success] flag with the realizations extended by its own calls to
    [loadTextureGameThreadPart]. *)
(* ===================================================================== *)

(** [success &= loadTextureGameThreadPart(p) != nullptr] *)
Definition realize `{Engine} (p : Ptr) (st : bool * Realizations) : bool * Realizations :=
  let r := loadTextureGameThreadPart st.2 p in
  (st.1 && r, st.2 ++ [(p, r)]).

Definition encodePrimitiveFeatures_gameBody `{Engine}
    (st : bool * Realizations * list Ptr) (encodedFeatureIdSet : EncodedFeatureIdSet)
  : bool * Realizations * list Ptr :=
  let '(success, w, uniqueFeatureIdImages) := st in
  match texture encodedFeatureIdSet with
  | None => st
  | Some encodedFeatureIdTexture =>
      if negb (Contains (pTexture encodedFeatureIdTexture) uniqueFeatureIdImages) then
        let '(success, w) := realize (pTexture encodedFeatureIdTexture) (success, w) in
        (success, w, uniqueFeatureIdImages ++ [pTexture encodedFeatureIdTexture])
      else st
  end.

Definition encodePrimitiveFeaturesGameThreadPart `{Engine}
    (encodedFeatures : EncodedPrimitiveFeatures) (w : Realizations)
  : bool * Realizations :=
  (fold_left encodePrimitiveFeatures_gameBody (featureIdSets encodedFeatures)
     (true, w, [])).1.

Definition encodePropertyTable_gameBody `{Engine}
    (st : bool * Realizations) (encodedProperty : EncodedPropertyTableProperty)
  : bool * Realizations :=
  match eptp_pTexture encodedProperty with
  | Some p => realize (Some p) st
  | None => st
  end.

Definition encodePropertyTableGameThreadPart `{Engine}
    (encodedPropertyTable : EncodedPropertyTable) (w : Realizations)
  : bool * Realizations :=
  fold_left encodePropertyTable_gameBody (ept_properties encodedPropertyTable)
    (true, w).

Definition encodePropertyTexture_gameBody `{Engine}
    (st : bool * Realizations * list Ptr) (property : EncodedPropertyTextureProperty)
  : bool * Realizations * list Ptr :=
  let '(success, w, uniqueTextures) := st in
  if negb (Contains (eptxp_pTexture property) uniqueTextures) then
    let '(success, w) := realize (eptxp_pTexture property) (success, w) in
    (success, w, uniqueTextures ++ [eptxp_pTexture property])
  else st.

(** [uniqueTextures] is passed by reference: it is returned as well. *)
Definition encodePropertyTextureGameThreadPart `{Engine}
    (uniqueTextures : list Ptr) (encodedPropertyTexture : EncodedPropertyTexture)
    (w : Realizations) : bool * Realizations * list Ptr :=
  fold_left encodePropertyTexture_gameBody (eptx_properties encodedPropertyTexture)
    (true, w, uniqueTextures).

Definition encodePrimitiveMetadataGameThreadPart
    (encodedPrimitive : EncodedPrimitiveMetadata) (w : Realizations)
  : bool * Realizations :=
  (true, w).

Definition encodeModelMetadata_gameTextures `{Engine}
    (st : bool * Realizations * list Ptr) (encodedPropertyTextureIt : EncodedPropertyTexture)
  : bool * Realizations * list Ptr :=
  let '(success, w, uniqueTextures) := st in
  let '(ok, w, uniqueTextures) :=
    encodePropertyTextureGameThreadPart uniqueTextures encodedPropertyTextureIt w in
  (success && ok, w, uniqueTextures).

Definition encodeModelMetadata_gameTables `{Engine}
    (st : bool * Realizations) (encodedPropertyTable : EncodedPropertyTable)
  : bool * Realizations :=
  let '(ok, w) := encodePropertyTableGameThreadPart encodedPropertyTable st.2 in
  (st.1 && ok, w).

Definition encodeModelMetadataGameThreadPart `{Engine}
    (encodedMetadata : EncodedModelMetadata) (w : Realizations)
  : bool * Realizations :=
  let '(success, w, _) :=
    fold_left encodeModelMetadata_gameTextures (propertyTextures encodedMetadata)
      (true, w, []) in
  fold_left encodeModelMetadata_gameTables (propertyTables encodedMetadata)
    (success, w).

(** The pointers a pass hands to [loadTextureGameThreadPart], in order. *)
Definition attempted (before after : Realizations) : list Ptr :=
  (drop (length before) after).*1.

(** Pointers carried by encoded results. *)
Definition featureTexturePtrs (e : EncodedPrimitiveFeatures) : list Ptr :=
  omap (fun s => pTexture <$> texture s) (featureIdSets e).

Definition tablePtrs (t : EncodedPropertyTable) : list Ptr :=
  omap (fun p => match eptp_pTexture p with Some a => Some (Some a) | None => None end)
       (ept_properties t).

Definition propertyTexturePtrs (t : EncodedPropertyTexture) : list Ptr :=
  eptxp_pTexture <$> eptx_properties t.

(** First occurrences, in order, of the elements of [l] not already in [seen]. *)
Fixpoint firstOccurrences (seen : list Ptr) (l : list Ptr) : list Ptr :=
  match l with
  | [] => []
  | p :: rest =>
      if bool_decide (p ∈ seen) then firstOccurrences seen rest
      else p :: firstOccurrences (seen ++ [p]) rest
  end.

(** The calls [loadTextureGameThreadPart(p) != nullptr] for the pointers
    [ptrs], made one after the other following the realizations [w]: each
    pointer with the outcome of its call. *)
Fixpoint realizeEach `{Engine} (w : Realizations) (ptrs : list Ptr) : Realizations :=
  match ptrs with
  | [] => []
  | p :: rest =>
      (p, loadTextureGameThreadPart w p)
        :: realizeEach (w ++ [(p, loadTextureGameThreadPart w p)]) rest
  end.

(** The conjunction of the outcomes of those calls, and the realizations
    after them. *)
Definition realizeAll `{Engine} (w : Realizations) (ptrs : list Ptr)
  : bool * Realizations :=
  (forallb id (realizeEach w ptrs).*2, w ++ realizeEach w ptrs).

(* ===================================================================== *)
(** ** Concrete engines and inputs used in the examples *)
(* ===================================================================== *)

(** Every allocation succeeds, every conversion is supported, every
    realization succeeds. *)
Definition idealEngine : Engine :=
  {| createTexturePlatformData := fun w h f =>
       Some {| SizeX := w; SizeY := h; PixelFormat := f; Mips := [] |};
     Coerce_canEncode := fun _ => true;
     Coerce_encode := fun _ _ buffer _ => buffer;
     ParseColorFromString_canEncode := fun _ => true;
     ParseColorFromString_encode := fun _ _ buffer _ => buffer;
     loadTextureGameThreadPart := fun _ _ => true |}.

(** No texture backing can be allocated. *)
Definition exhaustedEngine : Engine :=
  {| createTexturePlatformData := fun _ _ _ => None;
     Coerce_canEncode := fun _ => true;
     Coerce_encode := fun _ _ buffer _ => buffer;
     ParseColorFromString_canEncode := fun _ => true;
     ParseColorFromString_encode := fun _ _ buffer _ => buffer;
     loadTextureGameThreadPart := fun _ _ => false |}.

Definition exampleImage : ImageCesium :=
  {| width := 2; height := 1;
     pixelData := [Byte.x00; Byte.x00; Byte.x00; Byte.x00;
                   Byte.x01; Byte.x00; Byte.x00; Byte.x00] |}.

Definition exampleTexture (p : ImagePtr) (channel : Z) : FCesiumFeatureIdTexture :=
  {| GetFeatureIDTextureStatus := ECesiumFeatureIdTextureStatus.Valid;
     getFeatureIdTextureView :=
       {| getImage := p; image := exampleImage;
          getChannels := [channel]; getTexCoordSetIndex := 0 |} |}.

Definition textureSet (label : FString) (p : ImagePtr) (channel : Z) : FCesiumFeatureIdSet :=
  {| GetLabel := label; featureID := FeatureID_Texture (exampleTexture p channel);
     GetNullFeatureID := -1 |}.

Definition implicitSet (label : FString) : FCesiumFeatureIdSet :=
  {| GetLabel := label; featureID := FeatureID_Implicit; GetNullFeatureID := -1 |}.

Definition wanted (n : FString) : FCesiumFeatureIdSetDescription :=
  {| fisd_Name := n; fisd_PropertyTableName := "table"%string |}.

(** Two unlabeled texture sets reading two channels of the image at address 7. *)
Definition sharedImageFeatures : FCesiumPrimitiveFeatures :=
  {| GetFeatureIDSets := [textureSet "" 7%nat 0; textureSet "" 7%nat 1] |}.

Definition sharedImageDescription : FCesiumPrimitiveFeaturesDescription :=
  {| FeatureIdSets := [wanted "_FEATURE_ID_TEXTURE_0"; wanted "_FEATURE_ID_TEXTURE_1"] |}.

(** Three unlabeled texture sets reading the image at address 7, all three
    asked for. *)
Definition threeSharedFeatures : FCesiumPrimitiveFeatures :=
  {| GetFeatureIDSets :=
       [textureSet "" 7%nat 0; textureSet "" 7%nat 1; textureSet "" 7%nat 2] |}.

Definition threeSharedDescription : FCesiumPrimitiveFeaturesDescription :=
  {| FeatureIdSets := [wanted "_FEATURE_ID_TEXTURE_0"; wanted "_FEATURE_ID_TEXTURE_1";
                       wanted "_FEATURE_ID_TEXTURE_2"] |}.

(** Realization fails for the texture at address 0 and succeeds for every
    other one. *)
Definition pickyEngine : Engine :=
  {| createTexturePlatformData := fun w h f =>
       Some {| SizeX := w; SizeY := h; PixelFormat := f; Mips := [] |};
     Coerce_canEncode := fun _ => true;
     Coerce_encode := fun _ _ buffer _ => buffer;
     ParseColorFromString_canEncode := fun _ => true;
     ParseColorFromString_encode := fun _ _ buffer _ => buffer;
     loadTextureGameThreadPart := fun _ p => negb (bool_decide (p = Some O)) |}.

(** An implicit set labeled with a name that is not an identifier. *)
Definition rawLabelFeatures : FCesiumPrimitiveFeatures :=
  {| GetFeatureIDSets := [implicitSet "1 a"] |}.

Definition rawLabelDescription : FCesiumPrimitiveFeaturesDescription :=
  {| FeatureIdSets := [wanted "1 a"] |}.

Definition uint8Scalar : FCesiumMetadataValueType :=
  {| vt_Type := ECesiumMetadataType.Scalar;
     vt_ComponentType := ECesiumMetadataComponentType.Uint8;
     vt_bIsArray := false |}.

Definition liveProperty (componentType : ECesiumMetadataComponentType.t)
    (normalized : bool) : FCesiumPropertyTableProperty :=
  {| GetPropertyTablePropertyStatus := ECesiumPropertyTablePropertyStatus.Valid;
     GetValueType := {| vt_Type := ECesiumMetadataType.Scalar;
                        vt_ComponentType := componentType;
                        vt_bIsArray := false |};
     IsNormalized := normalized;
     GetOffset := MetadataValue_Components [1];
     GetScale := MetadataValue_Components [2];
     GetNoDataValue := MetadataValue_Empty;
     GetDefaultValue := MetadataValue_Empty |}.

Definition wantedProperty (n : FString)
    (componentType : ECesiumMetadataComponentType.t) (normalized : bool)
  : FCesiumPropertyTablePropertyDescription :=
  {| ptpd_Name := n;
     PropertyDetails :=
       {| pd_Type := ECesiumMetadataType.Scalar;
          pd_ComponentType := componentType;
          pd_bIsArray := false; bIsNormalized := normalized;
          bHasOffset := true; bHasScale := false;
          bHasNoDataValue := false; bHasDefaultValue := false |};
     EncodingDetails :=
       {| ed_Type := ECesiumEncodedMetadataType.Scalar;
          ed_ComponentType := ECesiumEncodedMetadataComponentType.Uint8;
          Conversion := ECesiumEncodedMetadataConversion.Coerce |} |}.

(** A table of ten rows with the properties [height] and [age]. *)
Definition exampleTable : FCesiumPropertyTable :=
  {| GetPropertyTableName := "houses"%string; getClassName := "house"%string;
     GetPropertyTableCount := 10;
     GetProperties :=
       [("height"%string, liveProperty ECesiumMetadataComponentType.Uint8 false);
        ("age"%string, liveProperty ECesiumMetadataComponentType.Uint8 false)] |}.

(** Only [height] is asked for. *)
Definition heightOnly : FCesiumPropertyTableDescription :=
  {| ptd_Name := "houses"%string;
     ptd_Properties := [wantedProperty "height" ECesiumMetadataComponentType.Uint8 false] |}.

(** A table whose one property is normalized with 16-bit components. *)
Definition uint16Table : FCesiumPropertyTable :=
  {| GetPropertyTableName := "houses"%string; getClassName := "house"%string;
     GetPropertyTableCount := 10;
     GetProperties :=
       [("height"%string, liveProperty ECesiumMetadataComponentType.Uint16 true)] |}.

Definition normalizedHeight : FCesiumPropertyTableDescription :=
  {| ptd_Name := "houses"%string;
     ptd_Properties := [wantedProperty "height" ECesiumMetadataComponentType.Uint16 true] |}.

(* ===================================================================== *)
(** ** Vocabulary of the statements *)
(* ===================================================================== *)

(** The table [t] with [props] as its live properties. *)
Definition withProperties (t : FCesiumPropertyTable)
    (props : list (FString * FCesiumPropertyTableProperty)) : FCesiumPropertyTable :=
  {| GetPropertyTableName := GetPropertyTableName t;
     getClassName := getClassName t;
     GetPropertyTableCount := GetPropertyTableCount t;
     GetProperties := props |}.

(** Two loop states that differ at most in what was logged. *)
Definition sameOutput (s1 s2 : TablePass) : Prop :=
  tp_properties s1 = tp_properties s2 /\ tp_store s1 = tp_store s2.

(** The names the loop of [encodePrimitiveFeaturesAnyThreadPart] resolves
    for the sets of a primitive, the counter starting at [counter]. *)
Fixpoint featureIdSetNames (counter : Z) (sets : list FCesiumFeatureIdSet)
  : list FString :=
  match sets with
  | [] => []
  | set :: rest =>
      (getNameForFeatureIDSet set counter).1
        :: featureIdSetNames (getNameForFeatureIDSet set counter).2 rest
  end.

(** The source image of a texture-backed feature ID set. *)
Definition sourceImage (set : FCesiumFeatureIdSet) : option ImagePtr :=
  match featureID set with
  | FeatureID_Texture t => Some (getImage (getFeatureIdTextureView t))
  | _ => None
  end.

(** How often [p] was handed to [loadTextureGameThreadPart]. *)
Definition timesRealized (p : Ptr) (ptrs : list Ptr) : nat :=
  length (filter (fun q => q = p) ptrs).

(** [st'] still holds every object of [st] at its address. *)
Definition extends (st st' : Store) : Prop :=
  (length st <= length st')%nat /\
  forall h, (h < length st)%nat -> st' !! h = st !! h.

(** The bookkeeping of the feature ID pass is consistent w.r.t. the sets
    [all] of the primitive: cached addresses are in the store, and every
    encoded set that came from a texture holds the pinned cache entry of its
    source image. *)
Definition cacheInv (all : list FCesiumFeatureIdSet) (s : FeaturesPass) : Prop :=
  (forall img h, featureIdTextureMap s !! img = Some h ->
                 (h < length (fp_store s))%nat) /\
  (forall e, e ∈ fp_result s ->
     0 <= index e /\
     exists set, all !! Z.to_nat (index e) = Some set /\
       match featureID set with
       | FeatureID_Texture tex =>
           exists t h,
             texture e = Some t /\
             featureIdTextureMap s !! getImage (getFeatureIdTextureView tex) = Some h /\
             pTexture t = Pin (fp_store s) h
       | _ => texture e = None
       end).

(** The two descriptors encoded for [sharedImageFeatures]. *)
Definition sharedImageFirst : EncodedFeatureIdSet :=
  {| name := "_FEATURE_ID_TEXTURE_0"%string; index := 0; attribute := None;
     texture := Some {| channels := [0]; pTexture := Some O;
                        textureCoordinateSetIndex := 0 |};
     propertyTableName := "table"%string; nullFeatureId := -1 |}.

Definition sharedImageSecond : EncodedFeatureIdSet :=
  {| name := "_FEATURE_ID_TEXTURE_1"%string; index := 1; attribute := None;
     texture := Some {| channels := [1]; pTexture := Some O;
                        textureCoordinateSetIndex := 0 |};
     propertyTableName := "table"%string; nullFeatureId := -1 |}.

(** The property encoded for [exampleTable] when only [height] is wanted. *)
Definition encodedHeight : EncodedPropertyTableProperty :=
  {| eptp_name := "height"%string; eptp_pTexture := Some O;
     eptp_type := ECesiumEncodedMetadataType.Scalar;
     offset := MetadataValue_Components [1]; scale := MetadataValue_Empty;
     noData := MetadataValue_Empty; defaultValue := MetadataValue_Empty |}.

(** A table whose one property has a key that is not an identifier, the
    description asking for it, and the property encoded for it. *)
Definition roofTable : FCesiumPropertyTable :=
  {| GetPropertyTableName := "houses"%string; getClassName := "house"%string;
     GetPropertyTableCount := 10;
     GetProperties :=
       [("roof color"%string, liveProperty ECesiumMetadataComponentType.Uint8 false)] |}.

Definition roofOnly : FCesiumPropertyTableDescription :=
  {| ptd_Name := "houses"%string;
     ptd_Properties :=
       [wantedProperty "roof color" ECesiumMetadataComponentType.Uint8 false] |}.

Definition encodedRoof : EncodedPropertyTableProperty :=
  {| eptp_name := "roof_color"%string; eptp_pTexture := Some O;
     eptp_type := ECesiumEncodedMetadataType.Scalar;
     offset := MetadataValue_Components [1]; scale := MetadataValue_Empty;
     noData := MetadataValue_Empty; defaultValue := MetadataValue_Empty |}.

(** An encoded table with two textures, at the addresses 0 and 1. *)
Definition twoTextureTable : EncodedPropertyTable :=
  {| ept_name := "houses"%string;
     ept_properties :=
       [encodedHeight;
        {| eptp_name := "age"%string; eptp_pTexture := Some 1%nat;
           eptp_type := ECesiumEncodedMetadataType.Scalar;
           offset := MetadataValue_Empty; scale := MetadataValue_Empty;
           noData := MetadataValue_Empty; defaultValue := MetadataValue_Empty |}] |}.

(** Only the first of the two texture sets is asked for. *)
Definition firstTextureOnly : FCesiumPrimitiveFeaturesDescription :=
  {| FeatureIdSets := [wanted "_FEATURE_ID_TEXTURE_0"] |}.

(* ===================================================================== *)
(** ** Material names *)
(* ===================================================================== *)

(** Modelled from the spec: [MaterialPropertyTablePrefix] is declared in the
    header, outside this file; the spec gives [PTABLE_<tableName>_<propertyName>]
    and the comment in the function the example [PTABLE_houses_roofColor]. *)
Definition MaterialPropertyTablePrefix : FString := "PTABLE_"%string.

Definition getMaterialNameForPropertyTableProperty
    (propertyTableName propertyName : FString) : FString :=
  ((MaterialPropertyTablePrefix +:+ propertyTableName) +:+ "_" +:+ propertyName)%string.

(* ===================================================================== *)
(** ** Vocabulary of the further statements *)
(* ===================================================================== *)

(** What an encoded set holds, by the kind of the live set it came from. *)
Definition descriptorShape (set : FCesiumFeatureIdSet) (e : EncodedFeatureIdSet) : Prop :=
  match featureID set with
  | FeatureID_None => False
  | FeatureID_Attribute a =>
      GetFeatureIDAttributeStatus a = ECesiumFeatureIdAttributeStatus.Valid /\
      attribute e = Some (getAttributeIndex a) /\ texture e = None
  | FeatureID_Texture tex =>
      GetFeatureIDTextureStatus tex = ECesiumFeatureIdTextureStatus.Valid /\
      attribute e = None /\
      exists p,
        texture e =
          Some {| channels := getChannels (getFeatureIdTextureView tex);
                  pTexture := p;
                  textureCoordinateSetIndex :=
                    getTexCoordSetIndex (getFeatureIdTextureView tex) |}
  | FeatureID_Implicit => attribute e = None /\ texture e = None
  end.

(** A texture object as the any-thread part leaves it when the allocation
    succeeded: legacy source, clamped nearest sampling, platform data. *)
Definition stagedTexture (r : LoadedTextureResult) : Prop :=
  textureSource r = LegacyTextureSource /\
  addressX r = TextureAddress.TA_Clamp /\
  addressY r = TextureAddress.TA_Clamp /\
  textureFilter r = TextureFilter.TF_Nearest /\
  is_Some (pTextureData r).

(** The last mip of [r] is a copy of the image of some texture set in [all]
    whose image has the identity [img]. *)
Definition holdsImageOf (all : list FCesiumFeatureIdSet) (img : ImagePtr)
    (r : LoadedTextureResult) : Prop :=
  exists set tex d,
    set ∈ all /\ featureID set = FeatureID_Texture tex /\
    getImage (getFeatureIdTextureView tex) = img /\
    pTextureData r = Some d /\
    last (Mips d) =
      Some {| mip_SizeX := width (image (getFeatureIdTextureView tex));
              mip_SizeY := height (image (getFeatureIdTextureView tex));
              BulkData := pixelData (image (getFeatureIdTextureView tex)) |}.

(** The engine never fails to allocate a texture backing. *)
Definition allocationNeverFails (E : Engine) : Prop :=
  forall w h f, @createTexturePlatformData E w h f <> None.

(** A set without label whose type is Texture: its name is generated from
    the counter. *)
Definition unlabeledTexture (set : FCesiumFeatureIdSet) : Prop :=
  GetLabel set = EmptyString /\
  GetFeatureIDSetType set = ECesiumFeatureIdSetType.Texture.

(** [FeatureIdTextureCounter] after the names of [sets] were resolved. *)
Definition counterAfter (counter : Z) (sets : list FCesiumFeatureIdSet) : Z :=
  fold_left (fun c set => (getNameForFeatureIDSet set c).2) sets counter.

(** Every cached address was allocated by this pass, and an object still
    alive at a cached address is staged and holds the image it is cached
    for. *)
Definition cacheObjects (all : list FCesiumFeatureIdSet) (store0 : Store)
    (s : FeaturesPass) : Prop :=
  forall img h, featureIdTextureMap s !! img = Some h ->
    (length store0 <= h)%nat /\
    forall r, fp_store s !! h = Some (Some r) ->
              stagedTexture r /\ holdsImageOf all img r.

(** Every cached address holds a live object. *)
Definition cacheAlive (s : FeaturesPass) : Prop :=
  forall img h, featureIdTextureMap s !! img = Some h ->
    exists r, fp_store s !! h = Some (Some r).

Definition onlyWarnings (l : Log) : Prop :=
  forall entry, entry ∈ l -> entry.1 = ELogVerbosity.Warning.

(** The optional values of [e] are the live ones where the description
    flags them and empty elsewhere. *)
Definition valuesAsFlagged (d : FCesiumPropertyTablePropertyDescription)
    (property : FCesiumPropertyTableProperty) (e : EncodedPropertyTableProperty) : Prop :=
  offset e = (if bHasOffset (PropertyDetails d)
              then GetOffset property else MetadataValue_Empty) /\
  scale e = (if bHasScale (PropertyDetails d)
             then GetScale property else MetadataValue_Empty) /\
  noData e = (if bHasNoDataValue (PropertyDetails d)
              then GetNoDataValue property else MetadataValue_Empty) /\
  defaultValue e = (if bHasDefaultValue (PropertyDetails d)
                    then GetDefaultValue property else MetadataValue_Empty).

Definition noValues (e : EncodedPropertyTableProperty) : Prop :=
  offset e = MetadataValue_Empty /\ scale e = MetadataValue_Empty /\
  noData e = MetadataValue_Empty /\ defaultValue e = MetadataValue_Empty.

(** [e] is what the table encoder makes of the live property [pair] (its
    key and accessor) of a table of [count] rows. *)
Definition encodedFrom `{Engine}
    (descs : list FCesiumPropertyTablePropertyDescription) (count : Z)
    (pair : FString * FCesiumPropertyTableProperty)
    (e : EncodedPropertyTableProperty) : Prop :=
  exists d,
    FindByPredicate (fun x => FString_eq pair.1 (ptpd_Name x)) descs = Some d /\
    ptpd_Name d = pair.1 /\
    Conversion (EncodingDetails d) <> ECesiumEncodedMetadataConversion.None /\
    (isValidPropertyTablePropertyDescription d pair.2).1 = true /\
    (Conversion (EncodingDetails d) = ECesiumEncodedMetadataConversion.Coerce ->
     Coerce_canEncode d = true) /\
    (Conversion (EncodingDetails d) = ECesiumEncodedMetadataConversion.ParseColorFromString ->
     ParseColorFromString_canEncode d = true) /\
    format (getPixelFormat (EncodingDetails d)) <> EPixelFormat.PF_Unknown /\
    eptp_name e = createHlslSafeName pair.1 /\
    eptp_type e = ed_Type (EncodingDetails d) /\
    (eptp_pTexture e = None <->
     GetPropertyTablePropertyStatus pair.2 <> ECesiumPropertyTablePropertyStatus.Valid) /\
    (valuesAsFlagged d pair.2 e \/
     (noValues e /\
      createTexturePlatformData (textureDimension count) (textureDimension count)
        (format (getPixelFormat (EncodingDetails d))) = None)).

(** A texture object as the table encoder leaves it: legacy source, clamped
    nearest sampling and, when it has platform data, a last mip of
    [dimension] x [dimension]. *)
Definition tableTexture (dimension : Z) (r : LoadedTextureResult) : Prop :=
  textureSource r = LegacyTextureSource /\
  addressX r = TextureAddress.TA_Clamp /\
  addressY r = TextureAddress.TA_Clamp /\
  textureFilter r = TextureFilter.TF_Nearest /\
  forall pd, pTextureData r = Some pd ->
    exists mip, last (Mips pd) = Some mip /\
                mip_SizeX mip = dimension /\ mip_SizeY mip = dimension.

(* ===================================================================== *)
(** ** Teardown *)
(* ===================================================================== *)

(** The [pTexture] member of the [LoadedTextureResult] objects (the realized
    engine texture, a weak object pointer), kept per address of the object:
    an address is in the map while its texture is valid.  Beside it, the
    textures handed to [CesiumLifetime::destroy] so far, in order. *)
Abbreviation TeardownState := (gmap nat nat * list nat)%type.

(** [if (p->pTexture.IsValid()) { CesiumLifetime::destroy(p->pTexture.Get());
    p->pTexture.Reset(); }].  The pointer [p] is dereferenced without a
    check: a null [p] is a fault, [None]. *)
Definition destroyTexture (p : Ptr) (st : TeardownState) : option TeardownState :=
  match p with
  | None => None
  | Some a =>
      match st.1 !! a with
      | Some u => Some (delete a st.1, st.2 ++ [u])
      | None => Some st
      end
  end.

Definition destroyEncodedPrimitiveFeatures_body (st : option TeardownState)
    (encodedFeatureIdSet : EncodedFeatureIdSet) : option TeardownState :=
  match st with
  | None => None
  | Some st =>
      match texture encodedFeatureIdSet with
      | None => Some st
      | Some encodedFeatureIdTexture =>
          destroyTexture (pTexture encodedFeatureIdTexture) st
      end
  end.

Definition destroyEncodedPrimitiveFeatures (encodedFeatures : EncodedPrimitiveFeatures)
    (st : TeardownState) : option TeardownState :=
  fold_left destroyEncodedPrimitiveFeatures_body (featureIdSets encodedFeatures) (Some st).

(** The body is commented out in the source. *)
Definition destroyEncodedPrimitiveMetadata (encodedPrimitive : EncodedPrimitiveMetadata)
    (st : TeardownState) : option TeardownState :=
  Some st.

(** [if (encodedProperty.pTexture && encodedProperty.pTexture->pTexture.IsValid())] *)
Definition destroyEncodedModelMetadata_property (st : option TeardownState)
    (encodedProperty : EncodedPropertyTableProperty) : option TeardownState :=
  match st with
  | None => None
  | Some st =>
      match eptp_pTexture encodedProperty with
      | None => Some st
      | Some a => destroyTexture (Some a) st
      end
  end.

Definition destroyEncodedModelMetadata_table (st : option TeardownState)
    (propertyTable : EncodedPropertyTable) : option TeardownState :=
  fold_left destroyEncodedModelMetadata_property (ept_properties propertyTable) st.

Definition destroyEncodedModelMetadata_textureProperty (st : option TeardownState)
    (encodedPropertyTextureProperty : EncodedPropertyTextureProperty)
  : option TeardownState :=
  match st with
  | None => None
  | Some st => destroyTexture (eptxp_pTexture encodedPropertyTextureProperty) st
  end.

Definition destroyEncodedModelMetadata_texture (st : option TeardownState)
    (encodedPropertyTextureIt : EncodedPropertyTexture) : option TeardownState :=
  fold_left destroyEncodedModelMetadata_textureProperty
    (eptx_properties encodedPropertyTextureIt) st.

Definition destroyEncodedModelMetadata (encodedMetadata : EncodedModelMetadata)
    (st : TeardownState) : option TeardownState :=
  fold_left destroyEncodedModelMetadata_texture (propertyTextures encodedMetadata)
    (fold_left destroyEncodedModelMetadata_table (propertyTables encodedMetadata)
       (Some st)).

(** [destroyTexture] along a list of pointers. *)
Definition destroyAll (ptrs : list Ptr) (st : option TeardownState) : option TeardownState :=
  fold_left (fun acc p => match acc with
                          | Some st => destroyTexture p st
                          | None => None
                          end) ptrs st.

(** The valid textures of [textures] found by going through [ptrs] and
    taking each pointer the first time it occurs. *)
Definition texturesOf (textures : gmap nat nat) (seen ptrs : list Ptr) : list nat :=
  omap (fun p => match p with Some a => textures !! a | None => None end)
       (firstOccurrences seen ptrs).

(** [textures] without the textures at the addresses in [ptrs]. *)
Definition without (textures : gmap nat nat) (ptrs : list Ptr) : gmap nat nat :=
  filter (fun entry => Some entry.1 ∉ ptrs) textures.


(* ===================================================================== *)
(** * Properties *)
(* ===================================================================== *)

(** ** Strings *)

Section StringFacts.

Lemma append_cons (c : ascii) (a b : FString) :
  String c a +:+ b = String c (a +:+ b).
Proof. reflexivity. Qed.

Lemma length_append_string (a b : FString) :
  String.length (a +:+ b) = (String.length a + String.length b)%nat.
Proof.
  induction a as [|c a IH]; [reflexivity|].
  rewrite append_cons. simpl. now rewrite IH.
Qed.

Lemma get_append_here (pre : FString) (c : ascii) (rest : FString) :
  String.get (String.length pre) (pre +:+ String c rest) = Some c.
Proof.
  induction pre as [|x pre IH]; [reflexivity|].
  rewrite append_cons. simpl. exact IH.
Qed.

Lemma setChar_append_here (pre : FString) (c x : ascii) (rest : FString) :
  setChar (String.length pre) x (pre +:+ String c rest) = pre +:+ String x rest.
Proof.
  induction pre as [|y pre IH]; [reflexivity|].
  rewrite !append_cons. simpl. now rewrite IH.
Qed.

Lemma append_snoc (pre : FString) (c : ascii) (rest : FString) :
  pre +:+ String c rest = (pre +:+ String c EmptyString) +:+ rest.
Proof.
  induction pre as [|y pre IH]; [reflexivity|].
  rewrite !append_cons. now rewrite IH.
Qed.

Lemma length_snoc (pre : FString) (c : ascii) :
  String.length (pre +:+ String c EmptyString) = S (String.length pre).
Proof. rewrite length_append_string. simpl. lia. Qed.

End StringFacts.

(** ** createHlslSafeName *)

(** The table lookups agree with the character classes. *)
Lemma FindChar_head_class (c : ascii) :
  isHeadChar c = match FindChar identifierHeadChar c with Some _ => true | None => false end.
Proof.
  destruct c as [[] [] [] [] [] [] [] []]; vm_compute; reflexivity.
Qed.

Lemma FindChar_tail_class (c : ascii) :
  isTailChar c = match FindChar identifierTailChar c with Some _ => true | None => false end.
Proof.
  destruct c as [[] [] [] [] [] [] [] []]; vm_compute; reflexivity.
Qed.

Lemma sanitizeTailChar_ok (c : ascii) : isTailChar (sanitizeTailChar c) = true.
Proof.
  unfold sanitizeTailChar. pose proof (FindChar_tail_class c) as Hc.
  destruct (FindChar identifierTailChar c); [exact Hc | reflexivity].
Qed.

(** With enough fuel the loop rewrites exactly the characters from [i] on. *)
Lemma createHlslSafeName_loop_spec (rest pre : FString) (fuel : nat) :
  (String.length rest <= fuel)%nat ->
  createHlslSafeName_loop fuel (String.length pre) (pre +:+ rest)
  = pre +:+ map_chars sanitizeTailChar rest.
Proof.
  revert pre fuel.
  induction rest as [|c rest IH]; intros pre fuel Hfuel.
  - simpl. destruct fuel as [|fuel]; simpl; [reflexivity|].
    unfold Len. rewrite length_append_string. simpl.
    replace (String.length pre <? String.length pre + 0)%nat with false
      by (symmetry; apply Nat.ltb_ge; lia).
    reflexivity.
  - destruct fuel as [|fuel]; simpl in Hfuel; [lia|].
    cbn [createHlslSafeName_loop]. unfold Len.
    rewrite length_append_string. simpl String.length.
    replace (String.length pre <? String.length pre + S (String.length rest))%nat
      with true by (symmetry; apply Nat.ltb_lt; lia).
    rewrite get_append_here.
    assert (Hnext :
      createHlslSafeName_loop fuel (S (String.length pre))
        (pre +:+ String (sanitizeTailChar c) rest)
      = pre +:+ String (sanitizeTailChar c) (map_chars sanitizeTailChar rest)).
    { rewrite (append_snoc pre (sanitizeTailChar c) rest).
      rewrite <- (length_snoc pre (sanitizeTailChar c)).
      rewrite IH by lia.
      now rewrite <- append_snoc. }
    unfold sanitizeTailChar in Hnext at 1 2. simpl map_chars.
    unfold sanitizeTailChar at 1.
    destruct (FindChar identifierTailChar c).
    + exact Hnext.
    + rewrite setChar_append_here. exact Hnext.
Qed.

(** [createHlslSafeName], one case per shape of the raw name. *)
Lemma createHlslSafeName_cases (rawName : FString) :
  createHlslSafeName rawName =
  match rawName with
  | EmptyString => "_"%string
  | String c rest =>
      match FindChar identifierHeadChar c with
      | Some _ => String c (map_chars sanitizeTailChar rest)
      | None => String "_"%char (map_chars sanitizeTailChar rawName)
      end
  end.
Proof.
  destruct rawName as [|c rest]; [reflexivity|].
  unfold createHlslSafeName. cbn [Len String.length Nat.eqb String.get].
  destruct (FindChar identifierHeadChar c).
  - change (String c rest) with (String c EmptyString +:+ rest) at 2.
    change 1%nat with (String.length (String c EmptyString)).
    unfold Len. rewrite createHlslSafeName_loop_spec by (simpl; lia).
    reflexivity.
  - change ("_" +:+ String c rest)%string
      with (String "_"%char EmptyString +:+ String c rest).
    change 1%nat with (String.length (String "_"%char EmptyString)).
    unfold Len. rewrite createHlslSafeName_loop_spec.
    + reflexivity.
    + rewrite length_append_string. simpl. lia.
Qed.

Lemma all_chars_map_sanitize (s : FString) :
  all_chars isTailChar (map_chars sanitizeTailChar s) = true.
Proof.
  induction s as [|c s IH]; simpl; [reflexivity|].
  now rewrite sanitizeTailChar_ok, IH.
Qed.

Lemma createHlslSafeName_safe (rawName : FString) :
  isShaderSafe (createHlslSafeName rawName) = true.
Proof.
  rewrite createHlslSafeName_cases.
  destruct rawName as [|c rest]; [reflexivity|].
  pose proof (FindChar_head_class c) as Hc.
  destruct (FindChar identifierHeadChar c).
  - simpl. now rewrite Hc, all_chars_map_sanitize.
  - cbn [isShaderSafe]. now rewrite all_chars_map_sanitize.
Qed.

Lemma whitespace_not_identifier (c : ascii) :
  isWhitespace c = true ->
  FindChar identifierHeadChar c = None /\ FindChar identifierTailChar c = None.
Proof.
  destruct c as [[] [] [] [] [] [] [] []]; vm_compute; intros Hw;
    try discriminate Hw; split; reflexivity.
Qed.

Lemma map_sanitize_whitespace (s : FString) :
  all_chars isWhitespace s = true ->
  map_chars sanitizeTailChar s = repeat_char "_"%char (String.length s).
Proof.
  induction s as [|c s IH]; simpl; [reflexivity|].
  intros Hall. apply andb_prop in Hall as [Hc Hs].
  apply whitespace_not_identifier in Hc as [_ Htail].
  unfold sanitizeTailChar at 1. rewrite Htail. now rewrite IH.
Qed.

(** C5 (as stated in the claim, refuted): the one-character name made of a
    single space is a purely-whitespace raw name, yet [createHlslSafeName]
    does not return ["_"] for it; it returns two underscores. *)
Lemma C5_space_is_not_single_underscore :
  all_chars isWhitespace " "%string = true /\
  createHlslSafeName " "%string = "__"%string /\
  createHlslSafeName " "%string <> "_"%string.
Proof. repeat split. intros H. discriminate H. Qed.

(** C5 (amended): for the empty raw name [createHlslSafeName] returns ["_"];
    for a raw name made of k >= 1 whitespace characters it returns k + 1
    underscores (one prefixed, one for each character replaced). *)
Theorem C5_createHlslSafeName_whitespace (rawName : FString) :
  all_chars isWhitespace rawName = true ->
  createHlslSafeName rawName =
    match rawName with
    | EmptyString => "_"%string
    | String _ _ => repeat_char "_"%char (S (String.length rawName))
    end.
Proof.
  intros Hall. rewrite createHlslSafeName_cases.
  destruct rawName as [|c rest]; [reflexivity|].
  pose proof Hall as Hall'. simpl in Hall'.
  apply andb_prop in Hall' as [Hc _].
  apply whitespace_not_identifier in Hc as [Hhead _].
  rewrite Hhead. now rewrite map_sanitize_whitespace.
Qed.

Lemma C5_createHlslSafeName_whitespace_witness :
  all_chars isWhitespace "  "%string = true /\
  createHlslSafeName "  "%string = "___"%string.
Proof.
  split; [reflexivity|].
  exact (C5_createHlslSafeName_whitespace "  "%string eq_refl).
Defined.

(** ** Texture dimension *)

Lemma wrap64_small (z : Z) : - 2 ^ 63 <= z < 2 ^ 63 -> wrap64 z = z.
Proof.
  intros Hz. unfold wrap64.
  rewrite Z.mod_small by lia. lia.
Qed.

Lemma wrap32_small (z : Z) : - 2 ^ 31 <= z < 2 ^ 31 -> wrap32 z = z.
Proof.
  intros Hz. unfold wrap32.
  rewrite Z.mod_small by lia. lia.
Qed.

Lemma square_lt_nonneg (a b : Z) : 0 <= a -> 0 <= b -> a * a < b * b -> a < b.
Proof. intros Ha Hb H. nia. Qed.

(** Rounding [sqrt n * P] to the nearest integer and truncating the
    quotient by [P] gives the integer square root, as long as the scale [P]
    exceeds the root. *)
Lemma rounded_sqrt_floor (n s P q : Z) :
  0 < P -> 0 <= s -> s + 1 <= P ->
  s * s <= n < (s + 1) * (s + 1) ->
  0 <= q -> q * q <= n * (P * P) < (q + 1) * (q + 1) ->
  (if q <? n * (P * P) - q * q then q + 1 else q) / P = s.
Proof.
  intros HP Hs HsP Hn Hq Hsq.
  assert (Hlo : s * P <= q).
  { assert (s * P < q + 1); [|lia].
    apply square_lt_nonneg; [nia | lia |].
    assert ((s * P) * (s * P) = s * s * (P * P)) as -> by ring.
    assert (s * s * (P * P) <= n * (P * P)) by nia. lia. }
  assert (Hhi : q < (s + 1) * P).
  { apply square_lt_nonneg; [lia | nia |].
    assert (((s + 1) * P) * ((s + 1) * P) = (s + 1) * (s + 1) * (P * P)) as -> by ring.
    assert ((n + 1) * (P * P) <= (s + 1) * (s + 1) * (P * P)) by nia. nia. }
  assert (Hm : s * P <= (if q <? n * (P * P) - q * q then q + 1 else q) < (s + 1) * P).
  { destruct (Z.ltb_spec q (n * (P * P) - q * q)) as [Hup|Hdown]; [|lia].
    split; [lia|].
    destruct (Z.eq_dec (q + 1) ((s + 1) * P)) as [Heq|]; [exfalso|lia].
    assert (Hq' : q = (s + 1) * P - 1) by lia.
    assert (Hn' : n * (P * P) <= ((s + 1) * (s + 1) - 1) * (P * P)) by nia.
    assert ((s + 1) * P <= P * P) by nia.
    rewrite Hq' in Hup. nia. }
  symmetry.
  apply (Z.div_unique _ _ _
           ((if q <? n * (P * P) - q * q then q + 1 else q) - s * P)); lia.
Qed.

(** Up to 2^52 rows the round trip through [double] is exact: the count is
    representable, and the rounded root never reaches the next integer. *)
Lemma glm_sqrt_exact (n : Z) : 0 <= n <= 2 ^ 52 -> glm_sqrt n = Z.sqrt n.
Proof.
  intros [Hlo Hhi].
  destruct (Z.eq_dec n (2 ^ 52)) as [->|Hne]; [vm_compute; reflexivity|].
  unfold glm_sqrt, int64_to_double.
  destruct (Z.ltb_spec n (2 ^ 53)) as [_|Hbig]; [|lia].
  unfold double_sqrt_to_int64.
  destruct (Z.leb_spec n 0) as [Hz|Hpos].
  { assert (n = 0) as -> by lia. reflexivity. }
  cbv zeta.
  pose proof (Z.sqrt_spec n Hlo) as Hs. cbv zeta in Hs.
  pose proof (Z.sqrt_nonneg n) as Hs0.
  set (s := Z.sqrt n) in *.
  assert (Hs1 : 1 <= s).
  { destruct (Z_lt_ge_dec s 1) as [Hlt|]; [exfalso|lia].
    assert (Hzero : s = 0) by lia. rewrite Hzero in Hs. lia. }
  assert (Hs26 : s < 2 ^ 26).
  { destruct (Z_lt_ge_dec s (2 ^ 26)) as [|Hge]; [assumption|exfalso].
    assert (2 ^ 26 * 2 ^ 26 <= s * s) by nia. lia. }
  pose proof (Z.log2_spec s ltac:(lia)) as Hk.
  pose proof (Z.log2_nonneg s) as Hk0.
  set (k := Z.log2 s) in *.
  assert (Hk25 : k <= 25).
  { destruct (Z_le_gt_dec k 25) as [|Hgt]; [assumption|exfalso].
    assert (2 ^ 26 <= 2 ^ k) by (apply Z.pow_le_mono_r; lia). lia. }
  assert (H4 : 4 ^ (52 - k) = 2 ^ (52 - k) * 2 ^ (52 - k)).
  { change 4 with (2 * 2). apply Z.pow_mul_l. }
  rewrite H4.
  assert (HP : 0 < 2 ^ (52 - k)) by (apply Z.pow_pos_nonneg; lia).
  assert (HsP : s + 1 <= 2 ^ (52 - k)).
  { assert (2 ^ Z.succ k <= 2 ^ (52 - k)) by (apply Z.pow_le_mono_r; lia). lia. }
  set (P := 2 ^ (52 - k)) in *.
  assert (Hscaled : 0 <= n * (P * P)) by nia.
  pose proof (Z.sqrt_spec _ Hscaled) as Hq. cbv zeta in Hq.
  pose proof (Z.sqrt_nonneg (n * (P * P))) as Hq0.
  apply rounded_sqrt_floor; lia.
Qed.

Lemma glm_sqrt_bounds (n : Z) :
  0 <= n <= 2 ^ 52 ->
  0 <= glm_sqrt n < 2 ^ 32 /\
  glm_sqrt n * glm_sqrt n <= n < (glm_sqrt n + 1) * (glm_sqrt n + 1).
Proof.
  intros Hn. rewrite (glm_sqrt_exact n Hn). destruct Hn as [Hlo Hhi].
  pose proof (Z.sqrt_spec n Hlo) as Hs. cbv zeta in Hs.
  pose proof (Z.sqrt_nonneg n) as Hnn.
  replace (Z.succ (Z.sqrt n)) with (Z.sqrt n + 1) in Hs by lia.
  split; [|lia]. split; [lia|].
  destruct (Z_lt_ge_dec (Z.sqrt n) (2 ^ 32)) as [|Hbig]; [assumption|].
  exfalso. assert (2 ^ 32 * 2 ^ 32 <= Z.sqrt n * Z.sqrt n) by nia. lia.
Qed.

(** The dimension in closed form: no intermediate value wraps. *)
Lemma textureDimension_cases (n : Z) :
  0 <= n <= 2 ^ 52 ->
  textureDimension n =
    if glm_sqrt n * glm_sqrt n =? n then glm_sqrt n else glm_sqrt n + 1.
Proof.
  intros Hn. destruct (glm_sqrt_bounds n Hn) as [Hs Hsq].
  unfold textureDimension. cbv zeta.
  rewrite (wrap64_small (glm_sqrt n * glm_sqrt n)) by nia.
  rewrite (wrap64_small (glm_sqrt n + 1)) by lia.
  reflexivity.
Qed.

(** C2 (as stated in the claim, refuted): for a table of zero rows the
    computed side length is 0, and (0 - 1) * (0 - 1) = 1 is not below 0. *)
Lemma C2_zero_rows :
  textureDimension 0 = 0 /\
  ~ (textureDimension 0 * textureDimension 0 >= 0 /\
     (textureDimension 0 - 1) * (textureDimension 0 - 1) < 0).
Proof. split; [reflexivity|]. intros [_ H]. vm_compute in H. discriminate H. Qed.

(** C2 (amended): for every row count n with 1 <= n <= 2^52 the side
    length d computed by [encodePropertyTableAnyThreadPart] satisfies
    d*d >= n and (d-1)*(d-1) < n; for n = 0 it is d = 0, so d*d >= n still
    holds but (d-1)*(d-1) < n does not.  Up to 2^52 rows the square root
    taken in double precision is the exact one. *)
Theorem C2_textureDimension_smallest_square (n : Z) :
  0 <= n <= 2 ^ 52 ->
  let d := textureDimension n in
  d * d >= n /\
  (1 <= n -> (d - 1) * (d - 1) < n) /\
  (n = 0 -> d = 0).
Proof.
  intros Hn d. subst d. rewrite textureDimension_cases by assumption.
  destruct (glm_sqrt_bounds n Hn) as [Hs Hsq].
  destruct (Z.eqb_spec (glm_sqrt n * glm_sqrt n) n) as [Heq|Hne].
  - repeat split; [lia | intros H1; nia | intros H0; nia].
  - repeat split; [nia | intros H1; nia | intros H0; nia].
Qed.

Lemma C2_textureDimension_smallest_square_witness :
  textureDimension 10 = 4 /\
  4 * 4 >= 10 /\ (4 - 1) * (4 - 1) < 10.
Proof.
  split; [reflexivity|].
  assert (Hn : 0 <= 10 <= 2 ^ 52) by lia.
  destruct (C2_textureDimension_smallest_square 10 Hn) as (Hge & Hlt & _).
  split; [exact Hge | apply Hlt; lia].
Defined.

(** Beyond 2^52 rows the bound is lost.  The count 67108865 * 67108865 - 1
    has a root so close below 67108865 that double precision rounds it up
    to 67108865; the square test then fails and the side becomes 67108866,
    although 67108865 would hold every row. *)
Example textureDimension_beyond_double_precision :
  let n := 67108865 * 67108865 - 1 in
  n = 4503599761588224 /\
  glm_sqrt n = 67108865 /\ Z.sqrt n = 67108864 /\
  textureDimension n = 67108866 /\
  (textureDimension n - 1) * (textureDimension n - 1) = n + 1.
Proof. vm_compute. repeat split. Qed.

(** ** Name resolution *)

(** C10: [getNameForFeatureIDSet] changes [FeatureIdTextureCounter] only for
    a set without label whose type is Texture, and then adds exactly 1; for
    every other set the counter comes back unchanged. *)
Theorem C10_counter_frame (featureIDSet : FCesiumFeatureIdSet) (counter : Z) :
  INT32_MIN <= counter < INT32_MAX ->
  (getNameForFeatureIDSet featureIDSet counter).2 =
    if IsEmpty (GetLabel featureIDSet) &&
       bool_decide (GetFeatureIDSetType featureIDSet = ECesiumFeatureIdSetType.Texture)
    then counter + 1
    else counter.
Proof.
  intros Hc. unfold INT32_MIN, INT32_MAX in Hc.
  unfold getNameForFeatureIDSet, GetFeatureIDSetType, GetAsFeatureIDAttribute.
  destruct (IsEmpty (GetLabel featureIDSet)); simpl; [|reflexivity].
  destruct (featureID featureIDSet) as [|a|t|]; simpl; try reflexivity.
  - destruct (bool_decide _); reflexivity.
  - apply wrap32_small. lia.
Qed.

Lemma C10_counter_frame_witness :
  (getNameForFeatureIDSet (textureSet "" 7%nat 0) 3).2 = 4 /\
  (getNameForFeatureIDSet (textureSet "ids" 7%nat 0) 3).2 = 3 /\
  (getNameForFeatureIDSet (implicitSet "") 3).2 = 3.
Proof.
  assert (H3 : INT32_MIN <= 3 < INT32_MAX) by (unfold INT32_MIN, INT32_MAX; lia).
  split; [|split].
  - exact (C10_counter_frame (textureSet "" 7%nat 0) 3 H3).
  - exact (C10_counter_frame (textureSet "ids" 7%nat 0) 3 H3).
  - exact (C10_counter_frame (implicitSet "") 3 H3).
Defined.

(** ** Property textures *)

Lemma fold_textureBody_nil (l : list FCesiumPropertyTexture) acc :
  fold_left encodeModelMetadata_textureBody l acc = acc.
Proof. revert acc. induction l as [|x l IH]; intros acc; simpl; [reflexivity | apply IH]. Qed.

(** C9: the property-texture path produces nothing:
    [encodePropertyTextureAnyThreadPart] returns a property texture without
    properties (and leaves the cache as it was), and
    [encodeModelMetadataAnyThreadPart] returns no encoded property texture,
    whatever live property textures the model has. *)
Theorem C9_property_textures_empty :
  (forall featureTexturePropertyMap propertyTextureDescription
          featureTextureName propertyTexture,
      let r := encodePropertyTextureAnyThreadPart featureTexturePropertyMap
                 propertyTextureDescription featureTextureName propertyTexture in
      eptx_properties r.1 = [] /\ r.2 = featureTexturePropertyMap) /\
  (forall (E : Engine) metadataDescription metadata store,
      propertyTextures
        (encodeModelMetadataAnyThreadPart metadataDescription metadata store).1.1
      = []).
Proof.
  split.
  - intros. split; reflexivity.
  - intros. unfold encodeModelMetadataAnyThreadPart. simpl.
    apply fold_textureBody_nil.
Qed.

(** ** Property tables *)

Ltac table_body_cases :=
  unfold encodePropertyTable_body, tp_warn, MakeShared;
  repeat (case_match; simpl in *; simplify_eq; try done).

Section PropertyTableFacts.
Context `{E : Engine}.

Lemma fold_left_invariant {A B} (P : A -> Prop) (f : A -> B -> A) (l : list B) (a : A) :
  P a -> (forall a b, P a -> P (f a b)) -> P (fold_left f l a).
Proof.
  revert a. induction l as [|x l IH]; intros a Ha Hstep; simpl; [assumption|].
  apply IH; [apply Hstep; assumption | assumption].
Qed.

Lemma FindByPredicate_none {A} (p : A -> bool) (l : list A) :
  (forall x, x ∈ l -> p x = false) -> FindByPredicate p l = None.
Proof.
  unfold FindByPredicate. induction l as [|x l IH]; intros Hall; simpl; [reflexivity|].
  rewrite (Hall x) by (left). apply IH. intros y Hy. apply Hall. now right.
Qed.

Lemma FindByPredicate_some {A} (p : A -> bool) (l : list A) (x : A) :
  FindByPredicate p l = Some x -> x ∈ l /\ p x = true.
Proof.
  unfold FindByPredicate. intros H. apply find_some in H as [Hin Hp].
  split; [now apply list_elem_of_In | assumption].
Qed.

Lemma FString_eq_false (a b : FString) : a <> b -> FString_eq a b = false.
Proof. intros H. unfold FString_eq. now apply String.eqb_neq. Qed.

Lemma FString_eq_true (a b : FString) : FString_eq a b = true -> a = b.
Proof. unfold FString_eq. now apply String.eqb_eq. Qed.

(** An iteration for a property nobody asked for changes nothing at all. *)
Lemma table_body_not_wanted desc n s key property :
  (forall d, d ∈ ptd_Properties desc -> ptpd_Name d <> key) ->
  encodePropertyTable_body desc n s (key, property) = s.
Proof.
  intros Hno. unfold encodePropertyTable_body. simpl.
  rewrite FindByPredicate_none; [reflexivity|].
  intros d Hd. apply FString_eq_false. intros Heq. now apply (Hno d Hd).
Qed.

(** An iteration whose description fails validation adds no property and
    allocates nothing. *)
Lemma table_body_invalid desc n s key property d l :
  FindByPredicate (fun e => FString_eq key (ptpd_Name e)) (ptd_Properties desc) = Some d ->
  isValidPropertyTablePropertyDescription d property = (false, l) ->
  sameOutput (encodePropertyTable_body desc n s (key, property)) s.
Proof.
  intros Hfind Hvalid. unfold encodePropertyTable_body. simpl.
  rewrite Hfind. destruct (bool_decide _); [split; reflexivity|].
  rewrite Hvalid. simpl. split; reflexivity.
Qed.

(** What is logged never influences what is encoded. *)
Lemma table_body_sameOutput desc n s1 s2 pair :
  sameOutput s1 s2 ->
  sameOutput (encodePropertyTable_body desc n s1 pair)
             (encodePropertyTable_body desc n s2 pair).
Proof.
  intros [Hp Hs]. destruct s1 as [p1 st1 l1], s2 as [p2 st2 l2].
  simpl in Hp, Hs. subst p2 st2. unfold sameOutput.
  table_body_cases.
Qed.

Lemma table_fold_sameOutput desc n l s1 s2 :
  sameOutput s1 s2 ->
  sameOutput (fold_left (encodePropertyTable_body desc n) l s1)
             (fold_left (encodePropertyTable_body desc n) l s2).
Proof.
  revert s1 s2. induction l as [|x l IH]; intros s1 s2 Hs; simpl; [assumption|].
  apply IH. now apply table_body_sameOutput.
Qed.

(** Every property an iteration adds carries a sanitized name. *)
Lemma table_body_names desc n s pair p :
  p ∈ tp_properties (encodePropertyTable_body desc n s pair) ->
  p ∈ tp_properties s \/ isShaderSafe (eptp_name p) = true.
Proof.
  unfold encodePropertyTable_body, tp_warn, MakeShared.
  repeat (case_match; simpl in *; simplify_eq; try (intros; left; assumption));
    intros [Hin | Hin%list_elem_of_singleton]%elem_of_app;
    try (left; assumption); right; subst p; apply createHlslSafeName_safe.
Qed.

Lemma table_pass_names desc table store p :
  p ∈ tp_properties (encodePropertyTable_pass desc table store) ->
  isShaderSafe (eptp_name p) = true.
Proof.
  unfold encodePropertyTable_pass.
  apply (fold_left_invariant
           (fun s => p ∈ tp_properties s -> isShaderSafe (eptp_name p) = true)).
  - simpl. intros H. now apply not_elem_of_nil in H.
  - intros s pair IH Hin. apply table_body_names in Hin as [Hin | Hsafe]; auto.
Qed.

End PropertyTableFacts.

(** ** The object store *)

Section StoreFacts.

Lemma extends_refl (st : Store) : extends st st.
Proof. split; [lia | reflexivity]. Qed.

Lemma extends_trans (a b c : Store) : extends a b -> extends b c -> extends a c.
Proof.
  intros [Hab Hab'] [Hbc Hbc']. split; [lia|].
  intros h Hh. rewrite Hbc' by lia. now apply Hab'.
Qed.

Lemma extends_MakeShared (st : Store) : extends st (MakeShared st).2.
Proof.
  unfold MakeShared. simpl. split.
  - rewrite length_app. lia.
  - intros h Hh. now apply lookup_app_l.
Qed.

Lemma extends_modify (st st' : Store) p f :
  extends st st' -> (length st <= p)%nat -> extends st (modify p f st').
Proof.
  intros [Hlen Hsame] Hp. unfold modify. split.
  - rewrite length_alter. lia.
  - intros h Hh. rewrite list_lookup_alter_ne by lia. now apply Hsame.
Qed.

Lemma extends_release (st st' : Store) p :
  extends st st' -> (length st <= p)%nat -> extends st (release p st').
Proof.
  intros [Hlen Hsame] Hp. unfold release. split.
  - rewrite length_insert. lia.
  - intros h Hh. rewrite list_lookup_insert_ne by lia. now apply Hsame.
Qed.

Lemma Pin_extends (st st' : Store) h :
  extends st st' -> (h < length st)%nat -> Pin st' h = Pin st h.
Proof. intros [_ Hsame] Hh. unfold Pin. now rewrite Hsame. Qed.

Lemma modify_alive (st : Store) p f r :
  st !! p = Some (Some r) -> modify p f st !! p = Some (Some (f r)).
Proof. intros H. unfold modify. rewrite list_lookup_alter_eq, H. reflexivity. Qed.

Lemma MakeShared_alive (st : Store) :
  (MakeShared st).2 !! (MakeShared st).1 = Some (Some newLoadedTextureResult).
Proof. unfold MakeShared. simpl. now apply list_lookup_middle. Qed.

Lemma Pin_alive (st : Store) p r : st !! p = Some (Some r) -> Pin st p = Some p.
Proof. intros H. unfold Pin. now rewrite H. Qed.

Lemma length_modify (st : Store) p f : length (modify p f st) = length st.
Proof. apply length_alter. Qed.

End StoreFacts.

(** ** Feature ID sets *)

Section FeatureIdFacts.
Context `{E : Engine}.

(** What [encodeFeatureIdTexture] does to the cache and the store. *)
Lemma encodeFeatureIdTexture_spec tex m st r m' st' l :
  encodeFeatureIdTexture tex m st = (r, m', st', l) ->
  (forall img h, m !! img = Some h -> (h < length st)%nat) ->
  extends st st' /\
  (forall img h, m !! img = Some h -> m' !! img = Some h) /\
  (forall img h, m' !! img = Some h -> (h < length st')%nat) /\
  (forall e, r = Some e ->
     attribute e = None /\
     exists t h, texture e = Some t /\
       m' !! getImage (getFeatureIdTextureView tex) = Some h /\
       pTexture t = Pin st' h).
Proof.
  intros Hrun Hm. unfold encodeFeatureIdTexture in Hrun.
  destruct (bool_decide _) in Hrun.
  { simplify_eq. split; [apply extends_refl|]. split; [auto|]. split; [auto|].
    intros e He. discriminate He. }
  destruct (m !! getImage (getFeatureIdTextureView tex)) as [h|] eqn:Hlook.
  { simplify_eq. split; [apply extends_refl|]. split; [auto|]. split; [auto|].
    intros e He. simplify_eq. simpl. split; [reflexivity|]. eauto. }
  set (p := length st) in *.
  assert (Hext : forall f g k, extends st
            (modify p f (modify p g (modify p k (st ++ [Some newLoadedTextureResult]))))).
  { intros. repeat (apply extends_modify; [|unfold p; lia]).
    apply (extends_MakeShared st). }
  assert (Hm' : forall img h,
             <[getImage (getFeatureIdTextureView tex) := p]> m !! img = Some h ->
             (h < S (length st))%nat).
  { intros img h. rewrite lookup_insert. case_decide.
    - intros [= <-]. unfold p. lia.
    - intros Hh. apply Hm in Hh. lia. }
  assert (Hkeep : forall img h, m !! img = Some h ->
             <[getImage (getFeatureIdTextureView tex) := p]> m !! img = Some h).
  { intros img h Hh. rewrite lookup_insert_ne; [assumption|]. congruence. }
  unfold MakeShared in Hrun. simpl in Hrun. fold p in Hrun.
  destruct (createTexturePlatformData _ _ _) as [data|] eqn:Halloc.
  - simplify_eq. split; [|split; [|split]].
    + apply extends_modify; [apply Hext | unfold p; lia].
    + exact Hkeep.
    + intros img h Hh. apply Hm' in Hh.
      rewrite !length_modify, length_app. simpl. lia.
    + intros e He. simplify_eq. simpl. split; [reflexivity|].
      eexists _, p. split; [reflexivity|]. split; [apply lookup_insert_eq|].
      simpl. symmetry. eapply Pin_alive.
      do 4 (apply modify_alive). apply (MakeShared_alive st).
  - simplify_eq. split; [|split; [|split]].
    + apply extends_release; [apply Hext | unfold p; lia].
    + exact Hkeep.
    + intros img h Hh. apply Hm' in Hh.
      unfold release. rewrite length_insert, !length_modify, length_app. simpl. lia.
    + intros e He. discriminate He.
Qed.

Lemma cacheInv_grow all s c m' st' l :
  cacheInv all s ->
  extends (fp_store s) st' ->
  (forall img h, featureIdTextureMap s !! img = Some h -> m' !! img = Some h) ->
  (forall img h, m' !! img = Some h -> (h < length st')%nat) ->
  cacheInv all {| featureIdTextureCounter := c; featureIdTextureMap := m';
                  fp_store := st'; fp_result := fp_result s; fp_log := l |}.
Proof.
  intros [Hbound Hres] Hext Hmono Hbound'. split; simpl; [exact Hbound'|].
  intros e He. destruct (Hres e He) as (Hidx & set & Hset & Hshape).
  split; [exact Hidx|]. exists set. split; [exact Hset|].
  destruct (featureID set) as [|a|tex|]; try exact Hshape.
  destruct Hshape as (t & h & Ht & Hh & Hpin).
  exists t, h. split; [exact Ht|]. split; [now apply Hmono|].
  rewrite Hpin. symmetry. apply Pin_extends; [exact Hext | now apply Hbound in Hh].
Qed.

Lemma cacheInv_add all c m st res l e set :
  cacheInv all {| featureIdTextureCounter := c; featureIdTextureMap := m;
                  fp_store := st; fp_result := res; fp_log := l |} ->
  0 <= index e ->
  all !! Z.to_nat (index e) = Some set ->
  match featureID set with
  | FeatureID_Texture tex =>
      exists t h, texture e = Some t /\
        m !! getImage (getFeatureIdTextureView tex) = Some h /\
        pTexture t = Pin st h
  | _ => texture e = None
  end ->
  cacheInv all {| featureIdTextureCounter := c; featureIdTextureMap := m;
                  fp_store := st; fp_result := res ++ [e]; fp_log := l |}.
Proof.
  intros [Hbound Hres] Hidx Hset Hshape. split; simpl in *; [exact Hbound|].
  intros e' [He' | He'%list_elem_of_singleton]%elem_of_app.
  - now apply Hres.
  - subst e'. split; [exact Hidx|]. now exists set.
Qed.

Lemma cacheInv_same all s c l :
  cacheInv all s ->
  cacheInv all {| featureIdTextureCounter := c;
                  featureIdTextureMap := featureIdTextureMap s;
                  fp_store := fp_store s; fp_result := fp_result s; fp_log := l |}.
Proof. intros H. exact H. Qed.

(** The counter after an iteration is the one [getNameForFeatureIDSet] left. *)
Lemma features_body_counter descs i set s :
  featureIdTextureCounter (encodePrimitiveFeatures_body descs i set s)
  = (getNameForFeatureIDSet set (featureIdTextureCounter s)).2.
Proof.
  unfold encodePrimitiveFeatures_body.
  destruct (getNameForFeatureIDSet set (featureIdTextureCounter s)) as [n c].
  repeat (case_match; simpl; try reflexivity).
Qed.

(** An iteration for a set nobody asked for only advances the counter. *)
Lemma features_body_not_wanted descs i set s :
  (forall d, d ∈ descs ->
     fisd_Name d <> (getNameForFeatureIDSet set (featureIdTextureCounter s)).1) ->
  let s' := encodePrimitiveFeatures_body descs i set s in
  fp_result s' = fp_result s /\ fp_log s' = fp_log s /\
  fp_store s' = fp_store s /\ featureIdTextureMap s' = featureIdTextureMap s.
Proof.
  intros Hno. unfold encodePrimitiveFeatures_body.
  destruct (getNameForFeatureIDSet set (featureIdTextureCounter s)) as [n c].
  simpl in Hno. rewrite FindByPredicate_none; [simpl; auto|].
  intros d Hd. apply FString_eq_false. now apply Hno.
Qed.

(** Whatever an iteration appends is stamped with the loop index, the
    resolved name and the fields of the first description of that name. *)
Lemma features_body_entry descs i set s e :
  e ∈ fp_result (encodePrimitiveFeatures_body descs i set s) ->
  e ∈ fp_result s \/
  (index e = Z.of_nat i /\
   name e = (getNameForFeatureIDSet set (featureIdTextureCounter s)).1 /\
   nullFeatureId e = GetNullFeatureID set /\
   exists d,
     FindByPredicate (fun x => FString_eq (fisd_Name x) (name e)) descs = Some d /\
     propertyTableName e = fisd_PropertyTableName d).
Proof.
  unfold encodePrimitiveFeatures_body.
  destruct (getNameForFeatureIDSet set (featureIdTextureCounter s)) as [n c].
  destruct (FindByPredicate _ descs) as [d|] eqn:Hfind; [|now left].
  destruct (match GetFeatureIDSetType set with
            | ECesiumFeatureIdSetType.None => _
            | _ => _ end) as [[[r m] st] l].
  destruct r as [r|]; simpl; [|now left].
  intros [He | He%list_elem_of_singleton]%elem_of_app; [now left|].
  right. subst e. simpl. repeat split; eauto.
Qed.

Lemma features_body_inv all descs i set s :
  all !! i = Some set ->
  cacheInv all s ->
  cacheInv all (encodePrimitiveFeatures_body descs i set s).
Proof.
  intros Hset Hinv. unfold encodePrimitiveFeatures_body.
  destruct (getNameForFeatureIDSet set (featureIdTextureCounter s)) as [n c].
  destruct (FindByPredicate _ descs) as [d|]; [|now apply cacheInv_same].
  assert (Hidx : all !! Z.to_nat (Z.of_nat i) = Some set)
    by now rewrite Nat2Z.id.
  unfold GetFeatureIDSetType, GetAsFeatureIDAttribute, GetAsFeatureIDTexture.
  destruct (featureID set) as [|a|tex|] eqn:Hkind.
  - now apply cacheInv_same.
  - destruct (encodeFeatureIdAttribute a) as [[r|] l] eqn:Hattr;
      [|now apply cacheInv_same].
    eapply cacheInv_add; [now apply cacheInv_same | simpl; lia | exact Hidx |].
    rewrite Hkind. simpl. unfold encodeFeatureIdAttribute in Hattr.
    destruct (bool_decide _) in Hattr; simplify_eq. reflexivity.
  - destruct (encodeFeatureIdTexture tex (featureIdTextureMap s) (fp_store s))
      as [[[r m'] st'] l] eqn:Htex.
    destruct Hinv as [Hbound Hres].
    destruct (encodeFeatureIdTexture_spec _ _ _ _ _ _ _ Htex Hbound)
      as (Hext & Hmono & Hbound' & Hnew).
    pose proof (cacheInv_grow all s c m' st' (fp_log s ++ l)
                  (conj Hbound Hres) Hext Hmono Hbound') as Hgrown.
    destruct r as [r|]; [|exact Hgrown].
    eapply cacheInv_add; [exact Hgrown | simpl; lia | exact Hidx |].
    rewrite Hkind. simpl. destruct (Hnew r eq_refl) as (_ & t & h & Hshape).
    now exists t, h.
  - eapply cacheInv_add; [now apply cacheInv_same | simpl; lia | exact Hidx |].
    rewrite Hkind. reflexivity.
Qed.

Lemma features_loop_inv all descs rest i s :
  (forall k set, rest !! k = Some set -> all !! (i + k)%nat = Some set) ->
  cacheInv all s ->
  cacheInv all (encodePrimitiveFeatures_loop descs i rest s).
Proof.
  revert i s. induction rest as [|set rest IH]; intros i s Hall Hinv; simpl;
    [exact Hinv|].
  apply IH.
  - intros k set' Hk. replace (S i + k)%nat with (i + S k)%nat by lia.
    now apply Hall.
  - apply features_body_inv; [|exact Hinv].
    specialize (Hall O set eq_refl). now rewrite Nat.add_0_r in Hall.
Qed.

Lemma features_loop_entries descs rest i s e :
  e ∈ fp_result (encodePrimitiveFeatures_loop descs i rest s) ->
  e ∈ fp_result s \/
  exists k set d,
    rest !! k = Some set /\
    index e = Z.of_nat (i + k) /\
    featureIdSetNames (featureIdTextureCounter s) rest !! k = Some (name e) /\
    nullFeatureId e = GetNullFeatureID set /\
    FindByPredicate (fun x => FString_eq (fisd_Name x) (name e)) descs = Some d /\
    propertyTableName e = fisd_PropertyTableName d.
Proof.
  revert i s. induction rest as [|set rest IH]; intros i s He; simpl in He;
    [now left|].
  apply IH in He as [He | (k & set' & d & Hk & Hidx & Hname & Hnull & Hd & Hpt)].
  - apply features_body_entry in He as [He | (Hidx & Hname & Hnull & d & Hd & Hpt)];
      [now left|].
    right. exists O, set, d. simpl. rewrite Nat.add_0_r, <- Hname.
    repeat split; assumption.
  - right. exists (S k), set', d. simpl.
    rewrite features_body_counter in Hname.
    replace (i + S k)%nat with (S i + k)%nat by lia.
    repeat split; assumption.
Qed.

Lemma featureIdSetNames_lookup counter sets k n :
  featureIdSetNames counter sets !! k = Some n ->
  exists set c, sets !! k = Some set /\ n = (getNameForFeatureIDSet set c).1.
Proof.
  revert counter k. induction sets as [|set sets IH]; intros counter k Hk;
    [discriminate Hk|].
  destruct k as [|k]; simpl in Hk.
  - simplify_eq. now exists set, counter.
  - apply IH in Hk as (set' & c & Hset & Hn). now exists set', c.
Qed.

End FeatureIdFacts.

(** ** Game-thread part *)

Section FirstOccurrences.

Lemma elem_of_firstOccurrences (l seen : list Ptr) (p : Ptr) :
  p ∈ firstOccurrences seen l <-> p ∈ l /\ p ∉ seen.
Proof.
  revert seen. induction l as [|q l IH]; intros seen; simpl.
  - split; [intros H; now apply not_elem_of_nil in H | intros [H _]; now apply not_elem_of_nil in H].
  - case_bool_decide as Hq.
    + rewrite IH. split.
      * intros [Hin Hns]. split; [now right | assumption].
      * intros [[->|Hin]%elem_of_cons Hns]; [contradiction | now split].
    + rewrite elem_of_cons, IH, elem_of_cons, not_elem_of_app, list_elem_of_singleton.
      split.
      * intros [->|(Hin & Hns & Hne)]; [split; [now left | assumption]|].
        split; [now right | assumption].
      * intros [[->|Hin] Hns]; [now left|].
        destruct (decide (p = q)) as [->|Hne]; [now left|].
        right. repeat split; assumption.
Qed.

Lemma NoDup_firstOccurrences (l seen : list Ptr) : NoDup (firstOccurrences seen l).
Proof.
  revert seen. induction l as [|q l IH]; intros seen; simpl; [constructor|].
  case_bool_decide; [apply IH|].
  constructor; [|apply IH].
  rewrite elem_of_firstOccurrences, not_elem_of_app. intros [_ [_ Hne]].
  apply Hne. now left.
Qed.

Lemma firstOccurrences_app (l1 l2 seen : list Ptr) :
  firstOccurrences seen (l1 ++ l2) =
  firstOccurrences seen l1 ++ firstOccurrences (seen ++ firstOccurrences seen l1) l2.
Proof.
  revert seen. induction l1 as [|q l1 IH]; intros seen; simpl.
  - now rewrite app_nil_r.
  - case_bool_decide; [apply IH|].
    simpl. rewrite IH. now rewrite <- app_assoc.
Qed.

Lemma timesRealized_absent (l : list Ptr) (p : Ptr) :
  p ∉ l -> timesRealized p l = 0%nat.
Proof.
  unfold timesRealized. induction l as [|q l IH]; intros Hp; [reflexivity|].
  apply not_elem_of_cons in Hp as [Hne Hp].
  rewrite filter_cons_False by congruence. now apply IH.
Qed.

Lemma timesRealized_NoDup (l : list Ptr) (p : Ptr) :
  NoDup l -> p ∈ l -> timesRealized p l = 1%nat.
Proof.
  induction 1 as [|q l Hq Hnd IH]; intros Hin.
  - now apply not_elem_of_nil in Hin.
  - apply elem_of_cons in Hin as [->|Hin]; unfold timesRealized.
    + rewrite filter_cons_True by reflexivity. simpl. f_equal.
      now apply timesRealized_absent.
    + rewrite filter_cons_False by (intros ->; contradiction). now apply IH.
Qed.

End FirstOccurrences.

Section GameThreadFacts.
Context `{E : Engine}.

Lemma features_game_fold sets ok (w : Realizations) (unique : list Ptr) :
  exists calls : Realizations,
    fold_left encodePrimitiveFeatures_gameBody sets (ok, w, unique)
    = (ok && forallb id calls.*2, w ++ calls, unique ++ calls.*1) /\
    calls.*1 = firstOccurrences unique (omap (fun s => pTexture <$> texture s) sets).
Proof.
  revert ok w unique. induction sets as [|set sets IH]; intros ok w unique.
  - exists []. simpl. now rewrite andb_true_r, !app_nil_r.
  - simpl. destruct (texture set) as [t|]; simpl; [|apply IH].
    unfold Contains. case_bool_decide as Hseen; simpl; [apply IH|].
    destruct (IH (ok && loadTextureGameThreadPart w (pTexture t))
                 (w ++ [(pTexture t, loadTextureGameThreadPart w (pTexture t))])
                 (unique ++ [pTexture t])) as (calls & Hfold & Hptrs).
    exists ((pTexture t, loadTextureGameThreadPart w (pTexture t)) :: calls).
    rewrite Hfold. simpl. rewrite <- !app_assoc, andb_assoc. simpl.
    split; [reflexivity | f_equal; exact Hptrs].
Qed.

Lemma table_game_fold props ok (w : Realizations) :
  exists calls : Realizations,
    fold_left encodePropertyTable_gameBody props (ok, w)
    = (ok && forallb id calls.*2, w ++ calls) /\
    calls.*1 = omap (fun p => match eptp_pTexture p with
                              | Some a => Some (Some a) | None => None end) props.
Proof.
  revert ok w. induction props as [|p props IH]; intros ok w.
  - exists []. simpl. now rewrite andb_true_r, app_nil_r.
  - simpl. unfold encodePropertyTable_gameBody at 2.
    destruct (eptp_pTexture p) as [a|]; simpl; [|apply IH].
    unfold realize. simpl.
    destruct (IH (ok && loadTextureGameThreadPart w (Some a))
                 (w ++ [(Some a, loadTextureGameThreadPart w (Some a))]))
      as (calls & Hfold & Hptrs).
    exists ((Some a, loadTextureGameThreadPart w (Some a)) :: calls).
    rewrite Hfold. simpl. rewrite <- !app_assoc, andb_assoc. simpl.
    split; [reflexivity | f_equal; exact Hptrs].
Qed.

Lemma texture_game_fold props ok (w : Realizations) (unique : list Ptr) :
  exists calls : Realizations,
    fold_left encodePropertyTexture_gameBody props (ok, w, unique)
    = (ok && forallb id calls.*2, w ++ calls, unique ++ calls.*1) /\
    calls.*1 = firstOccurrences unique (eptxp_pTexture <$> props).
Proof.
  revert ok w unique. induction props as [|p props IH]; intros ok w unique.
  - exists []. simpl. now rewrite andb_true_r, !app_nil_r.
  - simpl. unfold Contains. case_bool_decide as Hseen; simpl; [apply IH|].
    destruct (IH (ok && loadTextureGameThreadPart w (eptxp_pTexture p))
                 (w ++ [(eptxp_pTexture p, loadTextureGameThreadPart w (eptxp_pTexture p))])
                 (unique ++ [eptxp_pTexture p])) as (calls & Hfold & Hptrs).
    exists ((eptxp_pTexture p, loadTextureGameThreadPart w (eptxp_pTexture p)) :: calls).
    rewrite Hfold. simpl. rewrite <- !app_assoc, andb_assoc. simpl.
    split; [reflexivity | f_equal; exact Hptrs].
Qed.

Lemma model_textures_fold textures ok (w : Realizations) (unique : list Ptr) :
  exists calls : Realizations,
    fold_left encodeModelMetadata_gameTextures textures (ok, w, unique)
    = (ok && forallb id calls.*2, w ++ calls, unique ++ calls.*1) /\
    calls.*1 = firstOccurrences unique (concat (propertyTexturePtrs <$> textures)).
Proof.
  revert ok w unique. induction textures as [|t textures IH]; intros ok w unique.
  - exists []. simpl. now rewrite andb_true_r, !app_nil_r.
  - simpl. unfold encodePropertyTextureGameThreadPart.
    destruct (texture_game_fold (eptx_properties t) true w unique)
      as (calls1 & Hfold1 & Hptrs1).
    rewrite Hfold1. simpl.
    destruct (IH (ok && forallb id calls1.*2) (w ++ calls1) (unique ++ calls1.*1))
      as (calls2 & Hfold2 & Hptrs2).
    exists (calls1 ++ calls2). rewrite Hfold2.
    rewrite !fmap_app, forallb_app, <- !app_assoc, andb_assoc.
    split; [reflexivity|].
    rewrite firstOccurrences_app. unfold propertyTexturePtrs at 1 2.
    now rewrite <- Hptrs1, Hptrs2.
Qed.

Lemma model_tables_fold tables ok (w : Realizations) :
  exists calls : Realizations,
    fold_left encodeModelMetadata_gameTables tables (ok, w)
    = (ok && forallb id calls.*2, w ++ calls) /\
    calls.*1 = concat (tablePtrs <$> tables).
Proof.
  revert ok w. induction tables as [|t tables IH]; intros ok w.
  - exists []. simpl. now rewrite andb_true_r, app_nil_r.
  - simpl. unfold encodeModelMetadata_gameTables at 2. simpl.
    unfold encodePropertyTableGameThreadPart.
    destruct (table_game_fold (ept_properties t) true w) as (calls1 & Hfold1 & Hptrs1).
    rewrite Hfold1. simpl.
    destruct (IH (ok && forallb id calls1.*2) (w ++ calls1))
      as (calls2 & Hfold2 & Hptrs2).
    exists (calls1 ++ calls2). rewrite Hfold2.
    rewrite !fmap_app, forallb_app, <- !app_assoc, andb_assoc.
    split; [reflexivity|].
    unfold tablePtrs at 1. now rewrite <- Hptrs1, Hptrs2.
Qed.

(** The same loops, with every call spelled out. *)

Lemma realizeEach_ptrs (w : Realizations) (ptrs : list Ptr) :
  (realizeEach w ptrs).*1 = ptrs.
Proof.
  revert w. induction ptrs as [|p ptrs IH]; intros w; [reflexivity|].
  simpl. f_equal. apply IH.
Qed.

Lemma realizeEach_app (w : Realizations) (l1 l2 : list Ptr) :
  realizeEach w (l1 ++ l2)
  = realizeEach w l1 ++ realizeEach (w ++ realizeEach w l1) l2.
Proof.
  revert w. induction l1 as [|p l1 IH]; intros w; simpl.
  - now rewrite app_nil_r.
  - rewrite IH, <- app_assoc. reflexivity.
Qed.

Lemma realizeEach_all (w : Realizations) (ptrs : list Ptr) :
  forallb id (realizeEach w ptrs).*2 = true <->
  forall i p, ptrs !! i = Some p ->
              loadTextureGameThreadPart (w ++ realizeEach w (take i ptrs)) p = true.
Proof.
  revert w. induction ptrs as [|q ptrs IH]; intros w; simpl.
  - split; [|reflexivity]. intros _ i p Hp. discriminate Hp.
  - rewrite andb_true_iff, IH. split.
    + intros [Hq Hrest] [|i] p Hp; simpl in Hp.
      * injection Hp as <-. simpl. now rewrite app_nil_r.
      * simpl. specialize (Hrest i p Hp). now rewrite <- app_assoc in Hrest.
    + intros Hall. split.
      * specialize (Hall O q eq_refl). simpl in Hall. now rewrite app_nil_r in Hall.
      * intros i p Hp. specialize (Hall (S i) p Hp). simpl in Hall.
        now rewrite <- app_assoc.
Qed.

Lemma features_game_calls sets ok (w : Realizations) (unique : list Ptr) :
  fold_left encodePrimitiveFeatures_gameBody sets (ok, w, unique)
  = (ok && (realizeAll w (firstOccurrences unique
                            (omap (fun s => pTexture <$> texture s) sets))).1,
     (realizeAll w (firstOccurrences unique
                      (omap (fun s => pTexture <$> texture s) sets))).2,
     unique ++ firstOccurrences unique (omap (fun s => pTexture <$> texture s) sets)).
Proof.
  unfold realizeAll. simpl.
  revert ok w unique. induction sets as [|set sets IH]; intros ok w unique.
  - simpl. now rewrite andb_true_r, !app_nil_r.
  - simpl. destruct (texture set) as [t|]; simpl; [|apply IH].
    unfold Contains. case_bool_decide as Hseen; simpl; [apply IH|].
    rewrite IH. rewrite <- !app_assoc, andb_assoc. reflexivity.
Qed.

Lemma table_game_calls props ok (w : Realizations) :
  fold_left encodePropertyTable_gameBody props (ok, w)
  = (ok && (realizeAll w (omap (fun p => match eptp_pTexture p with
                                         | Some a => Some (Some a) | None => None end)
                               props)).1,
     (realizeAll w (omap (fun p => match eptp_pTexture p with
                                   | Some a => Some (Some a) | None => None end)
                         props)).2).
Proof.
  unfold realizeAll. simpl.
  revert ok w. induction props as [|p props IH]; intros ok w.
  - simpl. now rewrite andb_true_r, app_nil_r.
  - simpl. unfold encodePropertyTable_gameBody at 2.
    destruct (eptp_pTexture p) as [a|]; simpl; [|apply IH].
    unfold realize. simpl.
    rewrite IH. rewrite <- !app_assoc, andb_assoc. reflexivity.
Qed.

Lemma texture_game_calls props ok (w : Realizations) (unique : list Ptr) :
  fold_left encodePropertyTexture_gameBody props (ok, w, unique)
  = (ok && (realizeAll w (firstOccurrences unique (eptxp_pTexture <$> props))).1,
     (realizeAll w (firstOccurrences unique (eptxp_pTexture <$> props))).2,
     unique ++ firstOccurrences unique (eptxp_pTexture <$> props)).
Proof.
  unfold realizeAll. simpl.
  revert ok w unique. induction props as [|p props IH]; intros ok w unique.
  - simpl. now rewrite andb_true_r, !app_nil_r.
  - simpl. unfold Contains. case_bool_decide as Hseen; simpl; [apply IH|].
    rewrite IH. rewrite <- !app_assoc, andb_assoc. reflexivity.
Qed.

Lemma model_textures_calls textures ok (w : Realizations) (unique : list Ptr) :
  fold_left encodeModelMetadata_gameTextures textures (ok, w, unique)
  = (ok && (realizeAll w (firstOccurrences unique
                            (concat (propertyTexturePtrs <$> textures)))).1,
     (realizeAll w (firstOccurrences unique
                      (concat (propertyTexturePtrs <$> textures)))).2,
     unique ++ firstOccurrences unique (concat (propertyTexturePtrs <$> textures))).
Proof.
  unfold realizeAll. simpl.
  revert ok w unique. induction textures as [|t textures IH]; intros ok w unique.
  - simpl. now rewrite andb_true_r, !app_nil_r.
  - simpl. unfold encodePropertyTextureGameThreadPart.
    rewrite texture_game_calls. unfold realizeAll. simpl.
    rewrite IH, firstOccurrences_app, realizeEach_app.
    unfold propertyTexturePtrs at 1 3 5 7 9.
    rewrite !fmap_app, forallb_app, <- !app_assoc, andb_assoc. reflexivity.
Qed.

Lemma model_tables_calls tables ok (w : Realizations) :
  fold_left encodeModelMetadata_gameTables tables (ok, w)
  = (ok && (realizeAll w (concat (tablePtrs <$> tables))).1,
     (realizeAll w (concat (tablePtrs <$> tables))).2).
Proof.
  unfold realizeAll. simpl.
  revert ok w. induction tables as [|t tables IH]; intros ok w.
  - simpl. now rewrite andb_true_r, app_nil_r.
  - simpl. unfold encodeModelMetadata_gameTables at 2. simpl.
    unfold encodePropertyTableGameThreadPart.
    rewrite table_game_calls. unfold realizeAll. simpl.
    rewrite IH, realizeEach_app. unfold tablePtrs at 1 3 5.
    rewrite !fmap_app, forallb_app, <- !app_assoc, andb_assoc. reflexivity.
Qed.

End GameThreadFacts.

(** C8: every game-thread function calls [loadTextureGameThreadPart] once
    for each texture pointer of its pass, in order and whatever the earlier
    outcomes were, and returns the conjunction of the outcomes of exactly
    these calls: it returns [true] if and only if every one of the calls,
    made after those before it, succeeded.  The pointers of a pass are: for
    a primitive's features and for property textures the first occurrences
    of the descriptors' pointers, for a property table its non-null
    pointers, for a model the property textures' followed by the tables';
    the primitive metadata pass has none. *)
Theorem C8_game_thread_success_is_conjunction (E : Engine) :
  (forall (w : Realizations) ptrs,
      (realizeEach w ptrs).*1 = ptrs /\
      ((realizeAll w ptrs).1 = true <->
       forall i p, ptrs !! i = Some p ->
         loadTextureGameThreadPart (w ++ realizeEach w (take i ptrs)) p = true)) /\
  (forall encodedFeatures (w : Realizations),
      encodePrimitiveFeaturesGameThreadPart encodedFeatures w
      = realizeAll w (firstOccurrences [] (featureTexturePtrs encodedFeatures))) /\
  (forall encodedPropertyTable (w : Realizations),
      encodePropertyTableGameThreadPart encodedPropertyTable w
      = realizeAll w (tablePtrs encodedPropertyTable)) /\
  (forall uniqueTextures encodedPropertyTexture (w : Realizations),
      encodePropertyTextureGameThreadPart uniqueTextures encodedPropertyTexture w
      = (realizeAll w (firstOccurrences uniqueTextures
                         (propertyTexturePtrs encodedPropertyTexture)),
         uniqueTextures ++ firstOccurrences uniqueTextures
                             (propertyTexturePtrs encodedPropertyTexture))) /\
  (forall encodedPrimitive (w : Realizations),
      encodePrimitiveMetadataGameThreadPart encodedPrimitive w = realizeAll w []) /\
  (forall encodedMetadata (w : Realizations),
      encodeModelMetadataGameThreadPart encodedMetadata w
      = realizeAll w
          (firstOccurrences []
             (concat (propertyTexturePtrs <$> propertyTextures encodedMetadata))
           ++ concat (tablePtrs <$> propertyTables encodedMetadata))).
Proof.
  split; [|split; [|split; [|split; [|split]]]].
  - intros w ptrs. split; [apply realizeEach_ptrs | apply realizeEach_all].
  - intros enc w. unfold encodePrimitiveFeaturesGameThreadPart, featureTexturePtrs.
    rewrite features_game_calls. reflexivity.
  - intros t w. unfold encodePropertyTableGameThreadPart, tablePtrs.
    rewrite table_game_calls. reflexivity.
  - intros unique t w. unfold encodePropertyTextureGameThreadPart, propertyTexturePtrs.
    rewrite texture_game_calls. reflexivity.
  - intros m w. unfold encodePrimitiveMetadataGameThreadPart, realizeAll. simpl.
    now rewrite app_nil_r.
  - intros m w. unfold encodeModelMetadataGameThreadPart.
    rewrite model_textures_calls. cbn [fst snd andb].
    rewrite model_tables_calls. unfold realizeAll. cbn [fst snd].
    rewrite realizeEach_app, !fmap_app, forallb_app, <- app_assoc. reflexivity.
Qed.

(** A failed realization in the middle: the texture at address 0 cannot be
    realized, the one at address 1 is attempted all the same, and the flag
    is [false]. *)
Example failed_realization_does_not_stop_the_pass :
  @encodePropertyTableGameThreadPart pickyEngine twoTextureTable []
  = (false, [(Some O, false); (Some 1%nat, true)]).
Proof. vm_compute. reflexivity. Qed.


(** ** Shared source images *)

Lemma attempted_app (w calls : Realizations) : attempted w (w ++ calls) = calls.*1.
Proof. unfold attempted. now rewrite drop_app_length. Qed.

Lemma features_pass_inv `{E : Engine} desc features store :
  cacheInv (GetFeatureIDSets features)
           (encodePrimitiveFeatures_pass desc features store).
Proof.
  unfold encodePrimitiveFeatures_pass. apply features_loop_inv.
  - intros k set Hk. exact Hk.
  - split; simpl.
    + intros img h Hh. rewrite lookup_empty in Hh. discriminate Hh.
    + intros e He. now apply not_elem_of_nil in He.
Qed.

(** Every texture-bearing descriptor is realized exactly once. *)
Lemma features_game_once `{E : Engine} enc (w : Realizations) e t :
  e ∈ featureIdSets enc -> texture e = Some t ->
  timesRealized (pTexture t)
    (attempted w (encodePrimitiveFeaturesGameThreadPart enc w).2) = 1%nat.
Proof.
  intros He Ht. unfold encodePrimitiveFeaturesGameThreadPart.
  destruct (features_game_fold (featureIdSets enc) true w []) as (calls & Hfold & Hptrs).
  rewrite Hfold. simpl. rewrite attempted_app, Hptrs.
  apply timesRealized_NoDup; [apply NoDup_firstOccurrences|].
  apply elem_of_firstOccurrences. split; [|apply not_elem_of_nil].
  apply list_elem_of_omap. exists e. split; [exact He|]. now rewrite Ht.
Qed.

(** C1 (defect): [encodeFeatureIdTexture] registers the new object in
    [featureIdTextureMap] before it checks the allocation, and leaves the
    entry behind when it gives up.  With three unlabeled texture sets on
    one image and a failing allocation, the first set is dropped with an
    error, as intended; the second and the third find the stale entry, pin
    a destroyed object and are encoded all the same, each with a null
    texture pointer and without a further log entry.  No texture object is
    alive after the pass, so the two descriptors share no texture handle;
    [encodePrimitiveFeaturesGameThreadPart] hands the null pointer to
    [loadTextureGameThreadPart], and [destroyEncodedPrimitiveFeatures]
    dereferences it. *)
Theorem C1_shared_image_after_failed_allocation :
  let r := @encodePrimitiveFeaturesAnyThreadPart exhaustedEngine
             threeSharedDescription threeSharedFeatures [] in
  (index <$> featureIdSets r.1.1) = [1; 2] /\
  (sourceImage <$> GetFeatureIDSets threeSharedFeatures)
    = [Some 7%nat; Some 7%nat; Some 7%nat] /\
  (fmap pTexture <$> (texture <$> featureIdSets r.1.1)) = [Some None; Some None] /\
  r.1.2 = [None] /\
  r.2.*1 = [ELogVerbosity.Error] /\
  attempted [] (@encodePrimitiveFeaturesGameThreadPart exhaustedEngine r.1.1 []).2
    = [None] /\
  destroyEncodedPrimitiveFeatures r.1.1 (∅, []) = None.
Proof. vm_compute. repeat split. Qed.

(** ** Names in the encoded output *)

Lemma model_tables_names `{E : Engine} desc tables s t p :
  (forall t' p', t' ∈ mp_propertyTables s -> p' ∈ ept_properties t' ->
                 isShaderSafe (eptp_name p') = true) ->
  t ∈ mp_propertyTables (fold_left (encodeModelMetadata_tableBody desc) tables s) ->
  p ∈ ept_properties t ->
  isShaderSafe (eptp_name p) = true.
Proof.
  revert s. induction tables as [|table tables IH]; intros s Hs; simpl; [apply Hs|].
  apply IH. intros t' p'. unfold encodeModelMetadata_tableBody.
  destruct (FindByPredicate _ _) as [d|]; [|apply Hs].
  unfold encodePropertyTableAnyThreadPart. simpl.
  intros [Ht | Ht%list_elem_of_singleton]%elem_of_app; [now apply Hs|].
  subst t'. simpl. apply table_pass_names.
Qed.

(** C3 (as stated in the claim, refuted): an implicit feature ID set labeled
    ["1 a"], asked for under that very name, is encoded with the name
    ["1 a"], which starts with a digit and contains a space. *)
Lemma C3_feature_id_set_name_is_raw :
  exists e,
    e ∈ featureIdSets
          (@encodePrimitiveFeaturesAnyThreadPart idealEngine
             rawLabelDescription rawLabelFeatures []).1.1 /\
    name e = "1 a"%string /\
    isShaderSafe (name e) = false.
Proof.
  eexists. split; [vm_compute; apply list_elem_of_here|].
  split; reflexivity.
Qed.

(** ** Items nobody asked for *)

(** C6: a live property or feature ID set whose resolved name equals the
    name of no requested description leaves no entry in the encoded
    output.  For a feature ID set: no encoded set carries its index, and its
    iteration touches neither the result, the log, the store nor the cache.
    For a property: the whole result, store and log included, is the one
    obtained from the table without that property. *)
Theorem C6_unrequested_items_are_dropped (E : Engine) :
  (forall desc features store i n,
      featureIdSetNames 0 (GetFeatureIDSets features) !! i = Some n ->
      (forall d, d ∈ FeatureIdSets desc -> fisd_Name d <> n) ->
      forall e,
        e ∈ featureIdSets (encodePrimitiveFeaturesAnyThreadPart desc features store).1.1 ->
        index e <> Z.of_nat i) /\
  (forall descs i set s,
      (forall d, d ∈ descs ->
         fisd_Name d <> (getNameForFeatureIDSet set (featureIdTextureCounter s)).1) ->
      let s' := encodePrimitiveFeatures_body descs i set s in
      fp_result s' = fp_result s /\ fp_log s' = fp_log s /\
      fp_store s' = fp_store s /\ featureIdTextureMap s' = featureIdTextureMap s) /\
  (forall desc table store before key property after,
      GetProperties table = before ++ (key, property) :: after ->
      (forall d, d ∈ ptd_Properties desc -> ptpd_Name d <> key) ->
      encodePropertyTableAnyThreadPart desc table store =
      encodePropertyTableAnyThreadPart desc
        (withProperties table (before ++ after)) store).
Proof.
  split; [|split].
  - intros desc features store i n Hn Hno e He Hidx.
    unfold encodePrimitiveFeaturesAnyThreadPart, encodePrimitiveFeatures_pass in He.
    simpl in He.
    apply features_loop_entries in He
      as [He | (k & set & d & Hk & Hidx' & Hname & _ & Hd & _)];
      [now apply not_elem_of_nil in He|].
    simpl in Hidx', Hname. rewrite Hidx' in Hidx. apply Nat2Z.inj in Hidx. subst k.
    rewrite Hn in Hname. injection Hname as ->.
    apply FindByPredicate_some in Hd as [Hd Heq]. apply FString_eq_true in Heq.
    exact (Hno d Hd Heq).
  - intros descs i set s Hno. now apply features_body_not_wanted.
  - intros desc table store before key property after Hprops Hno.
    unfold encodePropertyTableAnyThreadPart, encodePropertyTable_pass.
    rewrite Hprops. simpl. rewrite !fold_left_app. simpl.
    now rewrite table_body_not_wanted.
Qed.

Lemma C6_unrequested_items_are_dropped_witness :
  (forall e,
      e ∈ featureIdSets
            (@encodePrimitiveFeaturesAnyThreadPart idealEngine
               firstTextureOnly sharedImageFeatures []).1.1 ->
      index e <> 1) /\
  @encodePropertyTableAnyThreadPart idealEngine heightOnly exampleTable [] =
  @encodePropertyTableAnyThreadPart idealEngine heightOnly
    (withProperties exampleTable
       [("height"%string, liveProperty ECesiumMetadataComponentType.Uint8 false)]) [].
Proof.
  split.
  - apply (proj1 (C6_unrequested_items_are_dropped idealEngine)
             firstTextureOnly sharedImageFeatures [] 1%nat
             "_FEATURE_ID_TEXTURE_1"%string).
    + reflexivity.
    + intros d Hd. apply list_elem_of_singleton in Hd. subst d.
      simpl. intros Heq. discriminate Heq.
  - apply (proj2 (proj2 (C6_unrequested_items_are_dropped idealEngine))
             heightOnly exampleTable []
             [("height"%string, liveProperty ECesiumMetadataComponentType.Uint8 false)]
             "age"%string (liveProperty ECesiumMetadataComponentType.Uint8 false) []).
    + reflexivity.
    + intros d Hd. apply list_elem_of_singleton in Hd. subst d.
      simpl. intros Heq. discriminate Heq.
Defined.

(** ** Normalization *)

Lemma normalized_non_uint8_is_invalid d property :
  bIsNormalized (PropertyDetails d) = true ->
  vt_ComponentType (GetValueType property) <> ECesiumMetadataComponentType.Uint8 ->
  (isValidPropertyTablePropertyDescription d property).1 = false.
Proof.
  intros Hnorm Hcomp. unfold isValidPropertyTablePropertyDescription.
  repeat (case_bool_decide; [reflexivity|]).
  rewrite Hnorm. destruct (IsNormalized property); simpl; [|reflexivity].
  case_bool_decide; [reflexivity | contradiction].
Qed.

(** C7: a property whose description declares normalization while the live
    property's component type is not Uint8 is skipped whatever its other
    fields are: the encoded properties and the store are those obtained from
    the table without that property. *)
Theorem C7_normalized_non_uint8_is_skipped (E : Engine)
    desc table store before key property after d :
  GetProperties table = before ++ (key, property) :: after ->
  FindByPredicate (fun e => FString_eq key (ptpd_Name e)) (ptd_Properties desc) = Some d ->
  bIsNormalized (PropertyDetails d) = true ->
  vt_ComponentType (GetValueType property) <> ECesiumMetadataComponentType.Uint8 ->
  let with_it := encodePropertyTableAnyThreadPart desc table store in
  let without_it :=
    encodePropertyTableAnyThreadPart desc
      (withProperties table (before ++ after)) store in
  with_it.1.1 = without_it.1.1 /\ with_it.1.2 = without_it.1.2.
Proof.
  intros Hprops Hfind Hnorm Hcomp.
  pose proof (normalized_non_uint8_is_invalid d property Hnorm Hcomp) as Hinvalid.
  destruct (isValidPropertyTablePropertyDescription d property) as [valid l] eqn:Hvalid.
  simpl in Hinvalid. subst valid.
  unfold encodePropertyTableAnyThreadPart, encodePropertyTable_pass.
  rewrite Hprops. cbn [GetProperties GetPropertyTableCount withProperties fst snd].
  rewrite !fold_left_app. cbn [fold_left].
  set (s := fold_left _ before _).
  destruct (table_fold_sameOutput desc (GetPropertyTableCount table) after
              (encodePropertyTable_body desc (GetPropertyTableCount table) s
                 (key, property)) s) as [Hp Hs].
  { eapply table_body_invalid; eassumption. }
  rewrite Hp, Hs. split; reflexivity.
Qed.

Lemma C7_normalized_non_uint8_is_skipped_witness :
  ept_properties
    (@encodePropertyTableAnyThreadPart idealEngine normalizedHeight uint16Table []).1.1
  = [].
Proof.
  destruct (C7_normalized_non_uint8_is_skipped idealEngine normalizedHeight
              uint16Table [] [] "height"%string
              (liveProperty ECesiumMetadataComponentType.Uint16 true) []
              (wantedProperty "height" ECesiumMetadataComponentType.Uint16 true))
    as [Hsame _].
  - reflexivity.
  - reflexivity.
  - reflexivity.
  - simpl. intros H. discriminate H.
  - rewrite Hsame. reflexivity.
Defined.

(** ** Allocation failure *)

(** A feature ID texture whose backing cannot be allocated yields no
    descriptor and one error message. *)
Lemma encodeFeatureIdTexture_allocation_failure `{E : Engine} tex m st :
  GetFeatureIDTextureStatus tex = ECesiumFeatureIdTextureStatus.Valid ->
  m !! getImage (getFeatureIdTextureView tex) = None ->
  createTexturePlatformData
    (width (image (getFeatureIdTextureView tex)))
    (height (image (getFeatureIdTextureView tex)))
    EPixelFormat.PF_R8G8B8A8_UINT = None ->
  exists m' st' text,
    encodeFeatureIdTexture tex m st = (None, m', st', [(ELogVerbosity.Error, text)]).
Proof.
  intros Hvalid Hmiss Halloc. unfold encodeFeatureIdTexture.
  rewrite Hvalid, Hmiss. simpl. rewrite Halloc. eauto.
Qed.

(** C4 (the code at the failing input): the table [exampleTable] is encoded
    for [height] while no texture backing can be allocated.  The error is
    logged, but the property is not omitted: the result still lists
    [height], holding a texture object without pixel data and none of the
    requested offset. *)
Theorem C4_failed_property_stays_in_output :
  let r := @encodePropertyTableAnyThreadPart exhaustedEngine heightOnly exampleTable [] in
  ept_properties r.1.1 =
    [{| eptp_name := "height"%string; eptp_pTexture := Some O;
        eptp_type := ECesiumEncodedMetadataType.Scalar;
        offset := MetadataValue_Empty; scale := MetadataValue_Empty;
        noData := MetadataValue_Empty; defaultValue := MetadataValue_Empty |}] /\
  pTextureData <$> deref r.1.2 (Some O) = Some None /\
  r.2.*1 = [ELogVerbosity.Error].
Proof. vm_compute. repeat split. Qed.

(** ** Worked examples *)

(** Ten rows of a Uint8 scalar are encoded into a 4 x 4 texture with one
    byte per texel; only the offset the description flags is copied. *)
Example encode_height_end_to_end :
  let r := @encodePropertyTableAnyThreadPart idealEngine heightOnly exampleTable [] in
  ept_properties r.1.1 = [encodedHeight] /\
  (Mips <$> (deref r.1.2 (Some O) ≫= pTextureData)) =
    Some [{| mip_SizeX := 4; mip_SizeY := 4;
             BulkData := replicate 16 Byte.x00 |}] /\
  r.2 = [].
Proof. vm_compute. repeat split. Qed.

(** The cache entry of an image is registered before the allocation is
    checked.  When the allocation fails, a later set reading the same image
    finds the entry, pins a dead object and is encoded with a null texture
    pointer. *)
Example failed_allocation_leaves_cache_entry :
  let r := @encodePrimitiveFeaturesAnyThreadPart exhaustedEngine
             sharedImageDescription sharedImageFeatures [] in
  (index <$> featureIdSets r.1.1) = [1] /\
  (fmap pTexture <$> (texture <$> featureIdSets r.1.1)) = [Some None] /\
  r.1.2 = [None] /\
  r.2.*1 = [ELogVerbosity.Error].
Proof. vm_compute. repeat split. Qed.

(* ===================================================================== *)
(** * Further properties of the encoder *)
(* ===================================================================== *)

(** ** createHlslSafeName, continued *)

Lemma sanitizeTailChar_id (c : ascii) : isTailChar c = true -> sanitizeTailChar c = c.
Proof.
  intros Hc. unfold sanitizeTailChar. rewrite FindChar_tail_class in Hc.
  destruct (FindChar identifierTailChar c); [reflexivity | discriminate Hc].
Qed.

Lemma sanitizeTailChar_invalid (c : ascii) :
  isTailChar c = false -> sanitizeTailChar c = "_"%char.
Proof.
  intros Hc. unfold sanitizeTailChar. rewrite FindChar_tail_class in Hc.
  destruct (FindChar identifierTailChar c); [discriminate Hc | reflexivity].
Qed.

Lemma map_sanitize_id (s : FString) :
  all_chars isTailChar s = true -> map_chars sanitizeTailChar s = s.
Proof.
  induction s as [|c s IH]; simpl; [reflexivity|].
  intros [Hc Hs]%andb_prop. now rewrite sanitizeTailChar_id, IH.
Qed.

Lemma map_chars_append f (a b : FString) :
  map_chars f (a +:+ b) = map_chars f a +:+ map_chars f b.
Proof.
  induction a as [|c a IH]; [reflexivity|].
  rewrite append_cons. simpl. rewrite append_cons. now rewrite IH.
Qed.

Lemma map_chars_length f (s : FString) :
  String.length (map_chars f s) = String.length s.
Proof. induction s as [|c s IH]; simpl; [reflexivity | now rewrite IH]. Qed.

Lemma head_is_tail_char (c : ascii) : isHeadChar c = true -> isTailChar c = true.
Proof. intros H. unfold isTailChar. now rewrite H. Qed.

Lemma createHlslSafeName_fixes_safe (s : FString) :
  isShaderSafe s = true -> createHlslSafeName s = s.
Proof.
  intros Hsafe. rewrite createHlslSafeName_cases.
  destruct s as [|c rest]; [discriminate Hsafe|].
  simpl in Hsafe. apply andb_prop in Hsafe as [Hc Hrest].
  rewrite FindChar_head_class in Hc.
  destruct (FindChar identifierHeadChar c); [|discriminate Hc].
  now rewrite map_sanitize_id.
Qed.

(** X1: whatever the raw name, [createHlslSafeName] returns a non-empty
    identifier with head in [A-Za-z_] and tail in [A-Za-z0-9_]; a name that
    already is such an identifier comes back unchanged, so applying the
    function twice is the same as applying it once. *)
Theorem createHlslSafeName_identifier_and_idempotent :
  (forall rawName, isShaderSafe (createHlslSafeName rawName) = true) /\
  (forall safeName, isShaderSafe safeName = true ->
                    createHlslSafeName safeName = safeName) /\
  (forall rawName,
      createHlslSafeName (createHlslSafeName rawName) = createHlslSafeName rawName).
Proof.
  split; [exact createHlslSafeName_safe|].
  split; [exact createHlslSafeName_fixes_safe|].
  intros rawName. apply createHlslSafeName_fixes_safe, createHlslSafeName_safe.
Qed.

Lemma createHlslSafeName_identifier_and_idempotent_witness :
  createHlslSafeName "roof_Color2"%string = "roof_Color2"%string.
Proof.
  apply (proj1 (proj2 createHlslSafeName_identifier_and_idempotent)).
  reflexivity.
Defined.

(** X2: the safe name is as long as the raw name when the raw name starts
    with a letter or underscore, one character longer when it starts with
    anything else, and one character long when the raw name is empty. *)
Theorem createHlslSafeName_length (rawName : FString) :
  Len (createHlslSafeName rawName) =
    match rawName with
    | EmptyString => 1%nat
    | String c _ => if isHeadChar c then Len rawName else S (Len rawName)
    end.
Proof.
  rewrite createHlslSafeName_cases. destruct rawName as [|c rest]; [reflexivity|].
  rewrite FindChar_head_class. unfold Len.
  destruct (FindChar identifierHeadChar c); simpl; now rewrite map_chars_length.
Qed.

(** X3: a raw name made of letters, digits and underscores whose first
    character is not a letter or underscore (a digit, then) is kept whole,
    with one underscore put in front. *)
Theorem createHlslSafeName_digit_head (c : ascii) (rest : FString) :
  isHeadChar c = false ->
  all_chars isTailChar (String c rest) = true ->
  createHlslSafeName (String c rest) = String "_"%char (String c rest).
Proof.
  intros Hhead Htail. rewrite createHlslSafeName_cases.
  rewrite FindChar_head_class in Hhead.
  destruct (FindChar identifierHeadChar c); [discriminate Hhead|].
  now rewrite map_sanitize_id.
Qed.

Lemma createHlslSafeName_digit_head_witness :
  createHlslSafeName "3d_tiles"%string = "_3d_tiles"%string.
Proof.
  apply (createHlslSafeName_digit_head "3"%char "d_tiles"%string); reflexivity.
Defined.

(** X4: names clash after sanitizing: two raw names that differ only in
    which disallowed character stands at some position after the first get
    the same safe name. *)
Theorem createHlslSafeName_clash (h c1 c2 : ascii) (before after : FString) :
  isTailChar c1 = false ->
  isTailChar c2 = false ->
  createHlslSafeName (String h (before +:+ String c1 after)) =
  createHlslSafeName (String h (before +:+ String c2 after)).
Proof.
  intros H1 H2. rewrite !createHlslSafeName_cases.
  assert (Hsame : map_chars sanitizeTailChar (before +:+ String c1 after)
                  = map_chars sanitizeTailChar (before +:+ String c2 after)).
  { rewrite !map_chars_append. simpl.
    now rewrite (sanitizeTailChar_invalid c1), (sanitizeTailChar_invalid c2). }
  destruct (FindChar identifierHeadChar h); simpl; now rewrite Hsame.
Qed.

Lemma createHlslSafeName_clash_witness :
  createHlslSafeName "roof color"%string = createHlslSafeName "roof-color"%string.
Proof.
  apply (createHlslSafeName_clash "r"%char " "%char "-"%char "oof"%string "color"%string);
    reflexivity.
Defined.

(** ** Pixel formats *)

(** X5: [getPixelFormat] answers [PF_Unknown] exactly when the encoded type
    or the encoded component type is None, and exactly then the pixel size
    is 0.  Otherwise the pixel size is 1, 4 or 16 bytes, and the three
    vector types of one component type share format and size. *)
Theorem getPixelFormat_unknown_iff_unspecified :
  (forall d,
      format (getPixelFormat d) = EPixelFormat.PF_Unknown <->
      (ed_Type d = ECesiumEncodedMetadataType.None \/
       ed_ComponentType d = ECesiumEncodedMetadataComponentType.None)) /\
  (forall d,
      format (getPixelFormat d) = EPixelFormat.PF_Unknown <->
      pixelSize (getPixelFormat d) = 0) /\
  (forall d,
      format (getPixelFormat d) <> EPixelFormat.PF_Unknown ->
      pixelSize (getPixelFormat d) = 1 \/ pixelSize (getPixelFormat d) = 4 \/
      pixelSize (getPixelFormat d) = 16) /\
  (forall d1 d2,
      ed_ComponentType d1 = ed_ComponentType d2 ->
      ed_Type d1 <> ECesiumEncodedMetadataType.None ->
      ed_Type d1 <> ECesiumEncodedMetadataType.Scalar ->
      ed_Type d2 <> ECesiumEncodedMetadataType.None ->
      ed_Type d2 <> ECesiumEncodedMetadataType.Scalar ->
      getPixelFormat d1 = getPixelFormat d2).
Proof.
  repeat apply conj.
  - intros [t c v]. unfold getPixelFormat. simpl.
    destruct c, t; simpl; split; intros H; try discriminate H; auto;
      destruct H as [H|H]; discriminate H.
  - intros [t c v]. unfold getPixelFormat. simpl.
    destruct c, t; simpl; split; intros H; try discriminate H; auto.
  - intros [t c v]. unfold getPixelFormat. simpl.
    destruct c, t; simpl; intros H; auto; contradiction.
  - intros [t1 c1 v1] [t2 c2 v2]. unfold getPixelFormat. simpl.
    intros <- H1 H1' H2 H2'.
    destruct c1, t1, t2; try contradiction; reflexivity.
Qed.

Lemma getPixelFormat_unknown_iff_unspecified_witness :
  pixelSize (getPixelFormat
    {| ed_Type := ECesiumEncodedMetadataType.Vec3;
       ed_ComponentType := ECesiumEncodedMetadataComponentType.Float;
       Conversion := ECesiumEncodedMetadataConversion.Coerce |}) = 16.
Proof.
  destruct (proj1 (proj2 (proj2 getPixelFormat_unknown_iff_unspecified))
              {| ed_Type := ECesiumEncodedMetadataType.Vec3;
                 ed_ComponentType := ECesiumEncodedMetadataComponentType.Float;
                 Conversion := ECesiumEncodedMetadataConversion.Coerce |})
    as [H|[H|H]].
  - simpl. intros H. discriminate H.
  - discriminate H.
  - discriminate H.
  - exact H.
Defined.

(** ** Validation of a property description *)

Lemma isValid_accepts_iff d property :
  (isValidPropertyTablePropertyDescription d property).1 = true <->
  (ed_Type (EncodingDetails d) <> ECesiumEncodedMetadataType.None /\
   ed_ComponentType (EncodingDetails d) <> ECesiumEncodedMetadataComponentType.None /\
   bIsNormalized (PropertyDetails d) = IsNormalized property /\
   (IsNormalized property = true ->
    vt_ComponentType (GetValueType property) = ECesiumMetadataComponentType.Uint8)).
Proof.
  unfold isValidPropertyTablePropertyDescription.
  case_bool_decide as Ht;
    [simpl; split; [intros H; discriminate H | intros (H & _); contradiction]|].
  case_bool_decide as Hc;
    [simpl; split; [intros H; discriminate H | intros (_ & H & _); contradiction]|].
  cbv zeta.
  destruct (Bool.eqb (bIsNormalized (PropertyDetails d)) (IsNormalized property)) eqn:Heq;
    simpl.
  - apply Bool.eqb_prop in Heq.
    destruct (IsNormalized property) eqn:Hp; simpl.
    + case_bool_decide as Hu; simpl.
      * split; [intros H; discriminate H|].
        intros (_ & _ & _ & H). specialize (H eq_refl). contradiction.
      * split; [|reflexivity]. intros _. repeat split; try assumption.
        intros _. destruct (decide (vt_ComponentType (GetValueType property)
                                    = ECesiumMetadataComponentType.Uint8));
          [assumption | contradiction].
    + split; [|reflexivity]. intros _. repeat split; try assumption.
      intros H. discriminate H.
  - apply Bool.eqb_false_iff in Heq.
    split; [intros H; discriminate H | intros (_ & _ & H & _); contradiction].
Qed.

Lemma isValid_log_when_valid d property :
  (isValidPropertyTablePropertyDescription d property).1 = true ->
  length (isValidPropertyTablePropertyDescription d property).2 =
    if bool_decide (GetValueType property = PropertyDetails_GetValueType (PropertyDetails d))
    then 0%nat else 1%nat.
Proof.
  unfold isValidPropertyTablePropertyDescription.
  case_bool_decide as Ht; [intros Hf; discriminate Hf|].
  case_bool_decide as Hc; [intros Hf; discriminate Hf|].
  cbv zeta.
  destruct (negb _); [intros Hf; discriminate Hf|].
  destruct (_ && _); [intros Hf; discriminate Hf|].
  intros _. simpl.
  case_bool_decide as Hne; case_bool_decide as Heq; try reflexivity; contradiction.
Qed.

Lemma isValid_logs_warnings d property entry :
  entry ∈ (isValidPropertyTablePropertyDescription d property).2 ->
  entry.1 = ELogVerbosity.Warning.
Proof.
  unfold isValidPropertyTablePropertyDescription.
  repeat (case_bool_decide || case_match); simpl;
    intros Hin;
    repeat (apply elem_of_cons in Hin as [->|Hin]; [reflexivity|]);
    now apply not_elem_of_nil in Hin.
Qed.

(** X6: [isValidPropertyTablePropertyDescription] accepts exactly when the
    encoded type and component type are given, the description's
    normalization flag equals the live one, and a normalized live property
    has Uint8 components.  Whether the declared value type equals the live
    one plays no part: a mismatch only adds one warning.  Nothing it logs is
    an error. *)
Theorem isValidPropertyTablePropertyDescription_spec d property :
  ((isValidPropertyTablePropertyDescription d property).1 = true <->
   (ed_Type (EncodingDetails d) <> ECesiumEncodedMetadataType.None /\
    ed_ComponentType (EncodingDetails d) <> ECesiumEncodedMetadataComponentType.None /\
    bIsNormalized (PropertyDetails d) = IsNormalized property /\
    (IsNormalized property = true ->
     vt_ComponentType (GetValueType property) = ECesiumMetadataComponentType.Uint8))) /\
  ((isValidPropertyTablePropertyDescription d property).1 = true ->
   length (isValidPropertyTablePropertyDescription d property).2 =
     if bool_decide (GetValueType property = PropertyDetails_GetValueType (PropertyDetails d))
     then 0%nat else 1%nat) /\
  (forall entry, entry ∈ (isValidPropertyTablePropertyDescription d property).2 ->
                 entry.1 = ELogVerbosity.Warning).
Proof.
  split; [apply isValid_accepts_iff|].
  split; [apply isValid_log_when_valid|].
  intros entry. apply isValid_logs_warnings.
Qed.

Lemma isValidPropertyTablePropertyDescription_spec_witness :
  (isValidPropertyTablePropertyDescription
     (wantedProperty "height" ECesiumMetadataComponentType.Uint16 false)
     (liveProperty ECesiumMetadataComponentType.Uint8 false)).1 = true /\
  length (isValidPropertyTablePropertyDescription
     (wantedProperty "height" ECesiumMetadataComponentType.Uint16 false)
     (liveProperty ECesiumMetadataComponentType.Uint8 false)).2 = 1%nat.
Proof.
  pose proof (isValidPropertyTablePropertyDescription_spec
                (wantedProperty "height" ECesiumMetadataComponentType.Uint16 false)
                (liveProperty ECesiumMetadataComponentType.Uint8 false))
    as (Hiff & Hlog & _).
  assert (Hvalid : (isValidPropertyTablePropertyDescription
     (wantedProperty "height" ECesiumMetadataComponentType.Uint16 false)
     (liveProperty ECesiumMetadataComponentType.Uint8 false)).1 = true).
  { apply Hiff. simpl. repeat split; try (intros H; discriminate H). }
  split; [exact Hvalid | exact (Hlog Hvalid)].
Defined.

(** ** Texture dimension, continued *)

Lemma textureDimension_bounds (n : Z) :
  0 <= n <= 2 ^ 52 ->
  0 <= textureDimension n /\
  n <= textureDimension n * textureDimension n /\
  (1 <= n -> (textureDimension n - 1) * (textureDimension n - 1) < n).
Proof.
  intros Hn. rewrite textureDimension_cases by assumption.
  destruct (glm_sqrt_bounds n Hn) as [Hs Hsq].
  destruct (Z.eqb_spec (glm_sqrt n * glm_sqrt n) n) as [Heq|Hne].
  - repeat split; [lia | lia | intros H1; nia].
  - repeat split; [lia | nia | intros H1; nia].
Qed.

(** X7: up to 2^52 rows, a table whose row count is a perfect square k * k
    gets a texture of side exactly k, and more rows never give a smaller
    texture.  The limit is there for a reason: the root is taken in double
    precision, and from 67108865 * 67108865 - 1 rows to one row more the
    side goes down from 67108866 to 67108865. *)
Theorem textureDimension_exact_and_monotone :
  (forall k, 0 <= k <= 2 ^ 26 -> textureDimension (k * k) = k) /\
  (forall n m, 0 <= n -> n <= m -> m <= 2 ^ 52 ->
               textureDimension n <= textureDimension m) /\
  (textureDimension (67108865 * 67108865 - 1) = 67108866 /\
   textureDimension (67108865 * 67108865) = 67108865).
Proof.
  split; [|split].
  - intros k Hk.
    assert (Hn : 0 <= k * k <= 2 ^ 52).
    { change (2 ^ 52) with (2 ^ 26 * 2 ^ 26). nia. }
    destruct (textureDimension_bounds (k * k) Hn) as (Hd0 & Hge & Hlt).
    destruct (Z.eq_dec k 0) as [->|Hk0]; [reflexivity|].
    assert (H1 : 1 <= k * k) by nia. specialize (Hlt H1). nia.
  - intros n m Hn Hnm Hm.
    destruct (textureDimension_bounds n ltac:(lia)) as (Hdn & Hgen & Hltn).
    destruct (textureDimension_bounds m ltac:(lia)) as (Hdm & Hgem & Hltm).
    destruct (Z.eq_dec n 0) as [->|Hn0]; [exact Hdm|].
    assert (H1 : 1 <= n) by lia. specialize (Hltn H1).
    destruct (Z_le_gt_dec (textureDimension n) (textureDimension m)) as [|Hgt];
      [assumption|].
    exfalso. nia.
  - split; vm_compute; reflexivity.
Qed.

Lemma textureDimension_exact_and_monotone_witness :
  textureDimension (300 * 300) = 300 /\
  textureDimension 10 <= textureDimension 17.
Proof.
  split.
  - apply (proj1 textureDimension_exact_and_monotone). lia.
  - apply (proj1 (proj2 textureDimension_exact_and_monotone)); lia.
Defined.

(** ** Feature ID sets, continued *)

Section FeaturePassFacts.
Context `{E : Engine}.

(** Induction over the loop of [encodePrimitiveFeaturesAnyThreadPart]. *)
Lemma features_loop_ind (P : nat -> FeaturesPass -> Prop) descs
    (all : list FCesiumFeatureIdSet) :
  (forall i set s, all !! i = Some set -> P i s ->
                   P (S i) (encodePrimitiveFeatures_body descs i set s)) ->
  forall rest i s,
    (forall k set, rest !! k = Some set -> all !! (i + k)%nat = Some set) ->
    P i s ->
    P (i + length rest)%nat (encodePrimitiveFeatures_loop descs i rest s).
Proof.
  intros Hstep rest. induction rest as [|set rest IH]; intros i s Hall HP; simpl.
  - now rewrite Nat.add_0_r.
  - replace (i + S (length rest))%nat with (S i + length rest)%nat by lia.
    apply IH.
    + intros k set' Hk. replace (S i + k)%nat with (i + S k)%nat by lia.
      now apply Hall.
    + apply Hstep; [|exact HP].
      specialize (Hall O set eq_refl). now rewrite Nat.add_0_r in Hall.
Qed.

Lemma features_pass_ind (P : nat -> FeaturesPass -> Prop) desc features store :
  (forall i set s, GetFeatureIDSets features !! i = Some set -> P i s ->
       P (S i) (encodePrimitiveFeatures_body (FeatureIdSets desc) i set s)) ->
  P O {| featureIdTextureCounter := 0; featureIdTextureMap := ∅;
         fp_store := store; fp_result := []; fp_log := [] |} ->
  P (length (GetFeatureIDSets features))
    (encodePrimitiveFeatures_pass desc features store).
Proof.
  intros Hstep H0. unfold encodePrimitiveFeatures_pass.
  apply (features_loop_ind P (FeatureIdSets desc) (GetFeatureIDSets features) Hstep
           (GetFeatureIDSets features) O); [|exact H0].
  intros k set Hk. exact Hk.
Qed.

(** An iteration appends at most one descriptor, stamped with its index. *)
Lemma features_body_result descs i set s :
  fp_result (encodePrimitiveFeatures_body descs i set s) = fp_result s \/
  exists e, fp_result (encodePrimitiveFeatures_body descs i set s) = fp_result s ++ [e]
            /\ index e = Z.of_nat i.
Proof.
  unfold encodePrimitiveFeatures_body.
  destruct (getNameForFeatureIDSet set (featureIdTextureCounter s)) as [n c].
  destruct (FindByPredicate _ descs) as [d|]; [|now left].
  destruct (match GetFeatureIDSetType set with
            | ECesiumFeatureIdSetType.None => _
            | _ => _ end) as [[[r m] st] l].
  destruct r as [r|]; simpl; [right | now left].
  eexists. split; reflexivity.
Qed.

Lemma features_body_shape descs i set s e :
  e ∈ fp_result (encodePrimitiveFeatures_body descs i set s) ->
  e ∈ fp_result s \/ descriptorShape set e.
Proof.
  unfold encodePrimitiveFeatures_body, descriptorShape.
  destruct (getNameForFeatureIDSet set (featureIdTextureCounter s)) as [n c].
  destruct (FindByPredicate _ descs) as [d|]; [|now left].
  unfold GetFeatureIDSetType, GetAsFeatureIDAttribute, GetAsFeatureIDTexture.
  destruct (featureID set) as [|a|tex|].
  - now left.
  - unfold encodeFeatureIdAttribute. case_bool_decide as Hst; simpl; [now left|].
    intros [He | ->%list_elem_of_singleton]%elem_of_app; [now left|].
    right. simpl. split; [|split; reflexivity].
    destruct (decide (GetFeatureIDAttributeStatus a
                      = ECesiumFeatureIdAttributeStatus.Valid)); [assumption|contradiction].
  - unfold encodeFeatureIdTexture. case_bool_decide as Hst; simpl; [now left|].
    assert (Hvalid : GetFeatureIDTextureStatus tex
                     = ECesiumFeatureIdTextureStatus.Valid).
    { destruct (decide (GetFeatureIDTextureStatus tex
                        = ECesiumFeatureIdTextureStatus.Valid)); [assumption|contradiction]. }
    destruct (featureIdTextureMap s !! _) as [h|]; simpl.
    + intros [He | ->%list_elem_of_singleton]%elem_of_app; [now left|].
      right. simpl. repeat split; eauto.
    + destruct (createTexturePlatformData _ _ _); simpl; [|now left].
      intros [He | ->%list_elem_of_singleton]%elem_of_app; [now left|].
      right. simpl. repeat split; eauto.
  - simpl. intros [He | ->%list_elem_of_singleton]%elem_of_app; [now left|].
    right. simpl. split; reflexivity.
Qed.

End FeaturePassFacts.

(** X8: every encoded feature ID set comes from a live set that is a valid
    attribute, a valid texture or implicit; it carries that set's position
    and null feature ID, the name and property table name of the first
    description of its resolved name, the attribute index for an attribute,
    channels and texture coordinate set for a texture, and neither for an
    implicit set.  Sets of no type or of invalid status are never encoded. *)
Theorem encoded_feature_id_set_fields (E : Engine) desc features store e :
  e ∈ featureIdSets (encodePrimitiveFeaturesAnyThreadPart desc features store).1.1 ->
  exists set d,
    0 <= index e /\
    GetFeatureIDSets features !! Z.to_nat (index e) = Some set /\
    FindByPredicate (fun x => FString_eq (fisd_Name x) (name e)) (FeatureIdSets desc)
      = Some d /\
    name e = fisd_Name d /\
    propertyTableName e = fisd_PropertyTableName d /\
    nullFeatureId e = GetNullFeatureID set /\
    descriptorShape set e.
Proof.
  unfold encodePrimitiveFeaturesAnyThreadPart. simpl.
  pose proof (features_pass_ind
    (fun _ s => forall e, e ∈ fp_result s ->
       exists set d,
         0 <= index e /\
         GetFeatureIDSets features !! Z.to_nat (index e) = Some set /\
         FindByPredicate (fun x => FString_eq (fisd_Name x) (name e))
           (FeatureIdSets desc) = Some d /\
         name e = fisd_Name d /\
         propertyTableName e = fisd_PropertyTableName d /\
         nullFeatureId e = GetNullFeatureID set /\
         descriptorShape set e) desc features store) as Hind.
  apply Hind; clear Hind.
  - intros i set s Hset IH e' He'.
    pose proof (features_body_entry _ _ _ _ _ He')
      as [Hold | (Hidx & Hname & Hnull & d & Hd & Hpt)]; [now apply IH|].
    pose proof (features_body_shape _ _ _ _ _ He') as [Hold | Hshape];
      [now apply IH|].
    exists set, d. rewrite Hidx, Nat2Z.id.
    pose proof (FindByPredicate_some _ _ _ Hd) as [_ Heq%FString_eq_true].
    repeat split; auto; lia.
  - simpl. intros e' He'. now apply not_elem_of_nil in He'.
Qed.

Lemma encoded_feature_id_set_fields_witness :
  exists set d,
    0 <= index sharedImageSecond /\
    GetFeatureIDSets sharedImageFeatures !! Z.to_nat (index sharedImageSecond)
      = Some set /\
    FindByPredicate (fun x => FString_eq (fisd_Name x) (name sharedImageSecond))
      (FeatureIdSets sharedImageDescription) = Some d /\
    name sharedImageSecond = fisd_Name d /\
    propertyTableName sharedImageSecond = fisd_PropertyTableName d /\
    nullFeatureId sharedImageSecond = GetNullFeatureID set /\
    descriptorShape set sharedImageSecond.
Proof.
  apply (encoded_feature_id_set_fields idealEngine sharedImageDescription
           sharedImageFeatures []).
  vm_compute. apply list_elem_of_further, list_elem_of_here.
Defined.

(** X9: the encoded sets are in the order of the live sets: their positions
    strictly increase along the result, each lies within the live list, and
    there are at most as many encoded sets as live ones. *)
Theorem encoded_feature_id_sets_in_live_order (E : Engine) desc features store :
  let out := featureIdSets (encodePrimitiveFeaturesAnyThreadPart desc features store).1.1 in
  (forall a b ea eb,
      (a < b)%nat -> out !! a = Some ea -> out !! b = Some eb ->
      index ea < index eb) /\
  (forall e, e ∈ out ->
      0 <= index e < Z.of_nat (length (GetFeatureIDSets features))) /\
  (length out <= length (GetFeatureIDSets features))%nat.
Proof.
  unfold encodePrimitiveFeaturesAnyThreadPart. simpl.
  pose proof (features_pass_ind
    (fun i s =>
       (forall a b ea eb,
           (a < b)%nat -> fp_result s !! a = Some ea -> fp_result s !! b = Some eb ->
           index ea < index eb) /\
       (forall e, e ∈ fp_result s -> 0 <= index e < Z.of_nat i) /\
       (length (fp_result s) <= i)%nat) desc features store) as Hind.
  apply Hind; clear Hind.
  - intros i set s Hset (Hsorted & Hrange & Hlen).
    destruct (features_body_result (FeatureIdSets desc) i set s)
      as [Hsame | (e & Happ & Hidx)].
    + rewrite Hsame. split; [exact Hsorted|]. split; [|lia].
      intros e He. specialize (Hrange e He). lia.
    + rewrite Happ. split; [|split].
      * intros a b ea eb Hab Ha Hb.
        assert (Hb' : (b < length (fp_result s ++ [e]))%nat)
          by (apply lookup_lt_Some in Hb; exact Hb).
        rewrite length_app in Hb'. simpl in Hb'.
        rewrite lookup_app_l in Ha by lia.
        destruct (decide (b < length (fp_result s))%nat) as [Hlt|Hge].
        -- rewrite lookup_app_l in Hb by lia. eauto.
        -- rewrite lookup_app_r in Hb by lia.
           replace (b - length (fp_result s))%nat with O in Hb by lia.
           simpl in Hb. injection Hb as <-.
           assert (Hea : ea ∈ fp_result s) by (eapply list_elem_of_lookup_2; eauto).
           specialize (Hrange _ Hea). lia.
      * intros e' [He' | ->%list_elem_of_singleton]%elem_of_app.
        -- specialize (Hrange _ He'). lia.
        -- lia.
      * rewrite length_app. simpl. lia.
  - simpl. split; [|split; [|lia]].
    + intros a b ea eb _ Ha. rewrite lookup_nil in Ha. discriminate Ha.
    + intros e He. now apply not_elem_of_nil in He.
Qed.

Lemma FindByPredicate_nil {A} (p : A -> bool) : FindByPredicate p [] = None.
Proof. reflexivity. Qed.

(** X10: when the description asks for no feature ID set, nothing is
    encoded, nothing is allocated and nothing is logged, whatever the live
    sets are. *)
Theorem encode_features_without_description (E : Engine) desc features store :
  FeatureIdSets desc = [] ->
  encodePrimitiveFeaturesAnyThreadPart desc features store
  = ({| featureIdSets := [] |}, store, []).
Proof.
  intros Hempty. unfold encodePrimitiveFeaturesAnyThreadPart.
  pose proof (features_pass_ind
    (fun _ s => fp_result s = [] /\ fp_store s = store /\ fp_log s = [])
    desc features store) as Hind.
  destruct Hind as (Hr & Hs & Hl).
  - intros i set s _ (Hr & Hs & Hl).
    destruct (features_body_not_wanted (FeatureIdSets desc) i set s)
      as (Hr' & Hl' & Hs' & _).
    { rewrite Hempty. intros d Hd. now apply not_elem_of_nil in Hd. }
    rewrite Hr', Hl', Hs'. auto.
  - simpl. auto.
  - now rewrite Hr, Hs, Hl.
Qed.

Lemma encode_features_without_description_witness :
  @encodePrimitiveFeaturesAnyThreadPart idealEngine {| FeatureIdSets := [] |}
     sharedImageFeatures []
  = ({| featureIdSets := [] |}, [], []).
Proof.
  apply (encode_features_without_description idealEngine). reflexivity.
Defined.

Section FeatureStoreFacts.
Context `{E : Engine}.

(** The four ways [encodeFeatureIdTexture] can go. *)
Lemma encodeFeatureIdTexture_cases tex (m : gmap nat nat) (st : Store) r m' st' l :
  encodeFeatureIdTexture tex m st = (r, m', st', l) ->
  let img := getImage (getFeatureIdTextureView tex) in
  let allocated :=
    createTexturePlatformData (width (image (getFeatureIdTextureView tex)))
      (height (image (getFeatureIdTextureView tex))) EPixelFormat.PF_R8G8B8A8_UINT in
  (r = None /\ m' = m /\ st' = st /\ exists text, l = [(ELogVerbosity.Warning, text)]) \/
  (exists h, m !! img = Some h /\ is_Some r /\ m' = m /\ st' = st /\ l = []) \/
  (m !! img = None /\ allocated = None /\ r = None /\
   m' = <[img := length st]> m /\ st' !! length st = Some None /\
   extends st st' /\ length st' = S (length st) /\
   exists text, l = [(ELogVerbosity.Error, text)]) \/
  (exists data,
     m !! img = None /\ allocated = Some data /\ is_Some r /\
     m' = <[img := length st]> m /\
     st' !! length st =
       Some (Some (Mips_Add
                     {| mip_SizeX := width (image (getFeatureIdTextureView tex));
                        mip_SizeY := height (image (getFeatureIdTextureView tex));
                        BulkData := pixelData (image (getFeatureIdTextureView tex)) |}
                     (set_sampler TextureAddress.TA_Clamp TextureAddress.TA_Clamp
                        TextureFilter.TF_Nearest
                        (set_pTextureData (Some data)
                           (set_textureSource LegacyTextureSource
                              newLoadedTextureResult))))) /\
     extends st st' /\ length st' = S (length st) /\ l = []).
Proof.
  intros Hrun img allocated. unfold encodeFeatureIdTexture in Hrun.
  destruct (bool_decide _) in Hrun.
  { left. simplify_eq. eauto 10. }
  fold img in Hrun.
  destruct (m !! img) as [h|] eqn:Hlook.
  { right; left. simplify_eq. exists h. eauto 10. }
  unfold MakeShared in Hrun. simpl in Hrun. fold allocated in Hrun.
  assert (Hext : forall f g k, extends st
            (modify (length st) f (modify (length st) g
               (modify (length st) k (st ++ [Some newLoadedTextureResult]))))).
  { intros. repeat (apply extends_modify; [|lia]). apply (extends_MakeShared st). }
  destruct allocated as [data|] eqn:Halloc.
  - right; right; right. exists data. simplify_eq.
    split; [reflexivity|]. split; [reflexivity|]. split; [eauto|].
    split; [reflexivity|]. split; [|split; [|split; [|reflexivity]]].
    + do 4 (apply modify_alive). apply (MakeShared_alive st).
    + apply extends_modify; [apply Hext | lia].
    + rewrite !length_modify, length_app. simpl. lia.
  - right; right; left. simplify_eq.
    split; [reflexivity|]. split; [reflexivity|]. split; [reflexivity|].
    split; [reflexivity|]. split; [|split; [|split; [|eauto]]].
    + unfold release. apply list_lookup_insert_eq.
      rewrite !length_modify, length_app. simpl. lia.
    + apply extends_release; [apply Hext | lia].
    + unfold release. rewrite length_insert, !length_modify, length_app. simpl. lia.
Qed.

(** What an iteration does to cache, store and log: either it leaves cache
    and store alone and logs at most warnings, or it ran
    [encodeFeatureIdTexture] on a texture set. *)
Lemma features_body_state descs i set s :
  let s' := encodePrimitiveFeatures_body descs i set s in
  (featureIdTextureMap s' = featureIdTextureMap s /\ fp_store s' = fp_store s /\
   exists l, fp_log s' = fp_log s ++ l /\
             forall entry, entry ∈ l -> entry.1 = ELogVerbosity.Warning) \/
  (exists tex r l,
     featureID set = FeatureID_Texture tex /\
     encodeFeatureIdTexture tex (featureIdTextureMap s) (fp_store s)
       = (r, featureIdTextureMap s', fp_store s', l) /\
     fp_log s' = fp_log s ++ l).
Proof.
  unfold encodePrimitiveFeatures_body.
  destruct (getNameForFeatureIDSet set (featureIdTextureCounter s)) as [n c].
  assert (Hnil : forall entry : ELogVerbosity.t * string,
             entry ∈ @nil (ELogVerbosity.t * string) -> entry.1 = ELogVerbosity.Warning)
    by (intros entry H; now apply not_elem_of_nil in H).
  destruct (FindByPredicate _ descs) as [d|].
  2:{ left. simpl. repeat split. exists []. now rewrite app_nil_r. }
  unfold GetFeatureIDSetType, GetAsFeatureIDAttribute, GetAsFeatureIDTexture.
  destruct (featureID set) as [|a|tex|] eqn:Hkind.
  - left. simpl. repeat split. exists []. now rewrite app_nil_r.
  - left. unfold encodeFeatureIdAttribute. case_bool_decide; simpl.
    + repeat split. eexists. split; [reflexivity|].
      intros entry ->%list_elem_of_singleton. reflexivity.
    + repeat split. exists []. split; [reflexivity | exact Hnil].
  - right.
    destruct (encodeFeatureIdTexture tex (featureIdTextureMap s) (fp_store s))
      as [[[r m'] st'] l] eqn:Hrun.
    exists tex, r, l. destruct r; simpl; auto.
  - left. simpl. repeat split. exists []. split; [reflexivity | exact Hnil].
Qed.

End FeatureStoreFacts.

Section FeatureObjectFacts.
Context `{E : Engine}.

Lemma onlyWarnings_app (l1 l2 : Log) :
  onlyWarnings l1 -> onlyWarnings l2 -> onlyWarnings (l1 ++ l2).
Proof.
  intros H1 H2 entry [Hin|Hin]%elem_of_app; [now apply H1 | now apply H2].
Qed.

Lemma features_body_objects all store0 descs i set s :
  all !! i = Some set ->
  cacheInv all s ->
  extends store0 (fp_store s) ->
  cacheObjects all store0 s ->
  extends store0 (fp_store (encodePrimitiveFeatures_body descs i set s)) /\
  cacheObjects all store0 (encodePrimitiveFeatures_body descs i set s).
Proof.
  intros Hset [Hbound _] Hext Hobj.
  destruct (features_body_state descs i set s)
    as [(Hm & Hs & _) | (tex & r & l & Hkind & Hrun & _)].
  { unfold cacheObjects. rewrite Hm, Hs. split; assumption. }
  unfold cacheObjects.
  destruct (encodeFeatureIdTexture_cases _ _ _ _ _ _ _ Hrun)
    as [(_ & -> & -> & _)
       | [(h & _ & _ & -> & -> & _)
       | [(Hmiss & _ & _ & -> & Hdead & Hext' & Hlen & _)
       | (data & Hmiss & _ & _ & -> & Hnew & Hext' & Hlen & _)]]];
    try (split; assumption).
  - split; [eapply extends_trans; eassumption|].
    intros img h. rewrite lookup_insert. case_decide as Himg.
    + intros [= <-]. split; [destruct Hext; lia|].
      intros r0 Hr0. rewrite Hdead in Hr0. discriminate Hr0.
    + intros Hh. destruct (Hobj img h Hh) as [Hge Hgood]. split; [exact Hge|].
      intros r0 Hr0. apply Hgood. destruct Hext' as [_ Hsame].
      rewrite <- Hsame; [exact Hr0 | now apply Hbound in Hh].
  - split; [eapply extends_trans; eassumption|].
    intros img h. rewrite lookup_insert. case_decide as Himg.
    + intros [= <-]. split; [destruct Hext; lia|].
      intros r0 Hr0. rewrite Hnew in Hr0. injection Hr0 as <-.
      split.
      * unfold stagedTexture. simpl. repeat split; eauto.
      * exists set, tex. eexists. split; [eapply list_elem_of_lookup_2; eassumption|].
        split; [exact Hkind|]. split; [exact Himg|]. simpl.
        split; [reflexivity|]. simpl. apply last_snoc.
    + intros Hh. destruct (Hobj img h Hh) as [Hge Hgood]. split; [exact Hge|].
      intros r0 Hr0. apply Hgood. destruct Hext' as [_ Hsame].
      rewrite <- Hsame; [exact Hr0 | now apply Hbound in Hh].
Qed.

Lemma features_body_alive descs i set s :
  allocationNeverFails E ->
  cacheAlive s -> onlyWarnings (fp_log s) ->
  cacheAlive (encodePrimitiveFeatures_body descs i set s) /\
  onlyWarnings (fp_log (encodePrimitiveFeatures_body descs i set s)).
Proof.
  intros Halloc Halive Hlog.
  destruct (features_body_state descs i set s)
    as [(Hm & Hs & l & Hl & Hwarn) | (tex & r & l & Hkind & Hrun & Hl)].
  { unfold cacheAlive. rewrite Hm, Hs, Hl. split; [assumption|].
    now apply onlyWarnings_app. }
  unfold cacheAlive. rewrite Hl.
  destruct (encodeFeatureIdTexture_cases _ _ _ _ _ _ _ Hrun)
    as [(_ & -> & -> & text & ->)
       | [(h & _ & _ & -> & -> & ->)
       | [(_ & Hfail & _)
       | (data & Hmiss & _ & _ & -> & Hnew & Hext' & Hlen & ->)]]].
  - split; [assumption|]. apply onlyWarnings_app; [assumption|].
    intros entry ->%list_elem_of_singleton. reflexivity.
  - split; [assumption|]. now rewrite app_nil_r.
  - exfalso. exact (Halloc _ _ _ Hfail).
  - rewrite app_nil_r. split; [|assumption].
    intros img h. rewrite lookup_insert. case_decide as Himg.
    + intros [= <-]. eauto.
    + intros Hh. destruct (Halive img h Hh) as [r0 Hr0]. exists r0.
      destruct Hext' as [_ Hsame]. rewrite Hsame; [exact Hr0|].
      now apply lookup_lt_Some in Hr0.
Qed.

End FeatureObjectFacts.

(** X11: the any-thread part only allocates: every object that was in the
    store before the call is still there, unchanged.  A non-null texture
    pointer in the result points to an object allocated by this call that
    is alive, has platform data, the legacy source and clamped nearest
    sampling, and whose last mip has the size and, byte for byte, the pixel
    data of the image of a live texture set with the same image identity. *)
Theorem encoded_feature_textures_are_staged (E : Engine) desc features store :
  let r := encodePrimitiveFeaturesAnyThreadPart desc features store in
  extends store r.1.2 /\
  (forall e t p set,
      e ∈ featureIdSets r.1.1 ->
      texture e = Some t -> pTexture t = Some p ->
      GetFeatureIDSets features !! Z.to_nat (index e) = Some set ->
      (length store <= p)%nat /\
      exists obj img,
        sourceImage set = Some img /\
        r.1.2 !! p = Some (Some obj) /\
        stagedTexture obj /\
        holdsImageOf (GetFeatureIDSets features) img obj).
Proof.
  unfold encodePrimitiveFeaturesAnyThreadPart. simpl.
  pose proof (features_pass_ind
    (fun _ s => cacheInv (GetFeatureIDSets features) s /\
                extends store (fp_store s) /\
                cacheObjects (GetFeatureIDSets features) store s)
    desc features store) as Hind.
  destruct Hind as (Hinv & Hext & Hobj).
  - intros i set s Hset (Hinv & Hext & Hobj).
    split; [now apply features_body_inv|].
    now apply features_body_objects.
  - split; [|split; [apply extends_refl|]].
    + split; simpl.
      * intros img h Hh. rewrite lookup_empty in Hh. discriminate Hh.
      * intros e He. now apply not_elem_of_nil in He.
    + intros img h Hh. simpl in Hh. rewrite lookup_empty in Hh. discriminate Hh.
  - split; [exact Hext|].
    intros e t p set He Ht Hp Hset.
    destruct Hinv as [_ Hres].
    destruct (Hres e He) as (_ & set' & Hset' & Hshape).
    rewrite Hset in Hset'. injection Hset' as <-.
    unfold sourceImage.
    destruct (featureID set) as [|a|tex|]; try (rewrite Ht in Hshape; discriminate Hshape).
    destruct Hshape as (t' & h & Ht' & Hh & Hpin).
    rewrite Ht in Ht'. injection Ht' as <-.
    rewrite Hp in Hpin. unfold Pin in Hpin.
    destruct (fp_store _ !! h) as [[obj|]|] eqn:Hobj_at; try discriminate Hpin.
    injection Hpin as ->.
    destruct (Hobj _ _ Hh) as [Hge Hgood]. split; [exact Hge|].
    destruct (Hgood obj Hobj_at) as [Hstaged Hholds].
    exists obj, (getImage (getFeatureIdTextureView tex)). auto.
Qed.

Lemma encoded_feature_textures_are_staged_witness :
  exists obj img,
    sourceImage (textureSet "" 7%nat 1) = Some img /\
    (@encodePrimitiveFeaturesAnyThreadPart idealEngine sharedImageDescription
       sharedImageFeatures []).1.2 !! O = Some (Some obj) /\
    stagedTexture obj /\
    holdsImageOf (GetFeatureIDSets sharedImageFeatures) img obj.
Proof.
  apply (proj2 (encoded_feature_textures_are_staged idealEngine
                  sharedImageDescription sharedImageFeatures [])
           sharedImageSecond
           {| channels := [1]; pTexture := Some O; textureCoordinateSetIndex := 0 |}
           O (textureSet "" 7%nat 1)).
  - vm_compute. apply list_elem_of_further, list_elem_of_here.
  - reflexivity.
  - reflexivity.
  - reflexivity.
Defined.

(** X12: when no texture backing allocation fails, the feature ID pass logs
    nothing but warnings, and every texture descriptor it produces carries
    a non-null texture pointer. *)
Theorem encode_features_without_allocation_failure (E : Engine) desc features store :
  allocationNeverFails E ->
  let r := encodePrimitiveFeaturesAnyThreadPart desc features store in
  onlyWarnings r.2 /\
  (forall e t, e ∈ featureIdSets r.1.1 -> texture e = Some t -> is_Some (pTexture t)).
Proof.
  intros Halloc. unfold encodePrimitiveFeaturesAnyThreadPart. simpl.
  pose proof (features_pass_ind
    (fun _ s => cacheInv (GetFeatureIDSets features) s /\
                cacheAlive s /\ onlyWarnings (fp_log s))
    desc features store) as Hind.
  destruct Hind as (Hinv & Halive & Hlog).
  - intros i set s Hset (Hinv & Halive & Hlog).
    split; [now apply features_body_inv|].
    now apply features_body_alive.
  - split; [|split].
    + split; simpl.
      * intros img h Hh. rewrite lookup_empty in Hh. discriminate Hh.
      * intros e He. now apply not_elem_of_nil in He.
    + intros img h Hh. simpl in Hh. rewrite lookup_empty in Hh. discriminate Hh.
    + intros entry Hin. now apply not_elem_of_nil in Hin.
  - split; [exact Hlog|].
    intros e t He Ht. destruct Hinv as [_ Hres].
    destruct (Hres e He) as (_ & set & _ & Hshape).
    destruct (featureID set) as [|a|tex|]; try (rewrite Ht in Hshape; discriminate Hshape).
    destruct Hshape as (t' & h & Ht' & Hh & Hpin).
    rewrite Ht in Ht'. injection Ht' as <-.
    destruct (Halive _ _ Hh) as [obj Hobj].
    rewrite Hpin. unfold Pin. rewrite Hobj. eauto.
Qed.

Lemma encode_features_without_allocation_failure_witness :
  onlyWarnings (@encodePrimitiveFeaturesAnyThreadPart idealEngine
                  sharedImageDescription sharedImageFeatures []).2.
Proof.
  apply (encode_features_without_allocation_failure idealEngine
           sharedImageDescription sharedImageFeatures []).
  intros w h f H. discriminate H.
Defined.

(** ** One image, one texture *)

(** X26: when no texture backing allocation fails, two encoded feature ID
    sets that read the same source image hold the same non-null texture
    pointer.  It points to one object allocated by this call that is alive
    after it, has platform data, the legacy source and clamped nearest
    sampling, and holds a copy of the image; and the game-thread part hands
    it to [loadTextureGameThreadPart] exactly once. *)
Theorem shared_image_single_live_texture (E : Engine)
    desc features store (w : Realizations) e1 e2 set1 set2 img :
  allocationNeverFails E ->
  let r := encodePrimitiveFeaturesAnyThreadPart desc features store in
  e1 ∈ featureIdSets r.1.1 ->
  e2 ∈ featureIdSets r.1.1 ->
  GetFeatureIDSets features !! Z.to_nat (index e1) = Some set1 ->
  GetFeatureIDSets features !! Z.to_nat (index e2) = Some set2 ->
  sourceImage set1 = Some img ->
  sourceImage set2 = Some img ->
  exists t1 t2 a obj,
    texture e1 = Some t1 /\ texture e2 = Some t2 /\
    pTexture t1 = Some a /\ pTexture t2 = Some a /\
    (length store <= a)%nat /\
    r.1.2 !! a = Some (Some obj) /\
    stagedTexture obj /\
    holdsImageOf (GetFeatureIDSets features) img obj /\
    timesRealized (Some a)
      (attempted w (encodePrimitiveFeaturesGameThreadPart r.1.1 w).2) = 1%nat.
Proof.
  intros Halloc r He1 He2 Hset1 Hset2 Himg1 Himg2. subst r.
  revert He1 He2.
  unfold encodePrimitiveFeaturesAnyThreadPart. cbn [fst snd].
  pose proof (features_pass_ind
    (fun _ s => cacheInv (GetFeatureIDSets features) s /\
                extends store (fp_store s) /\
                cacheObjects (GetFeatureIDSets features) store s /\
                cacheAlive s /\ onlyWarnings (fp_log s))
    desc features store) as Hind.
  destruct Hind as (Hinv & _ & Hobj & Halive & _).
  - intros i set s Hset (Hinv & Hext & Hobj & Halive & Hlog).
    split; [now apply features_body_inv|].
    split; [now apply (features_body_objects (GetFeatureIDSets features) store)|].
    split; [now apply (features_body_objects (GetFeatureIDSets features) store)|].
    now apply features_body_alive.
  - split; [|split; [apply extends_refl|split; [|split]]].
    + split; simpl.
      * intros i h Hh. rewrite lookup_empty in Hh. discriminate Hh.
      * intros e He. now apply not_elem_of_nil in He.
    + intros i h Hh. simpl in Hh. rewrite lookup_empty in Hh. discriminate Hh.
    + intros i h Hh. simpl in Hh. rewrite lookup_empty in Hh. discriminate Hh.
    + intros entry Hin. now apply not_elem_of_nil in Hin.
  - intros He1 He2.
    destruct Hinv as [_ Hres].
    destruct (Hres e1 He1) as (_ & s1 & Hs1 & Hshape1).
    destruct (Hres e2 He2) as (_ & s2 & Hs2 & Hshape2).
    rewrite Hset1 in Hs1. injection Hs1 as <-.
    rewrite Hset2 in Hs2. injection Hs2 as <-.
    unfold sourceImage in Himg1, Himg2.
    destruct (featureID set1) as [|?|tex1|]; try discriminate Himg1.
    destruct (featureID set2) as [|?|tex2|]; try discriminate Himg2.
    injection Himg1 as Hi1. injection Himg2 as Hi2.
    destruct Hshape1 as (t1 & h1 & Ht1 & Hh1 & Hpin1).
    destruct Hshape2 as (t2 & h2 & Ht2 & Hh2 & Hpin2).
    rewrite Hi1 in Hh1. rewrite Hi2, Hh1 in Hh2. injection Hh2 as <-.
    destruct (Halive _ _ Hh1) as [obj Hat].
    destruct (Hobj _ _ Hh1) as [Hfresh Hgood].
    destruct (Hgood obj Hat) as [Hstaged Hholds].
    assert (Hp : Pin (fp_store (encodePrimitiveFeatures_pass desc features store)) h1
                 = Some h1) by (unfold Pin; now rewrite Hat).
    rewrite Hp in Hpin1, Hpin2.
    exists t1, t2, h1, obj.
    split; [exact Ht1|]. split; [exact Ht2|]. split; [exact Hpin1|].
    split; [exact Hpin2|]. split; [exact Hfresh|]. split; [exact Hat|].
    split; [exact Hstaged|]. split; [exact Hholds|].
    rewrite <- Hpin1.
    now apply (features_game_once _ w e1 t1).
Qed.

Lemma shared_image_single_live_texture_witness :
  exists t1 t2 a obj,
    texture sharedImageFirst = Some t1 /\ texture sharedImageSecond = Some t2 /\
    pTexture t1 = Some a /\ pTexture t2 = Some a /\
    (length (@nil (option LoadedTextureResult)) <= a)%nat /\
    (@encodePrimitiveFeaturesAnyThreadPart idealEngine
       sharedImageDescription sharedImageFeatures []).1.2 !! a = Some (Some obj) /\
    stagedTexture obj /\
    holdsImageOf (GetFeatureIDSets sharedImageFeatures) 7%nat obj /\
    timesRealized (Some a)
      (attempted []
         (@encodePrimitiveFeaturesGameThreadPart idealEngine
            (@encodePrimitiveFeaturesAnyThreadPart idealEngine
               sharedImageDescription sharedImageFeatures []).1.1 []).2) = 1%nat.
Proof.
  apply (shared_image_single_live_texture idealEngine sharedImageDescription
           sharedImageFeatures [] [] sharedImageFirst sharedImageSecond
           (textureSet "" 7%nat 0) (textureSet "" 7%nat 1) 7%nat).
  - intros wd ht f H. discriminate H.
  - vm_compute. apply list_elem_of_here.
  - vm_compute. apply list_elem_of_further, list_elem_of_here.
  - reflexivity.
  - reflexivity.
  - reflexivity.
  - reflexivity.
Defined.

(** ** Generated names *)

Section GeneratedNames.

Lemma int_of_string_of_int (d : Decimal.signed_int) :
  exists d', NilZero.int_of_string (NilZero.string_of_int d) = Some d' /\
             Z.of_int d' = Z.of_int d.
Proof.
  destruct d as [u|u]; destruct u;
    try (eexists; split; [apply NilZero.isi; intros H; discriminate H | reflexivity]).
  - eexists. split; [apply NilZero.isi_posnil | reflexivity].
  - eexists. split; [apply NilZero.isi_negnil | reflexivity].
Qed.

Lemma to_string_injective (a b : Z) : to_string a = to_string b -> a = b.
Proof.
  unfold to_string. intros Heq.
  destruct (int_of_string_of_int (Z.to_int a)) as (da & Ha & Hza).
  destruct (int_of_string_of_int (Z.to_int b)) as (db & Hb & Hzb).
  rewrite Heq, Hb in Ha. injection Ha as <-.
  rewrite Stdlib.Numbers.DecimalZ.of_to in Hza, Hzb. congruence.
Qed.

Lemma append_injective (prefix a b : FString) :
  prefix +:+ a = prefix +:+ b -> a = b.
Proof.
  induction prefix as [|c prefix IH]; [intros H; exact H|].
  rewrite !append_cons. intros H. injection H as H. now apply IH.
Qed.

Lemma unlabeledTexture_name set counter :
  unlabeledTexture set ->
  (getNameForFeatureIDSet set counter).1
  = ("_FEATURE_ID_TEXTURE_" +:+ to_string counter)%string.
Proof.
  intros [Hlabel Htype]. unfold getNameForFeatureIDSet. rewrite Hlabel, Htype.
  reflexivity.
Qed.

Lemma counter_step set counter :
  INT32_MIN <= counter < INT32_MAX ->
  counter <= (getNameForFeatureIDSet set counter).2 <= counter + 1 /\
  (unlabeledTexture set -> (getNameForFeatureIDSet set counter).2 = counter + 1).
Proof.
  intros Hc. unfold INT32_MIN, INT32_MAX in Hc.
  assert (Hw : wrap32 (counter + 1) = counter + 1) by (apply wrap32_small; lia).
  split.
  - unfold getNameForFeatureIDSet.
    repeat (case_match; simpl); rewrite ?Hw; lia.
  - intros [Hlabel Htype]. unfold getNameForFeatureIDSet. rewrite Hlabel, Htype.
    simpl. exact Hw.
Qed.

Lemma counterAfter_snoc counter sets set :
  counterAfter counter (sets ++ [set])
  = (getNameForFeatureIDSet set (counterAfter counter sets)).2.
Proof. unfold counterAfter. now rewrite fold_left_app. Qed.

Lemma counterAfter_bounds counter sets :
  0 <= counter ->
  counter + Z.of_nat (length sets) <= INT32_MAX ->
  counter <= counterAfter counter sets <= counter + Z.of_nat (length sets).
Proof.
  intros Hc. induction sets as [|set sets IH] using rev_ind; intros Hlen.
  - simpl. lia.
  - rewrite length_app in Hlen. simpl in Hlen.
    rewrite counterAfter_snoc, length_app. simpl.
    destruct (counter_step set (counterAfter counter sets)) as [Hstep _].
    { unfold INT32_MIN, INT32_MAX in *. lia. }
    lia.
Qed.

Lemma counterAfter_take_mono counter sets i j :
  0 <= counter ->
  counter + Z.of_nat (length sets) <= INT32_MAX ->
  (i <= j)%nat ->
  counterAfter counter (take i sets) <= counterAfter counter (take j sets).
Proof.
  intros Hc Hlen Hij. induction Hij as [|j Hij IH]; [lia|].
  destruct (sets !! j) as [set|] eqn:Hj.
  - rewrite (take_S_r _ _ _ Hj), counterAfter_snoc.
    destruct (counter_step set (counterAfter counter (take j sets))) as [Hstep _];
      [|lia].
    pose proof (counterAfter_bounds counter (take j sets) Hc) as Hb.
    pose proof (lookup_lt_Some _ _ _ Hj) as Hjlt.
    rewrite length_take in Hb. unfold INT32_MIN, INT32_MAX in *. lia.
  - apply lookup_ge_None in Hj.
    rewrite (take_ge sets (S j)) by lia. rewrite (take_ge sets j) in IH by lia.
    exact IH.
Qed.

Lemma featureIdSetNames_at counter sets k n :
  featureIdSetNames counter sets !! k = Some n ->
  exists set, sets !! k = Some set /\
    n = (getNameForFeatureIDSet set (counterAfter counter (take k sets))).1.
Proof.
  revert counter k. induction sets as [|set sets IH]; intros counter k Hk;
    [discriminate Hk|].
  destruct k as [|k]; simpl in Hk.
  - injection Hk as <-. now exists set.
  - apply IH in Hk as (set' & Hset' & Hn). exists set'. split; [exact Hset'|].
    exact Hn.
Qed.

Lemma generated_names_differ sets i j si sj ni nj :
  Z.of_nat (length sets) <= INT32_MAX ->
  (i < j)%nat ->
  sets !! i = Some si -> sets !! j = Some sj ->
  unlabeledTexture si -> unlabeledTexture sj ->
  featureIdSetNames 0 sets !! i = Some ni ->
  featureIdSetNames 0 sets !! j = Some nj ->
  ni <> nj.
Proof.
  intros Hlen Hij Hsi Hsj Hui Huj Hni Hnj Heq.
  apply featureIdSetNames_at in Hni as (si' & Hsi' & ->).
  apply featureIdSetNames_at in Hnj as (sj' & Hsj' & ->).
  rewrite Hsi in Hsi'. injection Hsi' as <-.
  rewrite Hsj in Hsj'. injection Hsj' as <-.
  rewrite !unlabeledTexture_name in Heq by assumption.
  apply append_injective, to_string_injective in Heq.
  pose proof (counterAfter_take_mono 0 sets (S i) j ltac:(lia) ltac:(lia) ltac:(lia))
    as Hmono.
  rewrite (take_S_r _ _ _ Hsi), counterAfter_snoc in Hmono.
  destruct (counter_step si (counterAfter 0 (take i sets))) as [_ Hstep].
  { pose proof (counterAfter_bounds 0 (take i sets) ltac:(lia)) as Hb.
    rewrite length_take in Hb. apply lookup_lt_Some in Hsi.
    unfold INT32_MIN, INT32_MAX in *. lia. }
  rewrite (Hstep Hui) in Hmono. lia.
Qed.

End GeneratedNames.

(** X13: names generated from the counter do not repeat.  For two sets
    without label of type Texture, different counter values give different
    names; and within one call, as long as the primitive has at most
    INT32_MAX sets, two encoded sets that came from different unlabeled
    texture sets have different names. *)
Theorem generated_texture_names_are_unique :
  (forall set1 set2 c1 c2,
      unlabeledTexture set1 -> unlabeledTexture set2 -> c1 <> c2 ->
      (getNameForFeatureIDSet set1 c1).1 <> (getNameForFeatureIDSet set2 c2).1) /\
  (forall (E : Engine) desc features store e1 e2 set1 set2,
      Z.of_nat (length (GetFeatureIDSets features)) <= INT32_MAX ->
      e1 ∈ featureIdSets (encodePrimitiveFeaturesAnyThreadPart desc features store).1.1 ->
      e2 ∈ featureIdSets (encodePrimitiveFeaturesAnyThreadPart desc features store).1.1 ->
      GetFeatureIDSets features !! Z.to_nat (index e1) = Some set1 ->
      GetFeatureIDSets features !! Z.to_nat (index e2) = Some set2 ->
      unlabeledTexture set1 -> unlabeledTexture set2 ->
      index e1 <> index e2 ->
      name e1 <> name e2).
Proof.
  split.
  - intros set1 set2 c1 c2 H1 H2 Hne Heq.
    rewrite !unlabeledTexture_name in Heq by assumption.
    apply append_injective, to_string_injective in Heq. contradiction.
  - intros E desc features store e1 e2 set1 set2 Hlen He1 He2 Hs1 Hs2 Hu1 Hu2 Hidx.
    unfold encodePrimitiveFeaturesAnyThreadPart, encodePrimitiveFeatures_pass in He1, He2.
    simpl in He1, He2.
    apply features_loop_entries in He1
      as [He1 | (k1 & s1 & d1 & Hk1 & Hi1 & Hn1 & _)];
      [now apply not_elem_of_nil in He1|].
    apply features_loop_entries in He2
      as [He2 | (k2 & s2 & d2 & Hk2 & Hi2 & Hn2 & _)];
      [now apply not_elem_of_nil in He2|].
    simpl in Hi1, Hi2, Hn1, Hn2.
    rewrite Hi1, Nat2Z.id, Hk1 in Hs1. injection Hs1 as ->.
    rewrite Hi2, Nat2Z.id, Hk2 in Hs2. injection Hs2 as ->.
    assert (Hk : k1 <> k2) by (intros ->; apply Hidx; congruence).
    destruct (Nat.lt_gt_cases k1 k2) as [Hcases _].
    destruct (Hcases Hk) as [Hlt|Hgt].
    + exact (generated_names_differ _ _ _ _ _ _ _ Hlen Hlt Hk1 Hk2 Hu1 Hu2 Hn1 Hn2).
    + intros Heq. symmetry in Heq. revert Heq.
      exact (generated_names_differ _ _ _ _ _ _ _ Hlen Hgt Hk2 Hk1 Hu2 Hu1 Hn2 Hn1).
Qed.

Lemma generated_texture_names_are_unique_witness :
  name sharedImageFirst <> name sharedImageSecond.
Proof.
  apply (proj2 generated_texture_names_are_unique idealEngine
           sharedImageDescription sharedImageFeatures []
           sharedImageFirst sharedImageSecond
           (textureSet "" 7%nat 0) (textureSet "" 7%nat 1)).
  - unfold INT32_MAX. simpl. lia.
  - vm_compute. apply list_elem_of_here.
  - vm_compute. apply list_elem_of_further, list_elem_of_here.
  - reflexivity.
  - reflexivity.
  - split; reflexivity.
  - split; reflexivity.
  - simpl. lia.
Defined.

(** ** Property tables, continued *)

Section TablePassFacts.
Context `{E : Engine}.

Lemma modify_snoc (st : Store) f x :
  modify (length st) f (st ++ [Some x]) = st ++ [Some (f x)].
Proof.
  unfold modify. replace (length st) with (length st + 0)%nat at 1 by lia.
  now rewrite alter_app_r.
Qed.

Lemma onlyWarnings_nil : onlyWarnings [].
Proof. intros entry H. now apply not_elem_of_nil in H. Qed.

Lemma onlyWarnings_one text : onlyWarnings [(ELogVerbosity.Warning, text)].
Proof. intros entry ->%list_elem_of_singleton. reflexivity. Qed.

Lemma isValid_onlyWarnings d property :
  onlyWarnings (isValidPropertyTablePropertyDescription d property).2.
Proof. intros entry. apply isValid_logs_warnings. Qed.

Lemma andb_negb_false (c b : bool) (P : Prop) :
  (c = true <-> P) -> c && negb b = false -> P -> b = true.
Proof. intros [_ HP] H Hp. rewrite (HP Hp) in H. now destruct b. Qed.

(** One iteration of the table loop: nothing is added and nothing is
    allocated, or one property is added, either without texture and
    without allocating, or with a texture object allocated at the end of
    the store. *)
Lemma table_body_cases desc n s key property :
  let s' := encodePropertyTable_body desc n s (key, property) in
  exists l, tp_log s' = tp_log s ++ l /\
  ((tp_properties s' = tp_properties s /\ tp_store s' = tp_store s /\ onlyWarnings l) \/
   (exists e,
      encodedFrom (ptd_Properties desc) n (key, property) e /\
      tp_properties s' = tp_properties s ++ [e] /\
      ((eptp_pTexture e = None /\ tp_store s' = tp_store s /\ onlyWarnings l) \/
       (exists obj,
          eptp_pTexture e = Some (length (tp_store s)) /\
          tp_store s' = tp_store s ++ [Some obj] /\
          tableTexture (textureDimension n) obj /\
          ((is_Some (pTextureData obj) /\ onlyWarnings l) \/
           (pTextureData obj = None /\ noValues e /\
            exists d,
              FindByPredicate (fun x => FString_eq key (ptpd_Name x))
                (ptd_Properties desc) = Some d /\
              createTexturePlatformData (textureDimension n) (textureDimension n)
                (format (getPixelFormat (EncodingDetails d))) = None)))))).
Proof.
  unfold encodePropertyTable_body. cbn [fst snd].
  destruct (FindByPredicate _ (ptd_Properties desc)) as [d|] eqn:Hfind.
  2:{ exists []. rewrite app_nil_r. split; [reflexivity|]. left.
      auto using onlyWarnings_nil. }
  destruct (decide (Conversion (EncodingDetails d)
                    = ECesiumEncodedMetadataConversion.None)) as [Hconv|Hconv];
    [rewrite bool_decide_eq_true_2 by assumption
    |rewrite bool_decide_eq_false_2 by assumption].
  { exists []. rewrite app_nil_r. split; [reflexivity|]. left.
    auto using onlyWarnings_nil. }
  pose proof (isValid_onlyWarnings d property) as Hvwarn.
  destruct (isValidPropertyTablePropertyDescription d property) as [valid vlog] eqn:Hvalid.
  simpl in Hvwarn.
  destruct valid; cbn [negb].
  2:{ exists vlog. split; [reflexivity|]. left. auto. }
  assert (Hskip : forall text,
            onlyWarnings (vlog ++ [(ELogVerbosity.Warning, text)])).
  { intros text. apply onlyWarnings_app; [assumption | apply onlyWarnings_one]. }
  destruct (bool_decide _ && negb (Coerce_canEncode d)) eqn:Hcoerce.
  { eexists (vlog ++ [_]). simpl. rewrite app_assoc. split; [reflexivity|]. left.
    repeat split. apply Hskip. }
  destruct (bool_decide _ && negb (ParseColorFromString_canEncode d)) eqn:Hparse.
  { eexists (vlog ++ [_]). simpl. rewrite app_assoc. split; [reflexivity|]. left.
    repeat split. apply Hskip. }
  destruct (decide (format (getPixelFormat (EncodingDetails d))
                    = EPixelFormat.PF_Unknown)) as [Hfmt|Hfmt];
    [rewrite bool_decide_eq_true_2 by assumption
    |rewrite bool_decide_eq_false_2 by assumption].
  { eexists (vlog ++ [_]). simpl. rewrite app_assoc. split; [reflexivity|]. left.
    repeat split. apply Hskip. }
  pose proof (FindByPredicate_some _ _ _ Hfind) as [_ Hname%FString_eq_true].
  assert (Hfrom : forall e,
    eptp_name e = createHlslSafeName (ptpd_Name d) ->
    eptp_type e = ed_Type (EncodingDetails d) ->
    (eptp_pTexture e = None <->
     GetPropertyTablePropertyStatus property <> ECesiumPropertyTablePropertyStatus.Valid) ->
    (valuesAsFlagged d property e \/
     (noValues e /\
      createTexturePlatformData (textureDimension n) (textureDimension n)
        (format (getPixelFormat (EncodingDetails d))) = None)) ->
    encodedFrom (ptd_Properties desc) n (key, property) e).
  { intros e Hn Ht Hp Hv. exists d. cbn [fst snd]. rewrite Hvalid.
    split; [exact Hfind|]. split; [now symmetry|]. split; [exact Hconv|].
    split; [reflexivity|].
    split.
    { intros Hc. apply (andb_negb_false _ _ _ (bool_decide_eq_true _) Hcoerce Hc). }
    split.
    { intros Hc. apply (andb_negb_false _ _ _ (bool_decide_eq_true _) Hparse Hc). }
    split; [exact Hfmt|]. split; [now rewrite Hname|]. auto. }
  destruct (decide (GetPropertyTablePropertyStatus property
                    = ECesiumPropertyTablePropertyStatus.Valid)) as [Hstatus|Hstatus];
    [rewrite bool_decide_eq_true_2 by assumption
    |rewrite bool_decide_eq_false_2 by assumption].
  - unfold MakeShared, tp_warn. cbv beta iota zeta.
    cbn [tp_store tp_properties tp_log].
    destruct (createTexturePlatformData (textureDimension n) (textureDimension n)
                (format (getPixelFormat (EncodingDetails d)))) as [data|] eqn:Halloc.
    + exists vlog. split; [reflexivity|]. right.
      cbn [tp_store tp_properties tp_log]. rewrite !modify_snoc.
      eexists. split; [|split; [reflexivity|]].
      * apply Hfrom; simpl; try reflexivity.
        -- split; [intros H; discriminate H | intros H; contradiction].
        -- left. repeat split.
      * right. simpl. eexists.
        split; [reflexivity|]. split; [reflexivity|].
        split; [|left; simpl; split; [eauto | assumption]].
        unfold tableTexture. simpl. repeat split.
        intros pd [= <-]. eexists. simpl. split; [apply last_snoc|]. split; reflexivity.
    + eexists (vlog ++ [_]). cbn [tp_log]. rewrite app_assoc. split; [reflexivity|]. right.
      cbn [tp_store tp_properties tp_log]. rewrite !modify_snoc.
      eexists. split; [|split; [reflexivity|]].
      * apply Hfrom; simpl; try reflexivity.
        -- split; [intros H; discriminate H | intros H; contradiction].
        -- right. split; [repeat split | reflexivity].
      * right. simpl. eexists.
        split; [reflexivity|]. split; [reflexivity|].
        split; [|right; simpl; split; [reflexivity | split; [repeat split|]]].
        -- unfold tableTexture. simpl. repeat split. intros pd H. discriminate H.
        -- exists d. split; [reflexivity | exact Halloc].
  - exists vlog. split; [reflexivity|]. right.
    eexists. split; [|split; [simpl; reflexivity|]].
    + apply Hfrom; simpl; try reflexivity.
      * split; [intros _; exact Hstatus | reflexivity].
      * left. repeat split.
    + left. simpl. auto.
Qed.

Lemma fold_left_prefix_inv {A B} (P : list B -> A -> Prop) (f : A -> B -> A)
    (l : list B) (a : A) :
  P [] a ->
  (forall done x a, P done a -> P (done ++ [x]) (f a x)) ->
  P l (fold_left f l a).
Proof.
  intros H0 Hstep.
  assert (Hgen : forall done a, P done a -> P (done ++ l) (fold_left f l a)).
  { induction l as [|x l IH]; intros done a' Ha; simpl.
    - now rewrite app_nil_r.
    - replace (done ++ x :: l) with ((done ++ [x]) ++ l)
        by (rewrite <- app_assoc; reflexivity).
      apply IH. now apply Hstep. }
  exact (Hgen [] a H0).
Qed.

(** The encoded properties correspond, one to one and in order, to a
    sublist of the live properties. *)
Lemma table_pass_correspondence desc table store :
  exists sub,
    sub `sublist_of` GetProperties table /\
    Forall2 (encodedFrom (ptd_Properties desc) (GetPropertyTableCount table)) sub
      (tp_properties (encodePropertyTable_pass desc table store)).
Proof.
  unfold encodePropertyTable_pass.
  apply (fold_left_prefix_inv
    (fun done s => exists sub, sub `sublist_of` done /\
       Forall2 (encodedFrom (ptd_Properties desc) (GetPropertyTableCount table)) sub
         (tp_properties s))).
  - exists []. split; [reflexivity | constructor].
  - intros done [key property] s (sub & Hsub & Hall).
    destruct (table_body_cases desc (GetPropertyTableCount table) s key property)
      as (l & _ & [(Hp & _) | (e & Hfrom & Hp & _)]).
    + exists sub. rewrite Hp. split; [|exact Hall].
      now apply sublist_inserts_r.
    + exists (sub ++ [(key, property)]). rewrite Hp. split.
      * now apply sublist_app.
      * apply Forall2_app; [exact Hall|]. constructor; [exact Hfrom | constructor].
Qed.

(** What the table pass does to the store: objects that were there stay as
    they are; every texture pointer of the result is an address allocated
    by the pass, holding a live object; no two properties share one. *)
Lemma table_pass_store desc table (store : Store) :
  let s := encodePropertyTable_pass desc table store in
  extends store (tp_store s) /\
  (forall e a, e ∈ tp_properties s -> eptp_pTexture e = Some a ->
     (length store <= a < length (tp_store s))%nat /\
     exists obj, tp_store s !! a = Some (Some obj) /\
       tableTexture (textureDimension (GetPropertyTableCount table)) obj /\
       (pTextureData obj = None ->
        noValues e /\
        exists d, createTexturePlatformData
                    (textureDimension (GetPropertyTableCount table))
                    (textureDimension (GetPropertyTableCount table))
                    (format (getPixelFormat (EncodingDetails d))) = None)) /\
  NoDup (omap (fun p => match eptp_pTexture p with
                        | Some a => Some (Some a) | None => None end)
              (tp_properties s)).
Proof.
  unfold encodePropertyTable_pass.
  apply (fold_left_invariant
    (fun s =>
       extends store (tp_store s) /\
       (forall e a, e ∈ tp_properties s -> eptp_pTexture e = Some a ->
          (length store <= a < length (tp_store s))%nat /\
          exists obj, tp_store s !! a = Some (Some obj) /\
            tableTexture (textureDimension (GetPropertyTableCount table)) obj /\
            (pTextureData obj = None ->
             noValues e /\
             exists d, createTexturePlatformData
                         (textureDimension (GetPropertyTableCount table))
                         (textureDimension (GetPropertyTableCount table))
                         (format (getPixelFormat (EncodingDetails d))) = None)) /\
       NoDup (omap (fun p => match eptp_pTexture p with
                             | Some a => Some (Some a) | None => None end)
                   (tp_properties s)))).
  - simpl. split; [apply extends_refl|]. split; [|constructor].
    intros e a He. now apply not_elem_of_nil in He.
  - intros s [key property] (Hext & Hptr & Hnd).
    destruct (table_body_cases desc (GetPropertyTableCount table) s key property)
      as (l & _ & [(Hp & Hs & _)
                  | (e & _ & Hp & [(Hnone & Hs & _)
                                  | (obj & Hsome & Hs & Htex & Hdata)])]).
    + rewrite Hp, Hs. auto.
    + rewrite Hp, Hs. split; [exact Hext|]. split.
      * intros e' a [He' | ->%list_elem_of_singleton]%elem_of_app Ha;
          [now apply Hptr | congruence].
      * rewrite omap_app. simpl. rewrite Hnone. now rewrite app_nil_r.
    + rewrite Hp, Hs. split; [|split].
      * destruct Hext as [Hlen Hsame]. split; [rewrite length_app; lia|].
        intros h Hh. rewrite lookup_app_l by lia. now apply Hsame.
      * intros e' a [He' | ->%list_elem_of_singleton]%elem_of_app Ha.
        -- destruct (Hptr e' a He' Ha) as (Hrange & obj' & Hobj' & Hgood).
           rewrite length_app. simpl. split; [lia|].
           exists obj'. split; [|exact Hgood]. rewrite lookup_app_l by lia. exact Hobj'.
        -- rewrite Hsome in Ha. injection Ha as <-.
           rewrite length_app. simpl. destruct Hext as [Hlen _]. split; [lia|].
           exists obj. split; [now apply list_lookup_middle|]. split; [exact Htex|].
           intros Hnodata.
           destruct Hdata as [[[pd Hpd] _] | (_ & Hnv & d & _ & Hfail)];
             [congruence | eauto].
      * rewrite omap_app. simpl. rewrite Hsome. apply NoDup_app.
        split; [exact Hnd|]. split; [|apply NoDup_singleton].
        intros p Hp' ->%list_elem_of_singleton.
        apply list_elem_of_omap in Hp' as (e' & He' & Hmatch).
        destruct (eptp_pTexture e') as [a|] eqn:Ha; [|discriminate Hmatch].
        injection Hmatch as ->.
        destruct (Hptr e' _ He' Ha) as [Hrange _]. lia.
Qed.

End TablePassFacts.

Lemma Forall2_elem_of_r {A B} (R : A -> B -> Prop) (l : list A) (k : list B) (y : B) :
  Forall2 R l k -> y ∈ k -> exists x, x ∈ l /\ R x y.
Proof.
  induction 1 as [|x y' l k Hxy Hall IH]; intros Hy.
  - now apply not_elem_of_nil in Hy.
  - apply elem_of_cons in Hy as [->|Hy].
    + exists x. split; [left | exact Hxy].
    + destruct (IH Hy) as (x' & Hx' & HR). exists x'. split; [now right | exact HR].
Qed.

(** X14: the encoded properties follow the order in which the live
    properties are iterated, not the order of the description: their names
    are, in order, the sanitized keys of a sublist of the live properties;
    so there are at most as many encoded properties as live ones. *)
Theorem encoded_properties_follow_live_order (E : Engine) desc table store :
  let out := ept_properties (encodePropertyTableAnyThreadPart desc table store).1.1 in
  (eptp_name <$> out) `sublist_of`
    ((fun pair => createHlslSafeName pair.1) <$> GetProperties table) /\
  (length out <= length (GetProperties table))%nat.
Proof.
  unfold encodePropertyTableAnyThreadPart. simpl.
  destruct (table_pass_correspondence desc table store) as (sub & Hsub & Hall).
  assert (Hnames : eptp_name <$> tp_properties (encodePropertyTable_pass desc table store)
                   = (fun pair => createHlslSafeName pair.1) <$> sub).
  { induction Hall as [|x e l k Hxe Hall IH]; [reflexivity|].
    assert (Hsub' : l `sublist_of` GetProperties table).
    { etransitivity; [|exact Hsub]. apply sublist_cons. reflexivity. }
    rewrite !fmap_cons, (IH Hsub'). f_equal.
    destruct Hxe as (d & _ & _ & _ & _ & _ & _ & _ & Hname & _). exact Hname. }
  split.
  - rewrite Hnames. now apply fmap_sublist.
  - apply Forall2_length in Hall. rewrite <- Hall. now apply sublist_length.
Qed.

(** X15: every encoded property comes from a live property that passed
    every gate of the encoder: a description of exactly its key exists (the
    first such is used), its conversion is not None, the description is
    valid for the live property, the chosen conversion can encode it, and
    its pixel format is known.  The encoded property carries the sanitized
    key and the description's encoded type; it has no texture exactly when
    the live status is not Valid; its optional values are the live ones
    where flagged, or all empty after a failed allocation. *)
Theorem encoded_property_passed_every_gate (E : Engine) desc table store e :
  e ∈ ept_properties (encodePropertyTableAnyThreadPart desc table store).1.1 ->
  exists key property,
    (key, property) ∈ GetProperties table /\
    encodedFrom (ptd_Properties desc) (GetPropertyTableCount table) (key, property) e.
Proof.
  unfold encodePropertyTableAnyThreadPart. simpl. intros He.
  destruct (table_pass_correspondence desc table store) as (sub & Hsub & Hall).
  destruct (Forall2_elem_of_r _ _ _ _ Hall He) as ([key property] & Hin & Hfrom).
  exists key, property. split; [|exact Hfrom].
  eapply elem_of_sublist; eassumption.
Qed.

Lemma encoded_property_passed_every_gate_witness :
  exists key property,
    (key, property) ∈ GetProperties exampleTable /\
    @encodedFrom idealEngine (ptd_Properties heightOnly)
      (GetPropertyTableCount exampleTable) (key, property) encodedHeight.
Proof.
  apply (encoded_property_passed_every_gate idealEngine heightOnly exampleTable []).
  vm_compute. apply list_elem_of_here.
Defined.

(** X16: the table pass only allocates.  Objects that were in the store
    stay unchanged; every texture pointer in the result is an address
    allocated by this call and holds a live object with the legacy source,
    clamped nearest sampling and, if it has platform data, a last mip of
    [textureDimension] squared; no two encoded properties share a texture. *)
Theorem encoded_table_textures_are_fresh (E : Engine) desc table store :
  let r := encodePropertyTableAnyThreadPart desc table store in
  extends store r.1.2 /\
  (forall e a,
      e ∈ ept_properties r.1.1 -> eptp_pTexture e = Some a ->
      (length store <= a < length r.1.2)%nat /\
      exists obj,
        r.1.2 !! a = Some (Some obj) /\
        tableTexture (textureDimension (GetPropertyTableCount table)) obj) /\
  NoDup (tablePtrs r.1.1).
Proof.
  unfold encodePropertyTableAnyThreadPart, tablePtrs. simpl.
  destruct (table_pass_store desc table store) as (Hext & Hptr & Hnd).
  split; [exact Hext|]. split; [|exact Hnd].
  intros e a He Ha. destruct (Hptr e a He Ha) as (Hrange & obj & Hobj & Htex & _).
  eauto.
Qed.

Lemma encoded_table_textures_are_fresh_witness :
  (length (@nil (option LoadedTextureResult)) <= 0
   < length (@encodePropertyTableAnyThreadPart idealEngine heightOnly exampleTable []).1.2)%nat /\
  exists obj,
    (@encodePropertyTableAnyThreadPart idealEngine heightOnly exampleTable []).1.2 !! O
      = Some (Some obj) /\
    tableTexture (textureDimension (GetPropertyTableCount exampleTable)) obj.
Proof.
  apply (proj1 (proj2 (encoded_table_textures_are_fresh idealEngine heightOnly
                         exampleTable [])) encodedHeight O).
  - vm_compute. apply list_elem_of_here.
  - reflexivity.
Defined.

Lemma length_textured (l : list EncodedPropertyTableProperty) :
  length (omap (fun p => match eptp_pTexture p with
                         | Some a => Some (Some a) | None => None end) l)
  = length (filter (fun e => is_Some (eptp_pTexture e)) l).
Proof.
  induction l as [|e l IH]; [reflexivity|].
  simpl. destruct (eptp_pTexture e) as [a|] eqn:Ha.
  - rewrite filter_cons_True by (rewrite Ha; eauto). simpl. f_equal. exact IH.
  - rewrite filter_cons_False by (rewrite Ha; intros [? H]; discriminate H).
    exact IH.
Qed.

(** X17: after the any-thread part of a property table, the game-thread
    part hands every texture of the result to [loadTextureGameThreadPart]
    exactly once, and makes as many realizations as there are encoded
    properties with a texture. *)
Theorem table_textures_realized_once (E : Engine) desc table store (w : Realizations) :
  let encoded := (encodePropertyTableAnyThreadPart desc table store).1.1 in
  let realized := attempted w (encodePropertyTableGameThreadPart encoded w).2 in
  (forall e a, e ∈ ept_properties encoded -> eptp_pTexture e = Some a ->
               timesRealized (Some a) realized = 1%nat) /\
  length realized =
    length (filter (fun e => is_Some (eptp_pTexture e)) (ept_properties encoded)).
Proof.
  intros encoded realized. subst realized.
  unfold encodePropertyTableGameThreadPart.
  destruct (table_game_fold (ept_properties encoded) true w) as (calls & Hfold & Hptrs).
  rewrite Hfold. simpl. rewrite attempted_app, Hptrs.
  split.
  - intros e a He Ha. apply timesRealized_NoDup.
    + destruct (table_pass_store desc table store) as (_ & _ & Hnd). exact Hnd.
    + apply list_elem_of_omap. exists e. split; [exact He|]. now rewrite Ha.
  - apply length_textured.
Qed.

Lemma table_textures_realized_once_witness :
  timesRealized (Some O)
    (attempted []
       (@encodePropertyTableGameThreadPart idealEngine
          (@encodePropertyTableAnyThreadPart idealEngine heightOnly exampleTable []).1.1
          []).2) = 1%nat.
Proof.
  apply (proj1 (table_textures_realized_once idealEngine heightOnly exampleTable [] [])
           encodedHeight O).
  - vm_compute. apply list_elem_of_here.
  - reflexivity.
Defined.

Lemma table_pass_onlyWarnings `{E : Engine} desc table store :
  allocationNeverFails E ->
  onlyWarnings (tp_log (encodePropertyTable_pass desc table store)).
Proof.
  intros Halloc. unfold encodePropertyTable_pass.
  apply (fold_left_invariant (fun s => onlyWarnings (tp_log s))).
  - apply onlyWarnings_nil.
  - intros s [key property] Hlog.
    destruct (table_body_cases desc (GetPropertyTableCount table) s key property)
      as (l & Hl & [(_ & _ & Hw)
                   | (e & _ & _ & [(_ & _ & Hw)
                                  | (obj & _ & _ & _ & [[_ Hw]
                                                       | (_ & _ & d & _ & Hfail)])])]);
      try (rewrite Hl; now apply onlyWarnings_app).
    exfalso. exact (Halloc _ _ _ Hfail).
Qed.

(** X18: when no texture backing allocation fails, the table pass logs
    nothing but warnings; every encoded property carries exactly the live
    offset, scale, no-data and default values its description flags, and
    empty values elsewhere; and every texture it holds has platform data. *)
Theorem encode_table_without_allocation_failure (E : Engine) desc table store :
  allocationNeverFails E ->
  let r := encodePropertyTableAnyThreadPart desc table store in
  onlyWarnings r.2 /\
  (forall e, e ∈ ept_properties r.1.1 ->
     (exists key property d,
        (key, property) ∈ GetProperties table /\
        FindByPredicate (fun x => FString_eq key (ptpd_Name x)) (ptd_Properties desc)
          = Some d /\
        valuesAsFlagged d property e) /\
     (forall a, eptp_pTexture e = Some a ->
        exists obj, r.1.2 !! a = Some (Some obj) /\ is_Some (pTextureData obj))).
Proof.
  intros Halloc. unfold encodePropertyTableAnyThreadPart. simpl.
  split; [now apply table_pass_onlyWarnings|].
  intros e He. split.
  - destruct (table_pass_correspondence desc table store) as (sub & Hsub & Hall).
    destruct (Forall2_elem_of_r _ _ _ _ Hall He) as ([key property] & Hin & Hfrom).
    destruct Hfrom as (d & Hfind & _ & _ & _ & _ & _ & _ & _ & _ & _ & [Hv | [_ Hfail]]).
    + exists key, property, d. split; [eapply elem_of_sublist; eassumption|]. auto.
    + exfalso. exact (Halloc _ _ _ Hfail).
  - intros a Ha.
    destruct (table_pass_store desc table store) as (_ & Hptr & _).
    destruct (Hptr e a He Ha) as (_ & obj & Hobj & _ & Hnodata).
    exists obj. split; [exact Hobj|].
    destruct (pTextureData obj) as [pd|] eqn:Hpd; [eauto|].
    destruct (Hnodata eq_refl) as (_ & d & Hfail).
    exfalso. exact (Halloc _ _ _ Hfail).
Qed.

Lemma encode_table_without_allocation_failure_witness :
  onlyWarnings (@encodePropertyTableAnyThreadPart idealEngine heightOnly exampleTable []).2.
Proof.
  apply (encode_table_without_allocation_failure idealEngine heightOnly exampleTable []).
  intros w h f H. discriminate H.
Defined.

(** X19: when every requested property has conversion None (in particular
    when none is requested), the table is encoded to nothing: no property,
    no allocation, no log entry. *)
Theorem encode_table_without_conversion (E : Engine) desc table store :
  (forall d, d ∈ ptd_Properties desc ->
     Conversion (EncodingDetails d) = ECesiumEncodedMetadataConversion.None) ->
  encodePropertyTableAnyThreadPart desc table store
  = ({| ept_name := ""%string; ept_properties := [] |}, store, []).
Proof.
  intros Hnone. unfold encodePropertyTableAnyThreadPart, encodePropertyTable_pass.
  assert (Hfold : forall l s,
            fold_left (encodePropertyTable_body desc (GetPropertyTableCount table)) l s = s).
  { induction l as [|[key property] l IH]; intros s; simpl; [reflexivity|].
    rewrite <- (IH s) at 2. f_equal.
    unfold encodePropertyTable_body. cbn [fst snd].
    destruct (FindByPredicate _ _) as [d|] eqn:Hfind; [|reflexivity].
    apply FindByPredicate_some in Hfind as [Hd _].
    now rewrite (bool_decide_eq_true_2 _ (Hnone d Hd)). }
  now rewrite Hfold.
Qed.

Lemma encode_table_without_conversion_witness :
  @encodePropertyTableAnyThreadPart idealEngine
     {| ptd_Name := "houses"%string;
        ptd_Properties :=
          [{| ptpd_Name := "height"%string;
              PropertyDetails :=
                PropertyDetails
                  (wantedProperty "height" ECesiumMetadataComponentType.Uint8 false);
              EncodingDetails :=
                {| ed_Type := ECesiumEncodedMetadataType.Scalar;
                   ed_ComponentType := ECesiumEncodedMetadataComponentType.Uint8;
                   Conversion := ECesiumEncodedMetadataConversion.None |} |}] |}
     exampleTable []
  = ({| ept_name := ""%string; ept_properties := [] |}, [], []).
Proof.
  apply (encode_table_without_conversion idealEngine).
  intros d Hd. apply list_elem_of_singleton in Hd. subst d. reflexivity.
Defined.

(** ** Model metadata, continued *)

Section ModelPassFacts.
Context `{E : Engine}.

(** One iteration of the property-table loop of the model. *)
Lemma model_body_cases desc s table :
  let s' := encodeModelMetadata_tableBody desc s table in
  let n := getNameForPropertyTable table in
  (FindByPredicate (fun x => FString_eq n (ptd_Name x)) (PropertyTables desc) = None /\
   s' = s) \/
  (exists d,
     FindByPredicate (fun x => FString_eq n (ptd_Name x)) (PropertyTables desc) = Some d /\
     mp_propertyTables s' =
       mp_propertyTables s ++
         [{| ept_name := n;
             ept_properties :=
               ept_properties
                 (encodePropertyTableAnyThreadPart d table (mp_store s)).1.1 |}] /\
     mp_store s' = (encodePropertyTableAnyThreadPart d table (mp_store s)).1.2 /\
     mp_log s' = mp_log s ++ (encodePropertyTableAnyThreadPart d table (mp_store s)).2).
Proof.
  unfold encodeModelMetadata_tableBody.
  destruct (FindByPredicate _ _) as [d|]; [right | left; auto].
  exists d. unfold encodePropertyTableAnyThreadPart. simpl. auto.
Qed.

End ModelPassFacts.

(** X20: the encoded property tables of a model are the live tables whose
    name (the table's name or, when that is empty, its class) equals the
    name of a requested description, in live order and under that name;
    tables without description are dropped.  Each encoded table holds what
    [encodePropertyTableAnyThreadPart] makes of the live table and the
    first description of that name. *)
Theorem encoded_tables_follow_live_tables (E : Engine) desc metadata store :
  let out := propertyTables (encodeModelMetadataAnyThreadPart desc metadata store).1.1 in
  let requested n :=
    is_Some (FindByPredicate (fun x => FString_eq n (ptd_Name x)) (PropertyTables desc)) in
  ept_name <$> out
    = filter requested (getNameForPropertyTable <$> GetPropertyTables metadata) /\
  (forall t, t ∈ out ->
     exists table d st,
       table ∈ GetPropertyTables metadata /\
       FindByPredicate (fun x => FString_eq (getNameForPropertyTable table) (ptd_Name x))
         (PropertyTables desc) = Some d /\
       ept_name t = getNameForPropertyTable table /\
       ept_name t = ptd_Name d /\
       ept_properties t
         = ept_properties (encodePropertyTableAnyThreadPart d table st).1.1).
Proof.
  unfold encodeModelMetadataAnyThreadPart. simpl.
  pose proof (fold_left_prefix_inv
    (fun done s =>
       ept_name <$> mp_propertyTables s
         = filter (fun n => is_Some (FindByPredicate
                     (fun x => FString_eq n (ptd_Name x)) (PropertyTables desc)))
             (getNameForPropertyTable <$> done) /\
       (forall t, t ∈ mp_propertyTables s ->
          exists table d st,
            table ∈ done /\
            FindByPredicate (fun x => FString_eq (getNameForPropertyTable table) (ptd_Name x))
              (PropertyTables desc) = Some d /\
            ept_name t = getNameForPropertyTable table /\
            ept_name t = ptd_Name d /\
            ept_properties t
              = ept_properties (encodePropertyTableAnyThreadPart d table st).1.1))
    (encodeModelMetadata_tableBody desc) (GetPropertyTables metadata)
    {| mp_propertyTables := []; mp_store := store; mp_log := [] |}) as Hind.
  apply Hind; clear Hind.
  - simpl. split; [reflexivity|]. intros t Ht. now apply not_elem_of_nil in Ht.
  - intros done table s [Hnames Hall].
    rewrite fmap_app, filter_app. simpl.
    destruct (model_body_cases desc s table) as [[Hnone ->] | (d & Hsome & Hp & _)].
    + rewrite filter_cons_False by (rewrite Hnone; intros [? H]; discriminate H).
      rewrite filter_nil, app_nil_r. split; [exact Hnames|].
      intros t Ht. destruct (Hall t Ht) as (table' & d' & st & Hin & Hrest).
      exists table', d', st. split; [apply elem_of_app; now left | exact Hrest].
    + rewrite filter_cons_True by (rewrite Hsome; eauto).
      rewrite filter_nil, Hp, fmap_app, Hnames. split; [reflexivity|].
      intros t [Ht | ->%list_elem_of_singleton]%elem_of_app.
      * destruct (Hall t Ht) as (table' & d' & st & Hin & Hrest).
        exists table', d', st. split; [apply elem_of_app; now left | exact Hrest].
      * exists table, d, (mp_store s). simpl.
        split; [apply elem_of_app; right; apply list_elem_of_here|].
        pose proof (FindByPredicate_some _ _ _ Hsome) as [_ Heq%FString_eq_true].
        auto.
Qed.

Lemma model_pass_ptrs `{E : Engine} desc tables (store : Store) :
  let s := fold_left (encodeModelMetadata_tableBody desc) tables
             {| mp_propertyTables := []; mp_store := store; mp_log := [] |} in
  NoDup (concat (tablePtrs <$> mp_propertyTables s)) /\
  (forall p, p ∈ concat (tablePtrs <$> mp_propertyTables s) ->
     exists a, p = Some a /\ (length store <= a < length (mp_store s))%nat) /\
  (length store <= length (mp_store s))%nat.
Proof.
  apply (fold_left_invariant
    (fun s =>
       NoDup (concat (tablePtrs <$> mp_propertyTables s)) /\
       (forall p, p ∈ concat (tablePtrs <$> mp_propertyTables s) ->
          exists a, p = Some a /\ (length store <= a < length (mp_store s))%nat) /\
       (length store <= length (mp_store s))%nat)).
  - simpl. split; [constructor|]. split; [|lia].
    intros p Hp. now apply not_elem_of_nil in Hp.
  - intros s table (Hnd & Hrange & Hlen).
    destruct (model_body_cases desc s table) as [[_ ->] | (d & _ & Hp & Hs & _)];
      [auto|].
    rewrite Hp, Hs, fmap_app, concat_app. simpl. rewrite app_nil_r.
    unfold encodePropertyTableAnyThreadPart, tablePtrs at 2 4. simpl.
    destruct (table_pass_store d table (mp_store s)) as ([Hlen' _] & Hptr & Hnd').
    assert (Hnew : forall p,
              p ∈ omap (fun e => match eptp_pTexture e with
                                 | Some a => Some (Some a) | None => None end)
                       (tp_properties (encodePropertyTable_pass d table (mp_store s))) ->
              exists a, p = Some a /\
                (length (mp_store s) <= a
                 < length (tp_store (encodePropertyTable_pass d table (mp_store s))))%nat).
    { intros p (e & He & Hmatch)%list_elem_of_omap.
      destruct (eptp_pTexture e) as [a|] eqn:Ha; [|discriminate Hmatch].
      injection Hmatch as <-. exists a. split; [reflexivity|].
      destruct (Hptr e a He Ha) as [Hr _]. exact Hr. }
    split; [|split; [|lia]].
    + apply NoDup_app. split; [exact Hnd|]. split; [|exact Hnd'].
      intros p Hold Hin. destruct (Hrange p Hold) as (a & -> & Ha).
      destruct (Hnew _ Hin) as (a' & [= <-] & Ha'). lia.
    + intros p [Hold | Hin]%elem_of_app.
      * destruct (Hrange p Hold) as (a & -> & Ha). exists a. split; [reflexivity|]. lia.
      * destruct (Hnew _ Hin) as (a & -> & Ha). exists a. split; [reflexivity|]. lia.
Qed.

Lemma elem_of_concat {A} (x : A) (l : list A) (ls : list (list A)) :
  x ∈ l -> l ∈ ls -> x ∈ concat ls.
Proof.
  intros Hx. induction ls as [|k ls IH]; intros Hl.
  - now apply not_elem_of_nil in Hl.
  - simpl. apply elem_of_app. apply elem_of_cons in Hl as [<-|Hl]; [now left|].
    right. now apply IH.
Qed.

(** X21: after the any-thread part of a model, the game-thread part hands
    to [loadTextureGameThreadPart] exactly the textures of the encoded
    property tables, table by table and property by property, each exactly
    once: no texture is shared between properties or tables. *)
Theorem model_textures_realized_once (E : Engine) desc metadata store (w : Realizations) :
  let encoded := (encodeModelMetadataAnyThreadPart desc metadata store).1.1 in
  let realized := attempted w (encodeModelMetadataGameThreadPart encoded w).2 in
  realized = concat (tablePtrs <$> propertyTables encoded) /\
  NoDup realized /\
  (forall t e a,
      t ∈ propertyTables encoded -> e ∈ ept_properties t ->
      eptp_pTexture e = Some a ->
      timesRealized (Some a) realized = 1%nat).
Proof.
  intros encoded realized.
  assert (Hrealized : realized = concat (tablePtrs <$> propertyTables encoded)).
  { subst realized encoded. unfold encodeModelMetadataGameThreadPart,
      encodeModelMetadataAnyThreadPart. cbn [fst snd propertyTextures propertyTables].
    rewrite fold_textureBody_nil. cbn [fold_left].
    match goal with
    | |- context [fold_left encodeModelMetadata_gameTables ?tables (true, w)] =>
        destruct (model_tables_fold tables true w) as (calls & Hfold & Hptrs)
    end.
    rewrite Hfold. cbn [fst snd]. now rewrite attempted_app. }
  assert (Hnd : NoDup (concat (tablePtrs <$> propertyTables encoded))).
  { subst encoded. unfold encodeModelMetadataAnyThreadPart. cbn [fst snd propertyTables].
    apply (model_pass_ptrs desc (GetPropertyTables metadata) store). }
  rewrite Hrealized. split; [reflexivity|]. split; [exact Hnd|].
  intros t e a Ht He Ha. apply timesRealized_NoDup; [exact Hnd|].
  apply (elem_of_concat _ (tablePtrs t)); [|apply list_elem_of_fmap; eauto].
  unfold tablePtrs. apply list_elem_of_omap. exists e. split; [exact He|]. now rewrite Ha.
Qed.

(** ** Teardown *)

Section TeardownFacts.

Lemma lookup_without (textures : gmap nat nat) (ptrs : list Ptr) (a : nat) :
  without textures ptrs !! a =
    if decide (Some a ∈ ptrs) then None else textures !! a.
Proof.
  unfold without. destruct (decide (Some a ∈ ptrs)) as [Hin|Hout].
  - apply map_lookup_filter_None. right. intros u _ Hnot. now apply Hnot.
  - destruct (textures !! a) as [u|] eqn:Hu.
    + apply map_lookup_filter_Some. split; [exact Hu | exact Hout].
    + apply map_lookup_filter_None. now left.
Qed.

Lemma without_nil (textures : gmap nat nat) : without textures [] = textures.
Proof.
  apply map_eq. intros a. rewrite lookup_without.
  destruct (decide _) as [Hin|]; [now apply not_elem_of_nil in Hin | reflexivity].
Qed.

Lemma destroyAll_none (ptrs : list Ptr) : destroyAll ptrs None = None.
Proof. induction ptrs as [|p ptrs IH]; [reflexivity | exact IH]. Qed.

Lemma destroyAll_app (l1 l2 : list Ptr) st :
  destroyAll (l1 ++ l2) st = destroyAll l2 (destroyAll l1 st).
Proof. unfold destroyAll. apply fold_left_app. Qed.

(** A null pointer anywhere in the list is a fault. *)
Lemma destroyAll_null (ptrs : list Ptr) st :
  None ∈ ptrs -> destroyAll ptrs st = None.
Proof.
  revert st. induction ptrs as [|p ptrs IH]; intros st Hin.
  - now apply not_elem_of_nil in Hin.
  - apply elem_of_cons in Hin as [<-|Hin].
    + simpl. destruct st; apply destroyAll_none.
    + simpl. now apply IH.
Qed.

(** Without null pointers, every valid texture the pointers reach is
    destroyed once, at the first occurrence of its pointer, and reset. *)
Lemma destroyAll_spec (textures : gmap nat nat) (ptrs seen : list Ptr) (d : list nat) :
  None ∉ ptrs ->
  destroyAll ptrs (Some (without textures seen, d))
  = Some (without textures (seen ++ ptrs), d ++ texturesOf textures seen ptrs).
Proof.
  revert seen d. induction ptrs as [|p ptrs IH]; intros seen d Hnn.
  - simpl. unfold texturesOf. simpl. now rewrite !app_nil_r.
  - apply not_elem_of_cons in Hnn as [Hp Hnn].
    destruct p as [a|]; [|contradiction].
    cbn [destroyAll fold_left destroyTexture fst snd].
    rewrite lookup_without. unfold texturesOf. cbn [firstOccurrences].
    destruct (decide (Some a ∈ seen)) as [Hseen|Hnew].
    + rewrite bool_decide_eq_true_2 by assumption.
      fold (destroyAll ptrs (Some (without textures seen, d))).
      rewrite (IH seen d Hnn). f_equal. f_equal.
      apply map_eq. intros a'. rewrite !lookup_without.
      destruct (decide (Some a' ∈ seen ++ ptrs)) as [Hin|Hout];
        destruct (decide (Some a' ∈ seen ++ Some a :: ptrs)) as [Hin'|Hout'];
        try reflexivity; exfalso.
      * apply Hout'. apply elem_of_app in Hin as [?|?];
          apply elem_of_app; [now left | right; now right].
      * apply Hout. apply elem_of_app in Hin' as [?|[->|?]%elem_of_cons];
          apply elem_of_app; [now left | now left | now right].
    + rewrite bool_decide_eq_false_2 by assumption.
      assert (Hshift : forall a', Some a' ∈ (seen ++ [Some a]) ++ ptrs
                                  <-> Some a' ∈ seen ++ Some a :: ptrs)
        by (intros a'; now rewrite <- app_assoc).
      destruct (textures !! a) as [u|] eqn:Hu.
      * assert (Hdel : delete a (without textures seen)
                       = without textures (seen ++ [Some a])).
        { apply map_eq. intros a'. rewrite lookup_delete, !lookup_without.
          destruct (decide (a = a')) as [->|Hne].
          - destruct (decide _) as [|Hout]; [reflexivity|].
            exfalso. apply Hout. apply elem_of_app. right. apply list_elem_of_here.
          - destruct (decide (Some a' ∈ seen)) as [Hin|Hout];
              destruct (decide (Some a' ∈ seen ++ [Some a])) as [Hin'|Hout'];
              try reflexivity; exfalso.
            + apply Hout'. apply elem_of_app. now left.
            + apply elem_of_app in Hin' as [?|Heq%list_elem_of_singleton];
                [contradiction | congruence]. }
        rewrite Hdel.
        fold (destroyAll ptrs (Some (without textures (seen ++ [Some a]), d ++ [u]))).
        rewrite (IH (seen ++ [Some a]) (d ++ [u]) Hnn).
        cbn [omap list_omap]. rewrite Hu. rewrite <- !app_assoc. reflexivity.
      * assert (Hsame : without textures seen = without textures (seen ++ [Some a])).
        { apply map_eq. intros a'. rewrite !lookup_without.
          destruct (decide (Some a' ∈ seen)) as [Hin|Hout];
            destruct (decide (Some a' ∈ seen ++ [Some a])) as [Hin'|Hout'];
            try reflexivity.
          - exfalso. apply Hout'. apply elem_of_app. now left.
          - apply elem_of_app in Hin' as [?|Heq%list_elem_of_singleton];
              [contradiction|]. injection Heq as ->. exact Hu. }
        rewrite Hsame.
        fold (destroyAll ptrs (Some (without textures (seen ++ [Some a]), d))).
        rewrite (IH (seen ++ [Some a]) d Hnn).
        cbn [omap list_omap]. rewrite Hu. rewrite <- !app_assoc. reflexivity.
Qed.

Lemma destroyFeatures_destroyAll sets st :
  fold_left destroyEncodedPrimitiveFeatures_body sets st
  = destroyAll (omap (fun s => pTexture <$> texture s) sets) st.
Proof.
  revert st. induction sets as [|set sets IH]; intros st; [reflexivity|].
  simpl. rewrite IH. destruct st as [st|].
  - simpl. destruct (texture set) as [t|]; reflexivity.
  - simpl. destruct (texture set) as [t|]; simpl; now rewrite ?destroyAll_none.
Qed.

Lemma destroyTable_destroyAll props st :
  fold_left destroyEncodedModelMetadata_property props st
  = destroyAll (omap (fun p => match eptp_pTexture p with
                               | Some a => Some (Some a) | None => None end) props) st.
Proof.
  revert st. induction props as [|p props IH]; intros st; [reflexivity|].
  simpl. rewrite IH. destruct st as [st|].
  - simpl. destruct (eptp_pTexture p) as [a|]; reflexivity.
  - simpl. destruct (eptp_pTexture p) as [a|]; simpl; now rewrite ?destroyAll_none.
Qed.

Lemma destroyTables_destroyAll tables st :
  fold_left destroyEncodedModelMetadata_table tables st
  = destroyAll (concat (tablePtrs <$> tables)) st.
Proof.
  revert st. induction tables as [|t tables IH]; intros st; [reflexivity|].
  simpl. rewrite IH, destroyAll_app. f_equal.
  unfold destroyEncodedModelMetadata_table, tablePtrs. apply destroyTable_destroyAll.
Qed.

Lemma destroyTextureProps_destroyAll props st :
  fold_left destroyEncodedModelMetadata_textureProperty props st
  = destroyAll (eptxp_pTexture <$> props) st.
Proof.
  revert st. induction props as [|p props IH]; intros st; [reflexivity|].
  simpl. rewrite IH. destruct st as [st|]; reflexivity.
Qed.

Lemma destroyTextures_destroyAll textures st :
  fold_left destroyEncodedModelMetadata_texture textures st
  = destroyAll (concat (propertyTexturePtrs <$> textures)) st.
Proof.
  revert st. induction textures as [|t textures IH]; intros st; [reflexivity|].
  simpl. rewrite IH, destroyAll_app. f_equal.
  unfold destroyEncodedModelMetadata_texture, propertyTexturePtrs.
  apply destroyTextureProps_destroyAll.
Qed.

Lemma tablePtrs_not_null tables : None ∉ concat (tablePtrs <$> tables).
Proof.
  induction tables as [|t tables IH]; simpl; [apply not_elem_of_nil|].
  apply not_elem_of_app. split; [|exact IH].
  unfold tablePtrs. intros (p & _ & Hmatch)%list_elem_of_omap.
  destruct (eptp_pTexture p); discriminate Hmatch.
Qed.

End TeardownFacts.

Lemma firstOccurrences_seen (l seen : list Ptr) :
  (forall p, p ∈ l -> p ∈ seen) -> firstOccurrences seen l = [].
Proof.
  induction l as [|p l IH]; intros Hall; [reflexivity|].
  simpl. rewrite bool_decide_eq_true_2 by (apply Hall; left).
  apply IH. intros q Hq. apply Hall. now right.
Qed.

Lemma without_twice (textures : gmap nat nat) (ptrs : list Ptr) :
  without textures (ptrs ++ ptrs) = without textures ptrs.
Proof.
  apply map_eq. intros a. rewrite !lookup_without.
  destruct (decide (Some a ∈ ptrs ++ ptrs)) as [Hin|Hout];
    destruct (decide (Some a ∈ ptrs)) as [Hin'|Hout']; try reflexivity; exfalso.
  - apply elem_of_app in Hin as [?|?]; contradiction.
  - apply Hout. apply elem_of_app. now left.
Qed.

Lemma destroyAll_total (textures : gmap nat nat) (ptrs : list Ptr) (d : list nat) :
  None ∉ ptrs ->
  destroyAll ptrs (Some (textures, d))
  = Some (without textures ptrs, d ++ texturesOf textures [] ptrs).
Proof.
  intros Hnn. rewrite <- (without_nil textures) at 1.
  now rewrite destroyAll_spec.
Qed.

Lemma destroyAll_again (textures : gmap nat nat) (ptrs : list Ptr) (d : list nat) :
  None ∉ ptrs ->
  destroyAll ptrs (Some (without textures ptrs, d))
  = Some (without textures ptrs, d).
Proof.
  intros Hnn. rewrite destroyAll_spec by assumption.
  rewrite without_twice. unfold texturesOf.
  rewrite firstOccurrences_seen by auto. simpl. now rewrite app_nil_r.
Qed.

(** X22: [destroyEncodedPrimitiveFeatures] dereferences the texture pointer
    of every texture descriptor: one null pointer among them is a fault.
    Otherwise it destroys and resets exactly the valid textures those
    pointers reach, each once, at the first descriptor holding its pointer,
    however many descriptors share it; textures of other objects are left
    alone; and running it a second time destroys nothing. *)
Theorem destroy_features_destroys_each_texture_once
    (encodedFeatures : EncodedPrimitiveFeatures) (textures : gmap nat nat) (d : list nat) :
  let ptrs := featureTexturePtrs encodedFeatures in
  (None ∈ ptrs -> destroyEncodedPrimitiveFeatures encodedFeatures (textures, d) = None) /\
  (None ∉ ptrs ->
   destroyEncodedPrimitiveFeatures encodedFeatures (textures, d)
   = Some (without textures ptrs, d ++ texturesOf textures [] ptrs) /\
   (forall a, without textures ptrs !! a =
              if decide (Some a ∈ ptrs) then None else textures !! a) /\
   (forall d', destroyEncodedPrimitiveFeatures encodedFeatures (without textures ptrs, d')
               = Some (without textures ptrs, d'))).
Proof.
  intros ptrs. subst ptrs.
  unfold destroyEncodedPrimitiveFeatures, featureTexturePtrs.
  rewrite destroyFeatures_destroyAll. split.
  - apply destroyAll_null.
  - intros Hnn. split; [now apply destroyAll_total|].
    split; [intros a; apply lookup_without|].
    intros d'. rewrite destroyFeatures_destroyAll. now apply destroyAll_again.
Qed.

Lemma destroy_features_destroys_each_texture_once_witness :
  destroyEncodedPrimitiveFeatures
    {| featureIdSets := [sharedImageFirst; sharedImageSecond] |}
    ({[ O := 41%nat ]}, [])
  = Some (without {[ O := 41%nat ]}
            (featureTexturePtrs {| featureIdSets := [sharedImageFirst; sharedImageSecond] |}),
          [41%nat]).
Proof.
  assert (Hnn : None ∉ featureTexturePtrs
                         {| featureIdSets := [sharedImageFirst; sharedImageSecond] |}).
  { vm_compute. intros Hin.
    repeat (apply elem_of_cons in Hin as [Hin|Hin]; [discriminate Hin|]).
    now apply not_elem_of_nil in Hin. }
  destruct (proj2 (destroy_features_destroys_each_texture_once
                     {| featureIdSets := [sharedImageFirst; sharedImageSecond] |}
                     {[ O := 41%nat ]} []) Hnn) as [Hdestroyed _].
  exact Hdestroyed.
Defined.

(** X23: [destroyEncodedModelMetadata] checks the texture pointer of a table
    property before using it, so the property tables never make it fault:
    without property textures it always completes, destroying and
    resetting exactly the valid textures of the table properties, each
    once.  The pointer of a property-texture property is not checked: a
    null one is a fault. *)
Theorem destroy_model_metadata_tables_never_fault
    (encodedMetadata : EncodedModelMetadata) (textures : gmap nat nat) (d : list nat) :
  let tablePointers := concat (tablePtrs <$> propertyTables encodedMetadata) in
  let texturePointers :=
    concat (propertyTexturePtrs <$> propertyTextures encodedMetadata) in
  (propertyTextures encodedMetadata = [] ->
   destroyEncodedModelMetadata encodedMetadata (textures, d)
   = Some (without textures tablePointers, d ++ texturesOf textures [] tablePointers)) /\
  (None ∈ texturePointers ->
   destroyEncodedModelMetadata encodedMetadata (textures, d) = None) /\
  (None ∉ texturePointers ->
   destroyEncodedModelMetadata encodedMetadata (textures, d)
   = Some (without textures (tablePointers ++ texturePointers),
           d ++ texturesOf textures [] (tablePointers ++ texturePointers))).
Proof.
  intros tablePointers texturePointers. subst tablePointers texturePointers.
  unfold destroyEncodedModelMetadata.
  rewrite destroyTextures_destroyAll, destroyTables_destroyAll.
  split; [|split].
  - intros ->. simpl. apply destroyAll_total, tablePtrs_not_null.
  - intros Hnull. now apply destroyAll_null.
  - intros Hnn. rewrite <- destroyAll_app. apply destroyAll_total.
    apply not_elem_of_app. split; [apply tablePtrs_not_null | exact Hnn].
Qed.

Lemma destroy_model_metadata_tables_never_fault_witness :
  destroyEncodedModelMetadata
    {| propertyTables := [{| ept_name := "houses"%string;
                             ept_properties := [encodedHeight] |}];
       propertyTextures := [] |}
    ({[ O := 41%nat ]}, [])
  = Some (without {[ O := 41%nat ]} [Some O], [41%nat]).
Proof.
  pose proof (proj1 (destroy_model_metadata_tables_never_fault
                  {| propertyTables := [{| ept_name := "houses"%string;
                                           ept_properties := [encodedHeight] |}];
                     propertyTextures := [] |}
                  {[ O := 41%nat ]} []) eq_refl) as Hdestroyed.
  exact Hdestroyed.
Defined.

Lemma features_pass_ptrs_not_null `{E : Engine} desc features store :
  allocationNeverFails E ->
  None ∉ featureTexturePtrs
           (encodePrimitiveFeaturesAnyThreadPart desc features store).1.1.
Proof.
  intros Halloc. unfold encodePrimitiveFeaturesAnyThreadPart, featureTexturePtrs. simpl.
  pose proof (features_pass_ind
    (fun _ s => cacheInv (GetFeatureIDSets features) s /\
                cacheAlive s /\ onlyWarnings (fp_log s))
    desc features store) as Hind.
  destruct Hind as (Hinv & Halive & _).
  - intros i set s Hset (Hinv & Halive & Hlog).
    split; [now apply features_body_inv|].
    now apply features_body_alive.
  - split; [|split].
    + split; simpl.
      * intros img h Hh. rewrite lookup_empty in Hh. discriminate Hh.
      * intros e He. now apply not_elem_of_nil in He.
    + intros img h Hh. simpl in Hh. rewrite lookup_empty in Hh. discriminate Hh.
    + intros entry Hin. now apply not_elem_of_nil in Hin.
  - intros (e & He & Hnull)%list_elem_of_omap.
    destruct Hinv as [_ Hres].
    destruct (Hres e He) as (_ & set & _ & Hshape).
    destruct (texture e) as [t|] eqn:Ht; [|discriminate Hnull].
    simpl in Hnull.
    destruct (featureID set) as [|a|tex|]; try discriminate Hshape.
    destruct Hshape as (t' & h & [= <-] & Hh & Hpin).
    destruct (Halive _ _ Hh) as [obj Hobj].
    rewrite Hpin in Hnull. unfold Pin in Hnull. rewrite Hobj in Hnull.
    discriminate Hnull.
Qed.

(** X24: teardown after encoding.  What the any-thread part of a model
    produces can always be torn down: [destroyEncodedModelMetadata] never
    meets a null pointer in it.  What the any-thread part of a primitive's
    features produces can be torn down without fault provided no texture
    backing allocation failed during the encoding. *)
Theorem teardown_after_encoding_completes (E : Engine) :
  (forall desc metadata store st,
      is_Some (destroyEncodedModelMetadata
                 (encodeModelMetadataAnyThreadPart desc metadata store).1.1 st)) /\
  (allocationNeverFails E ->
   forall desc features store st,
      is_Some (destroyEncodedPrimitiveFeatures
                 (encodePrimitiveFeaturesAnyThreadPart desc features store).1.1 st)).
Proof.
  split.
  - intros desc metadata store [textures d].
    unfold destroyEncodedModelMetadata, encodeModelMetadataAnyThreadPart.
    cbn [fst snd propertyTextures propertyTables].
    rewrite fold_textureBody_nil. cbn [fold_left].
    rewrite destroyTables_destroyAll, destroyAll_total by apply tablePtrs_not_null.
    eauto.
  - intros Halloc desc features store [textures d].
    unfold destroyEncodedPrimitiveFeatures. rewrite destroyFeatures_destroyAll.
    rewrite destroyAll_total; [eauto|].
    apply (features_pass_ptrs_not_null desc features store Halloc).
Qed.

Lemma teardown_after_encoding_completes_witness :
  is_Some (destroyEncodedPrimitiveFeatures
             (@encodePrimitiveFeaturesAnyThreadPart idealEngine
                sharedImageDescription sharedImageFeatures []).1.1
             ({[ O := 41%nat ]}, [])).
Proof.
  apply (proj2 (teardown_after_encoding_completes idealEngine)).
  intros w h f H. discriminate H.
Defined.

(** Without that proviso it can fault: after the failed allocation of
    [failed_allocation_leaves_cache_entry] the one descriptor holds a null
    pointer, which the teardown dereferences. *)
Example teardown_faults_after_failed_allocation :
  destroyEncodedPrimitiveFeatures
    (@encodePrimitiveFeaturesAnyThreadPart exhaustedEngine
       sharedImageDescription sharedImageFeatures []).1.1 (∅, [])
  = None.
Proof. vm_compute. reflexivity. Qed.

(** ** Material names *)

Lemma all_chars_append p (a b : FString) :
  all_chars p (a +:+ b) = all_chars p a && all_chars p b.
Proof.
  induction a as [|c a IH]; [reflexivity|].
  rewrite append_cons. simpl. rewrite IH. now rewrite andb_assoc.
Qed.

Lemma append_assoc_string (a b c : FString) : (a +:+ b) +:+ c = a +:+ (b +:+ c).
Proof.
  induction a as [|x a IH]; [reflexivity|].
  rewrite !append_cons. now rewrite IH.
Qed.

(** X25: a material name is the prefix, the table name, an underscore and
    the property name.  It is a shader-safe identifier exactly when table
    and property name consist of letters, digits and underscores, as after
    [createHlslSafeName]; its length is 8 more than that of the two names
    together; and the separator is ambiguous: moving a part between the
    two names across an underscore gives the same material name. *)
Theorem material_name_shape (propertyTableName propertyName : FString) :
  isShaderSafe (getMaterialNameForPropertyTableProperty propertyTableName propertyName)
    = all_chars isTailChar propertyTableName && all_chars isTailChar propertyName /\
  Len (getMaterialNameForPropertyTableProperty propertyTableName propertyName)
    = (8 + Len propertyTableName + Len propertyName)%nat /\
  (forall part,
      getMaterialNameForPropertyTableProperty
        (propertyTableName +:+ "_" +:+ part) propertyName
      = getMaterialNameForPropertyTableProperty
          propertyTableName (part +:+ "_" +:+ propertyName)).
Proof.
  unfold getMaterialNameForPropertyTableProperty, MaterialPropertyTablePrefix, Len.
  split; [|split].
  - rewrite !append_assoc_string.
    change (isShaderSafe ("PTABLE_" +:+ propertyTableName +:+ "_" +:+ propertyName))
      with (all_chars isTailChar (propertyTableName +:+ "_" +:+ propertyName)).
    rewrite all_chars_append.
    change (all_chars isTailChar ("_" +:+ propertyName))
      with (all_chars isTailChar propertyName).
    reflexivity.
  - rewrite !length_append_string. simpl. lia.
  - intros part. now rewrite !append_assoc_string.
Qed.

(** ** Names in the encoded output, continued *)

Lemma string_of_uint_digits (d : Decimal.uint) :
  all_chars isTailChar (NilEmpty.string_of_uint d) = true.
Proof. induction d; simpl; try reflexivity; exact IHd. Qed.

(** A non-negative number is printed with digits only. *)
Lemma to_string_digits (z : Z) : 0 <= z -> all_chars isTailChar (to_string z) = true.
Proof.
  intros Hz. unfold to_string. destruct z as [|p|p]; [reflexivity| |lia].
  simpl. unfold NilZero.string_of_int, NilZero.string_of_uint.
  destruct (Pos.to_uint p) eqn:Hd; try reflexivity;
    rewrite <- Hd; apply string_of_uint_digits.
Qed.

(** The name resolved for a set that can be encoded: never empty; the label
    when there is one; otherwise a generated identifier. *)
Lemma resolved_name_cases (set : FCesiumFeatureIdSet) (counter : Z)
    (e : EncodedFeatureIdSet) :
  descriptorShape set e ->
  (getNameForFeatureIDSet set counter).1 <> ""%string /\
  (GetLabel set <> ""%string ->
   (getNameForFeatureIDSet set counter).1 = GetLabel set) /\
  (GetLabel set = ""%string -> 0 <= counter ->
   (forall a, featureID set = FeatureID_Attribute a -> 0 <= getAttributeIndex a) ->
   isShaderSafe (getNameForFeatureIDSet set counter).1 = true).
Proof.
  unfold descriptorShape, getNameForFeatureIDSet, GetFeatureIDSetType,
    GetAsFeatureIDAttribute.
  intros Hshape.
  destruct (GetLabel set) as [|c label] eqn:Hlabel; simpl.
  - destruct (featureID set) as [|a|tex|] eqn:Hid; [contradiction| | |].
    + destruct Hshape as (Hvalid & _).
      rewrite bool_decide_eq_true_2 by reflexivity.
      rewrite bool_decide_eq_true_2 by exact Hvalid. simpl.
      split; [intros H; discriminate H|]. split; [intros H; now contradiction H|].
      intros _ _ Hidx.
      change (isShaderSafe ("_FEATURE_ID_" +:+ to_string (getAttributeIndex a)))
        with (all_chars isTailChar (to_string (getAttributeIndex a))).
      apply to_string_digits, Hidx. reflexivity.
    + simpl.
      split; [intros H; discriminate H|]. split; [intros H; now contradiction H|].
      intros _ Hc _.
      change (isShaderSafe ("_FEATURE_ID_TEXTURE_" +:+ to_string counter))
        with (all_chars isTailChar (to_string counter)).
      now apply to_string_digits.
    + simpl.
      split; [intros H; discriminate H|]. split; [intros H; now contradiction H|].
      reflexivity.
  - split; [intros H; discriminate H|]. split; [reflexivity|].
    intros H; discriminate H.
Qed.

Lemma features_pass_shapes `{E : Engine} desc features store e :
  e ∈ fp_result (encodePrimitiveFeatures_pass desc features store) ->
  exists set,
    GetFeatureIDSets features !! Z.to_nat (index e) = Some set /\
    name e = (getNameForFeatureIDSet set
                (counterAfter 0 (take (Z.to_nat (index e))
                                      (GetFeatureIDSets features)))).1 /\
    descriptorShape set e /\
    exists d, d ∈ FeatureIdSets desc /\ fisd_Name d = name e.
Proof.
  intros He.
  assert (Hshape : exists set,
            GetFeatureIDSets features !! Z.to_nat (index e) = Some set /\
            descriptorShape set e).
  { revert e He.
    apply (features_pass_ind
      (fun _ s => forall e, e ∈ fp_result s ->
         exists set, GetFeatureIDSets features !! Z.to_nat (index e) = Some set /\
                     descriptorShape set e) desc features store).
    - intros i set s Hset IH e He.
      pose proof (features_body_entry _ _ _ _ _ He) as [Hold | (Hidx & _)];
        [now apply IH|].
      pose proof (features_body_shape _ _ _ _ _ He) as [Hold | Hshape];
        [now apply IH|].
      exists set. rewrite Hidx, Nat2Z.id. now split.
    - simpl. intros e He. now apply not_elem_of_nil in He. }
  destruct Hshape as (set & Hset & Hshape).
  unfold encodePrimitiveFeatures_pass in He.
  apply features_loop_entries in He
    as [He | (k & set' & d & Hk & Hidx & Hname & _ & Hd & _)];
    [now apply not_elem_of_nil in He|].
  simpl in Hidx, Hname.
  rewrite Hidx, Nat2Z.id in Hset |- *.
  apply featureIdSetNames_at in Hname as (set'' & Hset'' & Hname).
  rewrite Hset in Hset''. injection Hset'' as <-.
  exists set. split; [exact Hset|]. split; [exact Hname|]. split; [exact Hshape|].
  apply FindByPredicate_some in Hd as [Hd Heq]. apply FString_eq_true in Heq.
  exists d. now split.
Qed.

Lemma table_property_names `{E : Engine} desc table store p :
  p ∈ ept_properties (encodePropertyTableAnyThreadPart desc table store).1.1 ->
  exists d, d ∈ ptd_Properties desc /\
            eptp_name p = createHlslSafeName (ptpd_Name d).
Proof.
  unfold encodePropertyTableAnyThreadPart. simpl. intros Hp.
  destruct (table_pass_correspondence desc table store) as (sub & _ & Hall).
  destruct (Forall2_elem_of_r _ _ _ _ Hall Hp) as ([key property] & _ & Hfrom).
  destruct Hfrom as (d & Hd & Hkey & _ & _ & _ & _ & _ & Hname & _).
  apply FindByPredicate_some in Hd as [Hd _].
  exists d. split; [exact Hd|]. simpl in Hkey, Hname. now rewrite Hkey.
Qed.

Lemma model_pass_tables `{E : Engine} desc tables (store : Store) t :
  t ∈ mp_propertyTables
        (fold_left (encodeModelMetadata_tableBody desc) tables
           {| mp_propertyTables := []; mp_store := store; mp_log := [] |}) ->
  exists table d st,
    d ∈ PropertyTables desc /\
    ept_properties t = ept_properties (encodePropertyTableAnyThreadPart d table st).1.1.
Proof.
  revert t.
  apply (fold_left_invariant
    (fun s => forall t, t ∈ mp_propertyTables s ->
       exists table d st,
         d ∈ PropertyTables desc /\
         ept_properties t
           = ept_properties (encodePropertyTableAnyThreadPart d table st).1.1)).
  - simpl. intros t Ht. now apply not_elem_of_nil in Ht.
  - intros s table IH t.
    destruct (model_body_cases desc s table) as [[_ ->] | (d & Hsome & Hp & _)];
      [apply IH|].
    rewrite Hp. intros [Ht | ->%list_elem_of_singleton]%elem_of_app; [now apply IH|].
    apply FindByPredicate_some in Hsome as [Hd _].
    exists table, d, (mp_store s). now split.
Qed.

(** C3 (amended): every [EncodedPropertyTableProperty.name] in the encoded
    output is [createHlslSafeName] of the name of a requested description,
    hence a non-empty shader-safe identifier (head in [A-Za-z_], tail in
    [A-Za-z0-9_]).  Every [EncodedFeatureIdSet.name] is the name resolved
    for its feature ID set, equals the name of a requested description and
    is not empty.  For a set without label it is a generated name, which is
    a shader-safe identifier (given a non-negative attribute index and a
    counter that has not wrapped); for a set with a label it is the label,
    verbatim. *)
Theorem C3_encoded_names (E : Engine) :
  (forall desc table store p,
      p ∈ ept_properties (encodePropertyTableAnyThreadPart desc table store).1.1 ->
      exists d, d ∈ ptd_Properties desc /\
        eptp_name p = createHlslSafeName (ptpd_Name d) /\
        isShaderSafe (eptp_name p) = true) /\
  (forall desc metadata store t p,
      t ∈ propertyTables (encodeModelMetadataAnyThreadPart desc metadata store).1.1 ->
      p ∈ ept_properties t ->
      exists td d, td ∈ PropertyTables desc /\ d ∈ ptd_Properties td /\
        eptp_name p = createHlslSafeName (ptpd_Name d) /\
        isShaderSafe (eptp_name p) = true) /\
  (forall desc features store e,
      e ∈ featureIdSets (encodePrimitiveFeaturesAnyThreadPart desc features store).1.1 ->
      exists set d,
        GetFeatureIDSets features !! Z.to_nat (index e) = Some set /\
        name e = (getNameForFeatureIDSet set
                    (counterAfter 0 (take (Z.to_nat (index e))
                                          (GetFeatureIDSets features)))).1 /\
        d ∈ FeatureIdSets desc /\ fisd_Name d = name e /\
        name e <> ""%string /\
        (GetLabel set <> ""%string -> name e = GetLabel set) /\
        (GetLabel set = ""%string ->
         Z.of_nat (length (GetFeatureIDSets features)) <= INT32_MAX ->
         (forall a, featureID set = FeatureID_Attribute a -> 0 <= getAttributeIndex a) ->
         isShaderSafe (name e) = true)).
Proof.
  split; [|split].
  - intros desc table store p Hp.
    destruct (table_property_names desc table store p Hp) as (d & Hd & Hname).
    exists d. split; [exact Hd|]. split; [exact Hname|].
    rewrite Hname. apply createHlslSafeName_safe.
  - intros desc metadata store t p Ht Hp.
    unfold encodeModelMetadataAnyThreadPart in Ht. simpl in Ht.
    apply model_pass_tables in Ht as (table & td & st & Htd & Hprops).
    rewrite Hprops in Hp.
    destruct (table_property_names td table st p Hp) as (d & Hd & Hname).
    exists td, d. split; [exact Htd|]. split; [exact Hd|]. split; [exact Hname|].
    rewrite Hname. apply createHlslSafeName_safe.
  - intros desc features store e He.
    unfold encodePrimitiveFeaturesAnyThreadPart in He. simpl in He.
    apply features_pass_shapes in He as (set & Hset & Hname & Hshape & d & Hd & Heq).
    pose proof (resolved_name_cases set
                  (counterAfter 0 (take (Z.to_nat (index e))
                                        (GetFeatureIDSets features))) e Hshape)
      as (Hne & Hlabel & Hgen).
    rewrite <- Hname in Hne, Hlabel, Hgen.
    exists set, d. split; [exact Hset|]. split; [exact Hname|]. split; [exact Hd|].
    split; [exact Heq|]. split; [exact Hne|]. split; [exact Hlabel|].
    intros Hnone Hlen Hidx. apply Hgen; [exact Hnone| |exact Hidx].
    pose proof (length_take (GetFeatureIDSets features) (Z.to_nat (index e))) as Hle.
    assert (Hfit : 0 + Z.of_nat (length (take (Z.to_nat (index e))
                                              (GetFeatureIDSets features)))
                   <= INT32_MAX) by lia.
    pose proof (counterAfter_bounds 0 _ ltac:(lia) Hfit) as [Hlo _]. exact Hlo.
Qed.

Lemma C3_encoded_names_witness :
  exists d, d ∈ ptd_Properties roofOnly /\
    eptp_name encodedRoof = createHlslSafeName (ptpd_Name d) /\
    isShaderSafe (eptp_name encodedRoof) = true.
Proof.
  apply (proj1 (C3_encoded_names idealEngine) roofOnly roofTable []).
  vm_compute. apply list_elem_of_here.
Defined.
